(** * CalBook: availability engine and booking commit path

    A shallow embedding of [src/lib/availability.ts], of the free/busy
    fan-out of [src/lib/google-calendar.ts], of [src/lib/rate-limit.ts]
    and of the [POST /api/bookings] handler, with the properties the
    specification states about them.

    The program part also embeds the scheduling fields of
    [src/lib/validations.ts], [getClientIP], the two calendar calls that
    change an event, the handlers of [/api/bookings/[uid]], the listing of
    [GET /api/bookings], [getSlotsGroupedByDate] and the public
    availability route; the last modules of Part III state what the code
    itself guarantees about them.

    Conventions of the model.
    - A JavaScript [Date] is its epoch value in milliseconds, a [Z].
    - The process time zone is UTC, so the calendar functions of date-fns
      that read local fields ([startOfDay], [setHours], [getDay], [addDays],
      [format]) are arithmetic on the epoch value.
    - A host time zone is represented by its offset from UTC in minutes;
      zones with daylight-saving transitions are outside the model.
    - One request observes one clock value [now].
    - Prisma tables are lists of rows; the in-memory rate-limit [Map] is a
      [gmap]; [console.error] appends to a log. *)

From Stdlib Require Import ZArith List String Ascii Bool Lia DecimalString Sorted Permutation.
From stdpp Require Import base list gmap strings.

Open Scope Z_scope.

(* ================================================================== *)
(** * Part I: the program *)
(* ================================================================== *)

(** ** date-fns and date-fns-tz, on epoch milliseconds *)

Module DateFns.

Definition millisecondsInMinute : Z := 60000.
Definition millisecondsInHour : Z := 3600000.
Definition millisecondsInDay : Z := 86400000.

Definition addMinutes (date amount : Z) : Z := date + amount * millisecondsInMinute.

Definition addDays (date amount : Z) : Z := date + amount * millisecondsInDay.

(** [isAfter(date, dateToCompare)] is [+date > +dateToCompare]. *)
Definition isAfter (date dateToCompare : Z) : bool := dateToCompare <? date.

Definition isBefore (date dateToCompare : Z) : bool := date <? dateToCompare.

Definition startOfDay (date : Z) : Z := date - date mod millisecondsInDay.

Definition endOfDay (date : Z) : Z := startOfDay date + (millisecondsInDay - 1).

Definition getHours (date : Z) : Z := (date mod millisecondsInDay) / millisecondsInHour.

Definition getMinutes (date : Z) : Z := (date mod millisecondsInHour) / millisecondsInMinute.

(** [Date.prototype.setHours] and [setMinutes] accept values outside the
    clock range and carry into the neighbouring unit. *)
Definition setHours (date hours : Z) : Z := date + (hours - getHours date) * millisecondsInHour.

Definition setMinutes (date minutes : Z) : Z := date + (minutes - getMinutes date) * millisecondsInMinute.

(** 0 = Sunday; the epoch day was a Thursday. *)
Definition getDay (date : Z) : Z := (date / millisecondsInDay + 4) mod 7.

(** [toZonedTime(d, tz)]: a date whose local fields show the wall clock of
    the zone at instant [d]; [fromZonedTime] is its inverse. *)
Definition toZonedTime (date tz : Z) : Z := date + tz * millisecondsInMinute.

Definition fromZonedTime (date tz : Z) : Z := date - tz * millisecondsInMinute.

Definition digit (n : Z) : ascii := ascii_of_nat (48 + Z.to_nat (n mod 10)).

Definition pad2 (n : Z) : string := String (digit (n / 10)) (String (digit n) EmptyString).

(** [format(date, 'HH:mm')] *)
Definition format_HHmm (date : Z) : string :=
  (pad2 (getHours date) ++ ":" ++ pad2 (getMinutes date))%string.

(** [areIntervalsOverlapping] of date-fns 3: each interval's end points are
    put in order first, then the comparison is strict on both sides. *)
Definition areIntervalsOverlapping (leftStart leftEnd rightStart rightEnd : Z) : bool :=
  let leftStartTime := Z.min leftStart leftEnd in
  let leftEndTime := Z.max leftStart leftEnd in
  let rightStartTime := Z.min rightStart rightEnd in
  let rightEndTime := Z.max rightStart rightEnd in
  (leftStartTime <? rightEndTime) && (rightStartTime <? leftEndTime).

End DateFns.

(** ** Types of [src/types/index.ts] *)

Module WorkingHours.
Record t : Type := mk { day : Z; start : string; end_ : string }.
End WorkingHours.

Module BusyBlock.
Record t : Type := mk { start : Z; end_ : Z; calendarId : string }.
Definition set_end (b : t) (e : Z) : t := mk (start b) e (calendarId b).
End BusyBlock.

Module TimeSlot.
Record t : Type := mk { start : Z; end_ : Z; available : bool }.
End TimeSlot.

Inductive BookingStatus : Type := PENDING | CONFIRMED | CANCELLED | COMPLETED.

Definition BookingStatus_eqb (a b : BookingStatus) : bool :=
  match a, b with
  | PENDING, PENDING | CONFIRMED, CONFIRMED
  | CANCELLED, CANCELLED | COMPLETED, COMPLETED => true
  | _, _ => false
  end.

(** ** Rows of the Prisma tables

    [prisma/schema.prisma] is not among the sources; the columns are the
    ones the queries of the sources read and write. *)

Inductive LocationType : Type := GOOGLE_MEET | ZOOM | PHONE | IN_PERSON | CUSTOM.

Module User.
Record t : Type := mk {
  id : string; name : option string; email : string;
  timezone : Z (* offset of the host zone, minutes east of UTC *) }.
End User.

Module ConnectedAccount.
Record t : Type := mk {
  id : string; userId : string; expiresAt : Z; isValid : bool }.
Definition set_expiresAt (a : t) (e : Z) : t := mk (id a) (userId a) e (isValid a).
Definition set_isValid (a : t) (v : bool) : t := mk (id a) (userId a) (expiresAt a) v.
End ConnectedAccount.

Module Calendar.
Record t : Type := mk {
  id : string; userId : string; connectedAccountId : string;
  googleCalendarId : string; isSelected : bool }.
End Calendar.

Module EventTypeCalendar.
Record t : Type := mk { eventTypeId : string; calendarId : string; isDestination : bool }.
End EventTypeCalendar.

Module EventType.
Record t : Type := mk {
  id : string; userId : string; name : string;
  duration : Z; bufferBefore : Z; bufferAfter : Z;
  minimumNotice : Z; schedulingWindow : Z; slotInterval : Z;
  workingHours : list WorkingHours.t;
  treatTentativeAsBusy : bool; includeAllDayEvents : bool;
  isActive : bool; requiresConfirmation : bool;
  locationType : LocationType; locationValue : option string }.
End EventType.

Module Booking.
Record t : Type := mk {
  id : string; uid : string; userId : string; eventTypeId : string;
  startTime : Z; endTime : Z; timezone : string;
  attendeeName : string; attendeeEmail : string;
  attendeePhone : option string; attendeeCompany : option string;
  attendeeNotes : option string;
  customResponses : option (list (string * string));
  idempotencyKey : option string;
  status : BookingStatus;
  googleEventId : option string; googleCalendarId : option string;
  meetingUrl : option string }.
(** The [data] of the one [prisma.booking.update] of the commit path. *)
Definition set_google (b : t) (eventId : string) (calId : string) (url : option string) : t :=
  mk (id b) (uid b) (userId b) (eventTypeId b) (startTime b) (endTime b) (timezone b)
     (attendeeName b) (attendeeEmail b) (attendeePhone b) (attendeeCompany b)
     (attendeeNotes b) (customResponses b) (idempotencyKey b) (status b)
     (Some eventId) (Some calId) url.
End Booking.

(** ** The store, the outside world, and the effects of one request *)

Module RateLimitEntry.
Record t : Type := mk { count : Z; resetAt : Z }.
End RateLimitEntry.

(** What a request does, in order: each Prisma call, each call to an
    outside service, each [console.error]. *)
Inductive Effect : Type :=
| RateLimitCheck (key : string)
| EventTypeFindUniqueWithUser (eventTypeId : string)
| ConnectedAccountFindUnique (accountId : string)
| ConnectedAccountUpdate (accountId : string)
| CalendarFindMany (userId : string)
| BookingFindUniqueByKey (idempotencyKey : string)
| BookingFindMany (userId : string)
| BookingFindFirst (userId : string)
| BookingCreate (uid : string)
| BookingUpdate (bookingId : string)
| EventTypeFindUnique (eventTypeId : string)
| GoogleRefreshAccessToken (accountId : string)
| GoogleFreeBusyQuery (accountId : string)
| GoogleEventsInsert (accountId : string)
| SendEmails
| ConsoleError (message : string) (subject : string).

Record World : Type := mkWorld {
  users : list User.t;
  connectedAccounts : list ConnectedAccount.t;
  calendars : list Calendar.t;
  eventTypes : list EventType.t;
  eventTypeCalendars : list EventTypeCalendar.t;
  bookings : list Booking.t;
  rateLimitStore : gmap string RateLimitEntry.t;
  trace : list Effect }.

Definition set_connectedAccounts (w : World) (l : list ConnectedAccount.t) : World :=
  mkWorld (users w) l (calendars w) (eventTypes w) (eventTypeCalendars w)
          (bookings w) (rateLimitStore w) (trace w).

Definition set_bookings (w : World) (l : list Booking.t) : World :=
  mkWorld (users w) (connectedAccounts w) (calendars w) (eventTypes w)
          (eventTypeCalendars w) l (rateLimitStore w) (trace w).

Definition set_rateLimitStore (w : World) (m : gmap string RateLimitEntry.t) : World :=
  mkWorld (users w) (connectedAccounts w) (calendars w) (eventTypes w)
          (eventTypeCalendars w) (bookings w) m (trace w).

Definition set_trace (w : World) (l : list Effect) : World :=
  mkWorld (users w) (connectedAccounts w) (calendars w) (eventTypes w)
          (eventTypeCalendars w) (bookings w) (rateLimitStore w) l.

Module JsError.
(** A thrown value: its [code] property, if any, and its message. *)
Record t : Type := mk { code : option string; message : string }.
End JsError.

(** How an awaited promise settles. *)
Inductive Settled (A : Type) : Type :=
| Fulfilled (a : A)
| Rejected (e : JsError.t).
Arguments Fulfilled {A} a.
Arguments Rejected {A} e.

(** How a call that contains an unbounded loop ends. *)
Inductive Outcome (A : Type) : Type :=
| Returns (a : A)
| Throws (e : JsError.t)
| Diverges.
Arguments Returns {A} a.
Arguments Throws {A} e.
Arguments Diverges {A}.

Inductive RefreshResult : Type :=
| RefreshFailed
| Refreshed (access_token : option string) (expiry_date : option Z).

(** Everything the handlers obtain from outside the repository during one
    request, and the two pieces of the repository that are not among the
    sources ([hashString] of [lib/encryption.ts]; the unique indexes of
    [prisma/schema.prisma], as the test a new booking row must pass). *)
Record Env : Type := mkEnv {
  now : Z;
  uuidv4 : string;
  cuid : string;
  Date_parse : string -> Z;
  hashString : string -> string;
  uniqueViolation : list Booking.t -> Booking.t -> bool;
  refreshAccessToken : string -> RefreshResult;
  freebusyQuery : string -> list string -> Z -> Z -> option (list (string * list (Z * Z)));
  eventsInsert : string -> string -> option (string * option string);
  sendEmails : bool }.

(** A computation that reads and updates the store. *)
Definition M (A : Type) : Type := World -> A * World.

Definition ret {A : Type} (a : A) : M A := fun w => (a, w).

Definition bind {A B : Type} (m : M A) (k : A -> M B) : M B :=
  fun w => let (a, w') := m w in k a w'.

Notation "x <- m ;; k" := (bind m (fun x => k))
  (at level 100, m at next level, right associativity).
Notation "m ;;; k" := (bind m (fun _ => k))
  (at level 100, right associativity).

Definition gets {A : Type} (f : World -> A) : M A := fun w => (f w, w).

Definition emit (e : Effect) : M unit := fun w => (tt, set_trace w (trace w ++ [e])).

Definition console_error (message subject : string) : M unit :=
  emit (ConsoleError message subject).

(** JavaScript truthiness of an optional string. *)
Definition truthy (s : option string) : bool :=
  match s with
  | Some EmptyString | None => false
  | Some _ => true
  end.

(** ** [src/lib/rate-limit.ts] *)

Module RateLimit.

Record Options : Type := mkOptions { windowMs : Z; max : Z }.

Record Result : Type := mkResult { success : bool; remaining : Z; resetAt : Z }.

Definition rateLimit (env : Env) (key : string) (options : Options) : M Result :=
  emit (RateLimitCheck key) ;;;
  entry <- gets (fun w => rateLimitStore w !! key) ;;
  let fresh : M Result :=
    (fun w => (tt, set_rateLimitStore w
        (<[key := RateLimitEntry.mk 1 (now env + windowMs options)]> (rateLimitStore w)))) ;;;
    ret (mkResult true (max options - 1) (now env + windowMs options)) in
  match entry with
  | None => fresh
  | Some entry =>
      if RateLimitEntry.resetAt entry <=? now env then fresh
      else
        let count := RateLimitEntry.count entry + 1 in
        (fun w => (tt, set_rateLimitStore w
            (<[key := RateLimitEntry.mk count (RateLimitEntry.resetAt entry)]>
               (rateLimitStore w)))) ;;;
        if count >? max options
        then ret (mkResult false 0 (RateLimitEntry.resetAt entry))
        else ret (mkResult true (max options - count) (RateLimitEntry.resetAt entry))
  end.

Definition RATE_LIMITS_booking : Options := mkOptions (60 * 1000) 10.
Definition RATE_LIMITS_availability : Options := mkOptions (60 * 1000) 30.
Definition RATE_LIMITS_oauth : Options := mkOptions (60 * 1000) 5.

End RateLimit.

(** ** Free/busy of [src/lib/google-calendar.ts] *)

Module GoogleCalendar.

Definition updateAccount (accountId : string) (f : ConnectedAccount.t -> ConnectedAccount.t) : M unit :=
  emit (ConnectedAccountUpdate accountId) ;;;
  fun w => (tt, set_connectedAccounts w
    (map (fun a => if String.eqb (ConnectedAccount.id a) accountId then f a else a)
         (connectedAccounts w))).

(** [expiry_date || Date.now() + 3600000] *)
Definition expiryOrDefault (env : Env) (expiry_date : option Z) : Z :=
  match expiry_date with
  | Some e => if e =? 0 then now env + 3600000 else e
  | None => now env + 3600000
  end.

(** [getAuthenticatedClient]: the client itself carries nothing the model
    needs; what matters is whether the call returns, and what it writes.
    Token ciphertexts are left out ([encrypt] and [decrypt] are not among
    the sources), and so is the [tokens] listener, which only repeats the
    write of the refresh branch when the Google client refreshes on its
    own. *)
Definition getAuthenticatedClient (env : Env) (connectedAccountId : string) : M (Settled unit) :=
  emit (ConnectedAccountFindUnique connectedAccountId) ;;;
  account <- gets (fun w =>
    find (fun a => String.eqb (ConnectedAccount.id a) connectedAccountId) (connectedAccounts w)) ;;
  match account with
  | None => ret (Rejected (JsError.mk None "Connected account not found"))
  | Some account =>
      if ConnectedAccount.expiresAt account <? now env + 60000 then
        emit (GoogleRefreshAccessToken connectedAccountId) ;;;
        match refreshAccessToken env connectedAccountId with
        | Refreshed access_token expiry_date =>
            (if truthy access_token
             then updateAccount connectedAccountId
                    (fun a => ConnectedAccount.set_expiresAt a (expiryOrDefault env expiry_date))
             else ret tt) ;;;
            ret (Fulfilled tt)
        | RefreshFailed =>
            updateAccount connectedAccountId
              (fun a => ConnectedAccount.set_isValid a false) ;;;
            ret (Rejected (JsError.mk None
              "Token refresh failed. Please reconnect your Google account."))
        end
      else ret (Fulfilled tt)
  end.

Definition getFreeBusy (env : Env) (connectedAccountId : string) (calendarIds : list string)
    (timeMin timeMax : Z) : M (Settled (list BusyBlock.t)) :=
  client <- getAuthenticatedClient env connectedAccountId ;;
  match client with
  | Rejected e => ret (Rejected e)
  | Fulfilled _ =>
      emit (GoogleFreeBusyQuery connectedAccountId) ;;;
      match freebusyQuery env connectedAccountId calendarIds timeMin timeMax with
      | None => ret (Rejected (JsError.mk None "freebusy.query failed"))
      | Some calendars =>
          ret (Fulfilled (flat_map (fun '(calendarId, busy) =>
                 map (fun '(s, e) => BusyBlock.mk s e calendarId) busy) calendars))
      end
  end.

(** The [Map] from account to its calendar ids, in insertion order. *)
Fixpoint groupPush (accountId calId : string) (m : list (string * list string))
    : list (string * list string) :=
  match m with
  | [] => [(accountId, [calId])]
  | (a, ids) :: m' =>
      if String.eqb a accountId then (a, ids ++ [calId]) :: m'
      else (a, ids) :: groupPush accountId calId m'
  end.

Definition calendarsByAccount (cals : list Calendar.t) : list (string * list string) :=
  fold_left (fun m cal =>
    groupPush (Calendar.connectedAccountId cal) (Calendar.googleCalendarId cal) m) cals [].

(** The [where] of [prisma.calendar.findMany] in [getCompositeBusy]. *)
Definition selectedValidCalendars (userId : string) (w : World) : list Calendar.t :=
  List.filter (fun cal =>
    String.eqb (Calendar.userId cal) userId && Calendar.isSelected cal &&
    existsb (fun a => String.eqb (ConnectedAccount.id a) (Calendar.connectedAccountId cal)
                      && ConnectedAccount.isValid a) (connectedAccounts w))
    (calendars w).

(** One element of [busyBlocksPromises]: [getFreeBusy(...).catch(...)]. *)
Definition fetchAccount (env : Env) (timeMin timeMax : Z) (entry : string * list string)
    : M (list BusyBlock.t) :=
  r <- getFreeBusy env (fst entry) (snd entry) timeMin timeMax ;;
  match r with
  | Fulfilled blocks => ret blocks
  | Rejected _ =>
      console_error "Error fetching free/busy for account" (fst entry) ;;;
      ret []
  end.

Fixpoint promiseAll {A B : Type} (f : A -> M B) (l : list A) : M (list B) :=
  match l with
  | [] => ret []
  | x :: l' => r <- f x ;; rs <- promiseAll f l' ;; ret (r :: rs)
  end.

(** The per-account calls touch disjoint account rows, so running them one
    after the other reaches the state every interleaving reaches. *)
Definition getCompositeBusy (env : Env) (userId : string) (timeMin timeMax : Z)
    : M (list BusyBlock.t) :=
  emit (CalendarFindMany userId) ;;;
  cals <- gets (selectedValidCalendars userId) ;;
  results <- promiseAll (fetchAccount env timeMin timeMax) (calendarsByAccount cals) ;;
  ret (concat results).

(** [createCalendarEvent]: the event payload does not influence the
    model; the outside world decides whether [events.insert] succeeds and
    what it returns. *)
Definition createCalendarEvent (env : Env) (connectedAccountId calendarId : string)
    : M (Settled (string * option string)) :=
  client <- getAuthenticatedClient env connectedAccountId ;;
  match client with
  | Rejected e => ret (Rejected e)
  | Fulfilled _ =>
      emit (GoogleEventsInsert connectedAccountId) ;;;
      match eventsInsert env connectedAccountId calendarId with
      | None => ret (Rejected (JsError.mk None "events.insert failed"))
      | Some (eventId, meetingUrl) =>
          ret (Fulfilled (eventId, if truthy meetingUrl then meetingUrl else None))
      end
  end.

End GoogleCalendar.

(** ** Interval algebra of [src/lib/availability.ts] *)

Module Availability.
Import DateFns.

(** [isSlotBusy]: the slot widened by the buffers (minutes) against every
    block. *)
Definition isSlotBusy (slotStart slotEnd : Z) (busyBlocks : list BusyBlock.t)
    (bufferBefore bufferAfter : Z) : bool :=
  let slotWithBufferStart := addMinutes slotStart (- bufferBefore) in
  let slotWithBufferEnd := addMinutes slotEnd bufferAfter in
  existsb (fun block =>
    areIntervalsOverlapping slotWithBufferStart slotWithBufferEnd
      (BusyBlock.start block) (BusyBlock.end_ block)) busyBlocks.

(** [[...blocks].sort((a, b) => a.start - b.start)]: the sort is stable, so
    a block is placed before the blocks of the sorted rest that start at or
    after it. *)
Fixpoint insertByStart (x : BusyBlock.t) (l : list BusyBlock.t) : list BusyBlock.t :=
  match l with
  | [] => [x]
  | y :: t =>
      if BusyBlock.start y <? BusyBlock.start x
      then y :: insertByStart x t
      else x :: y :: t
  end.

Definition sortByStart (blocks : list BusyBlock.t) : list BusyBlock.t :=
  foldr insertByStart [] blocks.

(** One turn of the loop of [mergeBusyBlocks]: [last] is the final element
    of [merged]; it is extended in place or [current] is pushed. *)
Definition mergeStep (merged : list BusyBlock.t) (current : BusyBlock.t) : list BusyBlock.t :=
  match last merged with
  | None => merged
  | Some lst =>
      if BusyBlock.start current <=? BusyBlock.end_ lst then
        if BusyBlock.end_ current >? BusyBlock.end_ lst
        then removelast merged ++ [BusyBlock.set_end lst (BusyBlock.end_ current)]
        else merged
      else merged ++ [current]
  end.

(** [mergeBusyBlocks]. The source extends [last] in place, which also
    changes the block object of the caller's array; the callers build
    their blocks afresh and read only the returned array, so blocks are
    values here. *)
Definition mergeBusyBlocks (blocks : list BusyBlock.t) : list BusyBlock.t :=
  match sortByStart blocks with
  | [] => []
  | first :: rest => fold_left mergeStep rest [first]
  end.

(** *** Configuration and candidate slots *)

Record EventTypeConfig : Type := mkConfig {
  userId : string;
  duration : Z; bufferBefore : Z; bufferAfter : Z;
  minimumNotice : Z; schedulingWindow : Z; slotInterval : Z;
  workingHours : list WorkingHours.t;
  treatTentativeAsBusy : bool; includeAllDayEvents : bool;
  timezone : Z }.

(** The row [prisma.eventType.findUnique] finds, with [include: { user }],
    as the configuration record. *)
Definition configOf (eventTypeId : string) (w : World) : option EventTypeConfig :=
  match find (fun et => String.eqb (EventType.id et) eventTypeId) (eventTypes w) with
  | None => None
  | Some eventType =>
      match find (fun u => String.eqb (User.id u) (EventType.userId eventType)) (users w) with
      | None => None
      | Some user =>
          Some (mkConfig (EventType.userId eventType) (EventType.duration eventType)
                  (EventType.bufferBefore eventType) (EventType.bufferAfter eventType)
                  (EventType.minimumNotice eventType) (EventType.schedulingWindow eventType)
                  (EventType.slotInterval eventType) (EventType.workingHours eventType)
                  (EventType.treatTentativeAsBusy eventType)
                  (EventType.includeAllDayEvents eventType) (User.timezone user))
      end
  end.

Definition getEventTypeConfig (eventTypeId : string) : M (option EventTypeConfig) :=
  emit (EventTypeFindUniqueWithUser eventTypeId) ;;;
  gets (configOf eventTypeId).

(** [time.split(':')] *)
Fixpoint splitOn (sep : ascii) (s : string) : list string :=
  match s with
  | EmptyString => [EmptyString]
  | String c s' =>
      if Ascii.eqb c sep then EmptyString :: splitOn sep s'
      else match splitOn sep s' with
           | [] => [String c EmptyString]
           | piece :: pieces => String c piece :: pieces
           end
  end.

Definition digitValue (c : ascii) : option Z :=
  let n := Z.of_N (N_of_ascii c) in
  if (48 <=? n) && (n <=? 57) then Some (n - 48) else None.

Fixpoint NumberFrom (acc : Z) (s : string) : option Z :=
  match s with
  | EmptyString => Some acc
  | String c s' =>
      match digitValue c with
      | Some d => NumberFrom (acc * 10 + d) s'
      | None => None
      end
  end.

(** [Number(s)] on strings of decimal digits, the only ones the event-type
    schema ([/^\d{2}:\d{2}$/]) lets through; [None] stands for [NaN]. *)
Definition Number (s : string) : option Z := NumberFrom 0 s.

(** [parseTimeString]; [None] when a component is [NaN] or [undefined]. *)
Definition parseTimeString (time : string) : option (Z * Z) :=
  match splitOn ":" time with
  | hours :: minutes :: _ =>
      match Number hours, Number minutes with
      | Some h, Some m => Some (h, m)
      | _, _ => None
      end
  | _ => None
  end.

(** The [while (true)] of [generateDayCandidateSlots], for [fuel] turns. *)
Fixpoint slotLoop (fuel : nat) (currentSlotStart workingDayEnd duration slotInterval : Z)
    : list (Z * Z) :=
  match fuel with
  | O => []
  | S fuel' =>
      let slotEnd := addMinutes currentSlotStart duration in
      if isAfter slotEnd workingDayEnd then []
      else (currentSlotStart, slotEnd)
             :: slotLoop fuel' (addMinutes currentSlotStart slotInterval)
                  workingDayEnd duration slotInterval
  end.

(** Turns after which a loop with a positive step has met its [break]. *)
Definition slotLoopBound (currentSlotStart workingDayEnd duration slotInterval : Z) : nat :=
  Z.to_nat ((workingDayEnd - addMinutes currentSlotStart duration)
            / (slotInterval * millisecondsInMinute) + 1).

(** [generateDayCandidateSlots]. [None]: the loop never meets its [break]
    (a time that did not parse makes every comparison false; a step that is
    not positive never passes the end of the day). *)
Definition generateDayCandidateSlots (date : Z) (workingHours : list WorkingHours.t)
    (duration slotInterval adminTimezone : Z) : option (list (Z * Z)) :=
  let dayOfWeek := getDay date in
  match find (fun wh => WorkingHours.day wh =? dayOfWeek) workingHours with
  | None => Some []
  | Some dayConfig =>
      match parseTimeString (WorkingHours.start dayConfig),
            parseTimeString (WorkingHours.end_ dayConfig) with
      | Some (startHours, startMinutes), Some (endHours, endMinutes) =>
          let currentSlotStart :=
            fromZonedTime (setMinutes (setHours (startOfDay date) startHours) startMinutes)
                          adminTimezone in
          let workingDayEnd :=
            fromZonedTime (setMinutes (setHours (startOfDay date) endHours) endMinutes)
                          adminTimezone in
          if isAfter (addMinutes currentSlotStart duration) workingDayEnd then Some []
          else if slotInterval <=? 0 then None
          else Some (slotLoop
                       (slotLoopBound currentSlotStart workingDayEnd duration slotInterval)
                       currentSlotStart workingDayEnd duration slotInterval)
      | _, _ => None
      end
  end.

(** *** [generateAvailableSlots] *)

Record GenerateSlotsOptions : Type := mkOptions {
  eventTypeId : string; startDate : Z; endDate : Z; requestTimezone : string }.

Definition statusIsActive (st : BookingStatus) : bool :=
  match st with
  | CONFIRMED | PENDING => true
  | CANCELLED | COMPLETED => false
  end.

(** The effective window: [(effectiveStartDate, effectiveEndDate)]. *)
Definition effectiveWindow (now : Z) (config : EventTypeConfig) (startDate endDate : Z) : Z * Z :=
  let minBookingTime := addMinutes now (minimumNotice config) in
  let maxBookingDate := addDays now (schedulingWindow config) in
  (if isAfter startDate minBookingTime then startDate else minBookingTime,
   if isBefore endDate maxBookingDate then endDate else maxBookingDate).

(** The [where] of [prisma.booking.findMany] in [generateAvailableSlots]. *)
Definition existingBookingsIn (userId : string) (effectiveStartDate effectiveEndDate : Z)
    (w : World) : list Booking.t :=
  List.filter (fun b =>
    String.eqb (Booking.userId b) userId && statusIsActive (Booking.status b)
    && (effectiveStartDate <=? Booking.startTime b)
    && (Booking.endTime b <=? effectiveEndDate)) (bookings w).

(** The body of [for (const slot of daySlots)]. *)
Definition keepSlot (minBookingTime maxBookingDate : Z) (mergedBusyBlocks : list BusyBlock.t)
    (config : EventTypeConfig) (slot : Z * Z) : bool :=
  if isBefore (fst slot) minBookingTime then false
  else if isAfter (fst slot) maxBookingDate then false
  else negb (isSlotBusy (fst slot) (snd slot) mergedBusyBlocks
               (bufferBefore config) (bufferAfter config)).

(** The [while (isBefore(currentDate, endOfDay(effectiveEndDate)))] loop. *)
Fixpoint dayLoop (fuel : nat) (currentDate effectiveEndDate minBookingTime maxBookingDate : Z)
    (mergedBusyBlocks : list BusyBlock.t) (config : EventTypeConfig)
    : option (list TimeSlot.t) :=
  match fuel with
  | O => Some []
  | S fuel' =>
      if isBefore currentDate (endOfDay effectiveEndDate) then
        match generateDayCandidateSlots (toZonedTime currentDate (timezone config))
                (workingHours config) (duration config) (slotInterval config)
                (timezone config) with
        | None => None
        | Some daySlots =>
            match dayLoop fuel' (addDays currentDate 1) effectiveEndDate
                    minBookingTime maxBookingDate mergedBusyBlocks config with
            | None => None
            | Some later =>
                Some (map (fun slot => TimeSlot.mk (fst slot) (snd slot) true)
                        (List.filter (keepSlot minBookingTime maxBookingDate
                                        mergedBusyBlocks config) daySlots)
                      ++ later)
            end
        end
      else Some []
  end.

(** Days between the first [currentDate] and the end of the last day. *)
Definition dayLoopBound (effectiveStartDate effectiveEndDate : Z) : nat :=
  Z.to_nat ((endOfDay effectiveEndDate - startOfDay effectiveStartDate)
            / millisecondsInDay + 1).

Definition generateAvailableSlots (env : Env) (options : GenerateSlotsOptions)
    : M (Outcome (list TimeSlot.t)) :=
  config <- getEventTypeConfig (eventTypeId options) ;;
  match config with
  | None => ret (Throws (JsError.mk None "Event type not found"))
  | Some config =>
      let now := now env in
      let minBookingTime := addMinutes now (minimumNotice config) in
      let maxBookingDate := addDays now (schedulingWindow config) in
      let effectiveStartDate :=
        fst (effectiveWindow now config (startDate options) (endDate options)) in
      let effectiveEndDate :=
        snd (effectiveWindow now config (startDate options) (endDate options)) in
      if isAfter effectiveStartDate effectiveEndDate then ret (Returns [])
      else
        busyBlocks <- GoogleCalendar.getCompositeBusy env (userId config)
                        effectiveStartDate effectiveEndDate ;;
        emit (BookingFindMany (userId config)) ;;;
        existingBookings <- gets (existingBookingsIn (userId config)
                                    effectiveStartDate effectiveEndDate) ;;
        let allBusyBlocks :=
          busyBlocks ++ map (fun b => BusyBlock.mk (Booking.startTime b) (Booking.endTime b)
                                        "bookings") existingBookings in
        let mergedBusyBlocks := mergeBusyBlocks allBusyBlocks in
        match dayLoop (dayLoopBound effectiveStartDate effectiveEndDate)
                (startOfDay effectiveStartDate) effectiveEndDate
                minBookingTime maxBookingDate mergedBusyBlocks config with
        | None => ret Diverges
        | Some slots => ret (Returns slots)
        end
  end.

(** *** [isSlotAvailable] *)

(** The [where] of [prisma.booking.findFirst] in [isSlotAvailable]. *)
Definition overlapsQuery (userId : string) (startTime endTime : Z) (b : Booking.t) : bool :=
  String.eqb (Booking.userId b) userId && statusIsActive (Booking.status b)
  && (((Booking.startTime b <=? startTime) && (Booking.endTime b >? startTime))
      || ((Booking.startTime b <? endTime) && (Booking.endTime b >=? endTime))
      || ((Booking.startTime b >=? startTime) && (Booking.endTime b <=? endTime))).

(** The two strings of each working-hours row are also parsed by the
    source at this point, but the parsed numbers are not used. *)
Definition isSlotAvailable (env : Env) (eventTypeId : string) (startTime endTime : Z) : M bool :=
  config <- getEventTypeConfig eventTypeId ;;
  match config with
  | None => ret false
  | Some config =>
      let now := now env in
      let minBookingTime := addMinutes now (minimumNotice config) in
      if isBefore startTime minBookingTime then ret false else
      let maxBookingDate := addDays now (schedulingWindow config) in
      if isAfter startTime maxBookingDate then ret false else
      let startInAdminTz := toZonedTime startTime (timezone config) in
      let dayOfWeek := getDay startInAdminTz in
      match find (fun wh => WorkingHours.day wh =? dayOfWeek) (workingHours config) with
      | None => ret false
      | Some dayConfig =>
          let timeOfDay := format_HHmm startInAdminTz in
          let slotEndTime := format_HHmm (toZonedTime endTime (timezone config)) in
          if String.ltb timeOfDay (WorkingHours.start dayConfig)
             || String.ltb (WorkingHours.end_ dayConfig) slotEndTime
          then ret false else
          busyBlocks <- GoogleCalendar.getCompositeBusy env (userId config)
                          (addMinutes startTime (- bufferBefore config))
                          (addMinutes endTime (bufferAfter config)) ;;
          emit (BookingFindFirst (userId config)) ;;;
          existingBooking <- gets (fun w =>
            find (overlapsQuery (userId config) startTime endTime) (bookings w)) ;;
          match existingBooking with
          | Some _ => ret false
          | None =>
              let isBusy := isSlotBusy startTime endTime busyBlocks
                              (bufferBefore config) (bufferAfter config) in
              ret (negb isBusy)
          end
      end
  end.

End Availability.

(** ** [POST /api/bookings] of [src/app/api/bookings/route.ts] *)

Module BookingsRoute.
Import DateFns.

(** What [bookingSchema.safeParse] yields on success. *)
Record BookingInput : Type := mkInput {
  eventTypeId : string;
  startTime : string;
  timezone : string;
  attendeeName : string;
  attendeeEmail : string;
  attendeePhone : option string;
  attendeeCompany : option string;
  attendeeNotes : option string;
  customResponses : option (list (string * string));
  idempotencyKey : option string }.

Inductive RequestBody : Type :=
| Malformed                     (* [request.json()] throws *)
| Invalid                       (* [validation.success] is false *)
| Valid (data : BookingInput).

(** [ip] is the value of [getClientIP(request)]. *)
Record Request : Type := mkRequest { ip : string; body : RequestBody }.

Inductive ResponseBody : Type :=
| ErrorBody (error : string)
| SuccessBody (uid : string) (startTime endTime : Z) (meetingUrl : option string).

Record Response : Type := mkResponse { status : Z; json : ResponseBody }.

Definition Z_to_string (z : Z) : string := NilZero.string_of_int (Z.to_int z).

(** [providedIdempotencyKey || hashString(`${eventTypeId}:...:${Date.now()}`)] *)
Definition deriveIdempotencyKey (env : Env) (data : BookingInput) : string :=
  if truthy (idempotencyKey data)
  then match idempotencyKey data with Some k => k | None => EmptyString end
  else hashString env
         (eventTypeId data ++ ":" ++ startTime data ++ ":" ++ attendeeEmail data
          ++ ":" ++ Z_to_string (now env))%string.

Definition hasKey (key : string) (b : Booking.t) : bool :=
  match Booking.idempotencyKey b with
  | Some k => String.eqb k key
  | None => false
  end.

(** The row [prisma.booking.findUnique({ where: { idempotencyKey } })] finds. *)
Definition bookingByKey (key : string) (w : World) : option Booking.t :=
  find (hasKey key) (bookings w).

Definition bookingFindUniqueByKey (key : string) : M (option Booking.t) :=
  emit (BookingFindUniqueByKey key) ;;;
  gets (bookingByKey key).

Definition eventTypeById (eventTypeId : string) (w : World) : option EventType.t :=
  find (fun et => String.eqb (EventType.id et) eventTypeId) (eventTypes w).

Definition eventTypeFindUnique (eventTypeId : string) : M (option EventType.t) :=
  emit (EventTypeFindUnique eventTypeId) ;;;
  gets (eventTypeById eventTypeId).

(** [eventType.calendars]: the rows with [isDestination], each with its
    calendar and that calendar's connected account. *)
Definition destinationCalendars (eventTypeId : string) (w : World)
    : list (Calendar.t * ConnectedAccount.t) :=
  flat_map (fun assoc =>
    if String.eqb (EventTypeCalendar.eventTypeId assoc) eventTypeId
       && EventTypeCalendar.isDestination assoc
    then
      match find (fun c => String.eqb (Calendar.id c) (EventTypeCalendar.calendarId assoc))
                 (calendars w) with
      | None => []
      | Some calendar =>
          match find (fun a => String.eqb (ConnectedAccount.id a)
                                          (Calendar.connectedAccountId calendar))
                     (connectedAccounts w) with
          | None => []
          | Some account => [(calendar, account)]
          end
      end
    else []) (eventTypeCalendars w).

(** [tx.booking.create] inside [prisma.$transaction]: the row is stored
    unless a unique index rejects it, which Prisma reports as [P2002]. *)
Definition bookingCreate (env : Env) (data : Booking.t) : M (Settled Booking.t) :=
  emit (BookingCreate (Booking.uid data)) ;;;
  rows <- gets bookings ;;
  if uniqueViolation env rows data
  then ret (Rejected (JsError.mk (Some "P2002") "Unique constraint failed"))
  else (fun w => (tt, set_bookings w (rows ++ [data]))) ;;; ret (Fulfilled data).

Definition bookingUpdateGoogle (bookingId eventId calId : string) (url : option string) : M unit :=
  emit (BookingUpdate bookingId) ;;;
  fun w => (tt, set_bookings w
    (map (fun b => if String.eqb (Booking.id b) bookingId
                   then Booking.set_google b eventId calId url else b) (bookings w))).

(** The first inner [try]: create the calendar event and record it. It
    yields the [meetingUrl] variable as the response will see it. *)
Definition tryCalendarEvent (env : Env) (booking : Booking.t)
    (calendar : Calendar.t) (account : ConnectedAccount.t) : M (option string) :=
  calendarResult <- GoogleCalendar.createCalendarEvent env (ConnectedAccount.id account)
                      (Calendar.googleCalendarId calendar) ;;
  match calendarResult with
  | Rejected _ =>
      console_error "Error creating calendar event:" (Booking.uid booking) ;;;
      ret None
  | Fulfilled (googleEventId, meetingUrl) =>
      bookingUpdateGoogle (Booking.id booking) googleEventId
        (Calendar.googleCalendarId calendar) meetingUrl ;;;
      ret meetingUrl
  end.

(** The second inner [try]: both mails through [Promise.all]. *)
Definition trySendEmails (env : Env) (booking : Booking.t) : M unit :=
  emit SendEmails ;;;
  if sendEmails env then ret tt
  else console_error "Error sending emails:" (Booking.uid booking).

Definition slotTaken : Response :=
  mkResponse 409 (ErrorBody "This time slot is no longer available").

(** The [data] of [tx.booking.create]. *)
Definition newBooking (env : Env) (data : BookingInput) (eventType : EventType.t) : Booking.t :=
  let startTime' := Date_parse env (startTime data) in
  Booking.mk (cuid env) (uuidv4 env) (EventType.userId eventType)
    (eventTypeId data) startTime' (addMinutes startTime' (EventType.duration eventType))
    (timezone data) (attendeeName data) (attendeeEmail data) (attendeePhone data)
    (attendeeCompany data) (attendeeNotes data) (customResponses data)
    (Some (deriveIdempotencyKey env data))
    (if EventType.requiresConfirmation eventType then PENDING else CONFIRMED)
    None None None.

(** The handler from the computation of [endTime] on, i.e. once the event
    type has been found active. *)
Definition commit (env : Env) (data : BookingInput) (eventType : EventType.t) : M Response :=
  let startTime' := Date_parse env (startTime data) in
  let endTime' := addMinutes startTime' (EventType.duration eventType) in
  available <- Availability.isSlotAvailable env (eventTypeId data) startTime' endTime' ;;
  if negb available then ret slotTaken else
  destinations <- gets (destinationCalendars (eventTypeId data)) ;;
  match destinations with
  | [] => ret (mkResponse 500 (ErrorBody "No destination calendar configured"))
  | (destinationCalendar, connectedAccount) :: _ =>
      created <- bookingCreate env (newBooking env data eventType) ;;
      match created with
      | Rejected error =>
          console_error "Error creating booking:" (JsError.message error) ;;;
          match JsError.code error with
          | Some "P2002"%string => ret slotTaken
          | _ => ret (mkResponse 500 (ErrorBody "Failed to create booking"))
          end
      | Fulfilled booking =>
          meetingUrl <- tryCalendarEvent env booking destinationCalendar connectedAccount ;;
          trySendEmails env booking ;;;
          ret (mkResponse 201
                 (SuccessBody (Booking.uid booking) (Booking.startTime booking)
                    (Booking.endTime booking) meetingUrl))
      end
  end.

Definition POST (env : Env) (request : Request) : M Response :=
  rateLimitResult <- RateLimit.rateLimit env ("booking:" ++ ip request)%string
                       RateLimit.RATE_LIMITS_booking ;;
  if negb (RateLimit.success rateLimitResult)
  then ret (mkResponse 429 (ErrorBody "Too many requests. Please try again later."))
  else
  match body request with
  | Malformed =>
      console_error "Error creating booking:" "" ;;;
      ret (mkResponse 500 (ErrorBody "Failed to create booking"))
  | Invalid => ret (mkResponse 400 (ErrorBody "Invalid input"))
  | Valid data =>
      existingBooking <- bookingFindUniqueByKey (deriveIdempotencyKey env data) ;;
      match existingBooking with
      | Some existingBooking =>
          ret (mkResponse 200
                 (SuccessBody (Booking.uid existingBooking)
                    (Booking.startTime existingBooking) (Booking.endTime existingBooking)
                    (Booking.meetingUrl existingBooking)))
      | None =>
          eventType <- eventTypeFindUnique (eventTypeId data) ;;
          match eventType with
          | None => ret (mkResponse 404 (ErrorBody "Event type not found or not active"))
          | Some eventType =>
              if negb (EventType.isActive eventType)
              then ret (mkResponse 404 (ErrorBody "Event type not found or not active"))
              else commit env data eventType
          end
      end
  end.

End BookingsRoute.

(** ** [src/lib/validations.ts], as far as it constrains the scheduling
    fields of an event type *)

Module Validations.

Definition isDigit (c : ascii) : bool :=
  match Availability.digitValue c with
  | Some _ => true
  | None => false
  end.

(** [/^\d{2}:\d{2}$/] *)
Definition matchesHHmm (s : string) : bool :=
  match s with
  | String h1 (String h2 (String colon (String m1 (String m2 EmptyString)))) =>
      isDigit h1 && isDigit h2 && Ascii.eqb colon ":" && isDigit m1 && isDigit m2
  | _ => false
  end.

(** [z.number().min(lo).max(hi)], on the integers a row can hold. *)
Definition between (lo hi n : Z) : bool := (lo <=? n) && (n <=? hi).

(** One element of [workingHours] in [eventTypeSchema]. *)
Definition workingHoursSchema (wh : WorkingHours.t) : bool :=
  between 0 6 (WorkingHours.day wh)
  && matchesHHmm (WorkingHours.start wh) && matchesHHmm (WorkingHours.end_ wh).

(** [eventTypeSchema], restricted to the fields the slot computations
    read: an event type written through the schema satisfies it. *)
Definition eventTypeSchema (eventType : EventType.t) : bool :=
  between 5 480 (EventType.duration eventType)
  && between 0 120 (EventType.bufferBefore eventType)
  && between 0 120 (EventType.bufferAfter eventType)
  && between 0 10080 (EventType.minimumNotice eventType)
  && between 1 365 (EventType.schedulingWindow eventType)
  && between 5 60 (EventType.slotInterval eventType)
  && forallb workingHoursSchema (EventType.workingHours eventType).

End Validations.

(** ** [getClientIP] of [src/lib/rate-limit.ts]

    A header value is a string of code units below 256, one [ascii]
    each. *)

Module ClientIP.

(** [request.headers.get] of the two headers; [None] stands for [null]. *)
Record Headers : Type := mkHeaders {
  x_forwarded_for : option string; x_real_ip : option string }.

(** The white space and line terminators of ECMAScript below 256: TAB,
    LF, VT, FF, CR, SP and NBSP. *)
Definition isWhiteSpace (c : ascii) : bool :=
  let n := nat_of_ascii c in
  ((9 <=? n) && (n <=? 13) || (n =? 32) || (n =? 160))%nat.

Fixpoint trimStart (s : string) : string :=
  match s with
  | EmptyString => EmptyString
  | String c s' => if isWhiteSpace c then trimStart s' else s
  end.

(** [None]: the rest of the string is white space. *)
Fixpoint trimEndOpt (s : string) : option string :=
  match s with
  | EmptyString => None
  | String c s' =>
      match trimEndOpt s' with
      | Some t => Some (String c t)
      | None => if isWhiteSpace c then None else Some (String c EmptyString)
      end
  end.

Definition trimEnd (s : string) : string :=
  match trimEndOpt s with
  | Some t => t
  | None => EmptyString
  end.

(** [String.prototype.trim] *)
Definition trim (s : string) : string := trimEnd (trimStart s).

Definition getClientIP (headers : Headers) : string :=
  let fromRealIP :=
    match x_real_ip headers with
    | Some realIP => if truthy (Some realIP) then realIP else "unknown"%string
    | None => "unknown"%string
    end in
  match x_forwarded_for headers with
  | Some forwarded =>
      if truthy (Some forwarded)
      then trim (hd EmptyString (Availability.splitOn "," forwarded))
      else fromRealIP
  | None => fromRealIP
  end.

End ClientIP.

(** ** What the remaining handlers obtain from outside, next to [Env] *)

Record Outside : Type := mkOutside {
  (** [session?.user?.id] of [await getSession()] *)
  sessionUserId : option string;
  (** [String.prototype.toLowerCase] *)
  toLowerCase : string -> string;
  (** [new Date(s).getTime()] of a string that was not validated; [None]
      stands for [NaN] *)
  parseDate : string -> option Z;
  (** the offset of a named time zone, minutes east of UTC; [None] when
      date-fns-tz does not know the name *)
  zoneOffset : string -> option Z;
  (** whether [calendar.events.delete] and [calendar.events.patch] fulfil,
      by account, calendar and event *)
  eventsDelete : string -> string -> string -> bool;
  eventsPatch : string -> string -> string -> bool;
  (** whether [sendCancellationEmail] fulfils *)
  sendCancellationEmail : bool }.

(** ** [updateCalendarEvent] and [deleteCalendarEvent] of
    [src/lib/google-calendar.ts]

    [Effect] has no constructor for [events.patch] and [events.delete];
    these two calls leave the trace as it is. *)

Module GoogleEvents.
Import GoogleCalendar.

Definition updateCalendarEvent (env : Env) (out : Outside)
    (connectedAccountId calendarId eventId : string) : M (Settled unit) :=
  client <- getAuthenticatedClient env connectedAccountId ;;
  match client with
  | Rejected e => ret (Rejected e)
  | Fulfilled _ =>
      if eventsPatch out connectedAccountId calendarId eventId
      then ret (Fulfilled tt)
      else ret (Rejected (JsError.mk None "events.patch failed"))
  end.

Definition deleteCalendarEvent (env : Env) (out : Outside)
    (connectedAccountId calendarId eventId : string) : M (Settled unit) :=
  client <- getAuthenticatedClient env connectedAccountId ;;
  match client with
  | Rejected e => ret (Rejected e)
  | Fulfilled _ =>
      if eventsDelete out connectedAccountId calendarId eventId
      then ret (Fulfilled tt)
      else ret (Rejected (JsError.mk None "events.delete failed"))
  end.

End GoogleEvents.

(** ** [DELETE] and [PATCH /api/bookings/[uid]] of
    [src/app/api/bookings/[uid]/route.ts]

    The columns [cancelledAt], [cancelReason] and [rescheduledFrom], which
    these handlers write and no query of the sources reads, are not
    columns of [Booking.t]. Reads by [uid] and [calendar.findFirst] have
    no constructor in [Effect] and leave the trace as it is. *)

Module BookingUidRoute.
Import DateFns.

(** [body.email] as lines 95 and 207 meet it. *)
Inductive EmailField : Type :=
| EmailMissing                    (* [undefined] or [null]: [?.] stops *)
| EmailString (email : string)
| EmailOther.                     (* the body is [null], or the value has no
                                     [toLowerCase]: the line throws *)

Inductive RescheduleBody : Type :=
| Malformed                       (* [request.json()] throws *)
| Invalid                         (* [validation.success] is false *)
| Valid (newStartTime timezone : string) (email : EmailField).

Inductive ResponseBody : Type :=
| ErrorBody (error : string)
| Success
| Rescheduled (uid : string) (startTime endTime : Z).

Record Response : Type := mkResponse { status : Z; json : ResponseBody }.

Definition set_status (b : Booking.t) (st : BookingStatus) : Booking.t :=
  Booking.mk (Booking.id b) (Booking.uid b) (Booking.userId b) (Booking.eventTypeId b)
    (Booking.startTime b) (Booking.endTime b) (Booking.timezone b)
    (Booking.attendeeName b) (Booking.attendeeEmail b) (Booking.attendeePhone b)
    (Booking.attendeeCompany b) (Booking.attendeeNotes b) (Booking.customResponses b)
    (Booking.idempotencyKey b) st
    (Booking.googleEventId b) (Booking.googleCalendarId b) (Booking.meetingUrl b).

Definition set_times (b : Booking.t) (startTime endTime : Z) (timezone : string) : Booking.t :=
  Booking.mk (Booking.id b) (Booking.uid b) (Booking.userId b) (Booking.eventTypeId b)
    startTime endTime timezone
    (Booking.attendeeName b) (Booking.attendeeEmail b) (Booking.attendeePhone b)
    (Booking.attendeeCompany b) (Booking.attendeeNotes b) (Booking.customResponses b)
    (Booking.idempotencyKey b) (Booking.status b)
    (Booking.googleEventId b) (Booking.googleCalendarId b) (Booking.meetingUrl b).

(** The row [prisma.booking.findUnique({ where: { uid } })] finds. *)
Definition bookingByUid (uid : string) (w : World) : option Booking.t :=
  find (fun b => String.eqb (Booking.uid b) uid) (bookings w).

(** The [include] of the two [findUnique] calls: the event type and the
    host of the row. The foreign keys of the schema make both exist; on a
    store without them Prisma reports an inconsistent result, which the
    handlers answer like any other exception. *)
Definition included (booking : Booking.t) (w : World) : option (EventType.t * User.t) :=
  match BookingsRoute.eventTypeById (Booking.eventTypeId booking) w,
        find (fun u => String.eqb (User.id u) (Booking.userId booking)) (users w) with
  | Some eventType, Some user => Some (eventType, user)
  | _, _ => None
  end.

(** [session?.user?.id === booking.userId] *)
Definition isAdmin (out : Outside) (booking : Booking.t) : bool :=
  match sessionUserId out with
  | Some id => String.eqb id (Booking.userId booking)
  | None => false
  end.

(** [body.email?.toLowerCase() === booking.attendeeEmail.toLowerCase()];
    [None] when the left side throws. *)
Definition isBooker (out : Outside) (booking : Booking.t) (email : EmailField) : option bool :=
  match email with
  | EmailMissing => Some false
  | EmailString email =>
      Some (String.eqb (toLowerCase out email)
                       (toLowerCase out (Booking.attendeeEmail booking)))
  | EmailOther => None
  end.

(** [prisma.booking.update({ where: { uid }, data })]: the rows with this
    [uid] are rewritten by [f], unless a unique index rejects the new
    row. *)
Definition bookingUpdateByUid (env : Env) (booking : Booking.t) (f : Booking.t -> Booking.t)
    : M (Settled unit) :=
  emit (BookingUpdate (Booking.id booking)) ;;;
  rows <- gets bookings ;;
  let others :=
    List.filter (fun r => negb (String.eqb (Booking.uid r) (Booking.uid booking))) rows in
  if uniqueViolation env others (f booking)
  then ret (Rejected (JsError.mk (Some "P2002") "Unique constraint failed"))
  else
    (fun w => (tt, set_bookings w
       (map (fun r => if String.eqb (Booking.uid r) (Booking.uid booking) then f r else r)
            rows))) ;;;
    ret (Fulfilled tt).

(** [prisma.calendar.findFirst({ where: { userId, googleCalendarId } })] *)
Definition calendarFindFirst (userId googleCalendarId : string) (w : World) : option Calendar.t :=
  find (fun c => String.eqb (Calendar.userId c) userId
                 && String.eqb (Calendar.googleCalendarId c) googleCalendarId)
       (calendars w).

(** The [try] around the calendar call: [call] is [deleteCalendarEvent] or
    [updateCalendarEvent]. *)
Definition tryCalendar (message : string) (booking : Booking.t)
    (call : string -> string -> string -> M (Settled unit)) : M unit :=
  match Booking.googleEventId booking, Booking.googleCalendarId booking with
  | Some googleEventId, Some googleCalendarId =>
      if truthy (Some googleEventId) && truthy (Some googleCalendarId) then
        calendar <- gets (calendarFindFirst (Booking.userId booking) googleCalendarId) ;;
        match calendar with
        | None => ret tt
        | Some calendar =>
            r <- call (Calendar.connectedAccountId calendar) googleCalendarId googleEventId ;;
            match r with
            | Fulfilled _ => ret tt
            | Rejected _ => console_error message (Booking.uid booking)
            end
        end
      else ret tt
  | _, _ => ret tt
  end.

Definition trySendCancellation (out : Outside) (booking : Booking.t) : M unit :=
  if sendCancellationEmail out then ret tt
  else console_error "Error sending cancellation email:" (Booking.uid booking).

Definition DELETE (env : Env) (out : Outside) (uid : string) (email : EmailField)
    : M Response :=
  let failed :=
    console_error "Error cancelling booking:" uid ;;;
    ret (mkResponse 500 (ErrorBody "Failed to cancel booking")) in
  booking <- gets (bookingByUid uid) ;;
  match booking with
  | None => ret (mkResponse 404 (ErrorBody "Booking not found"))
  | Some booking =>
      relations <- gets (included booking) ;;
      match relations with
      | None => failed
      | Some _ =>
          if BookingStatus_eqb (Booking.status booking) CANCELLED
          then ret (mkResponse 400 (ErrorBody "Booking is already cancelled"))
          else
            match isBooker out booking email with
            | None => failed
            | Some isBooker =>
                if negb (isAdmin out booking) && negb isBooker
                then ret (mkResponse 401 (ErrorBody "Unauthorized"))
                else
                  updated <- bookingUpdateByUid env booking
                               (fun r => set_status r CANCELLED) ;;
                  match updated with
                  | Rejected _ => failed
                  | Fulfilled _ =>
                      tryCalendar "Error deleting calendar event:" booking
                        (GoogleEvents.deleteCalendarEvent env out) ;;;
                      trySendCancellation out booking ;;;
                      ret (mkResponse 200 Success)
                  end
            end
      end
  end.

Definition PATCH (env : Env) (out : Outside) (uid : string) (body : RescheduleBody)
    : M Response :=
  let failed :=
    console_error "Error rescheduling booking:" uid ;;;
    ret (mkResponse 500 (ErrorBody "Failed to reschedule booking")) in
  match body with
  | Malformed => failed
  | Invalid => ret (mkResponse 400 (ErrorBody "Invalid input"))
  | Valid newStartTimeStr timezone email =>
      let newStartTime := Date_parse env newStartTimeStr in
      booking <- gets (bookingByUid uid) ;;
      match booking with
      | None => ret (mkResponse 404 (ErrorBody "Booking not found"))
      | Some booking =>
          relations <- gets (included booking) ;;
          match relations with
          | None => failed
          | Some (eventType, _) =>
              if negb (BookingStatus_eqb (Booking.status booking) CONFIRMED)
                 && negb (BookingStatus_eqb (Booking.status booking) PENDING)
              then ret (mkResponse 400
                          (ErrorBody "Cannot reschedule a cancelled or completed booking"))
              else
                match isBooker out booking email with
                | None => failed
                | Some isBooker =>
                    if negb (isAdmin out booking) && negb isBooker
                    then ret (mkResponse 401 (ErrorBody "Unauthorized"))
                    else
                      let newEndTime :=
                        addMinutes newStartTime (EventType.duration eventType) in
                      available <- Availability.isSlotAvailable env
                                     (Booking.eventTypeId booking) newStartTime newEndTime ;;
                      if negb available
                      then ret (mkResponse 409
                                  (ErrorBody "The selected time slot is not available"))
                      else
                        updated <- bookingUpdateByUid env booking
                                     (fun r => set_times r newStartTime newEndTime timezone) ;;
                        match updated with
                        | Rejected _ => failed
                        | Fulfilled _ =>
                            tryCalendar "Error updating calendar event:" booking
                              (GoogleEvents.updateCalendarEvent env out) ;;;
                            ret (mkResponse 200
                                   (Rescheduled (Booking.uid booking) newStartTime newEndTime))
                        end
                end
          end
      end
  end.

End BookingUidRoute.

(** ** [GET /api/bookings] of [src/app/api/bookings/route.ts] *)

Module BookingsList.

(** The three search parameters, as [searchParams.get] returns them. *)
Record Query : Type := mkQuery {
  status : option string; startDate : option string; endDate : option string }.

Inductive Response : Type :=
| Unauthorized                          (* 401 *)
| Failed                                (* 500 *)
| Listed (bookings : list Booking.t).   (* 200 *)

(** The names of the [BookingStatus] enum; Prisma rejects any other
    string in a [where]. *)
Definition statusOfString (s : string) : option BookingStatus :=
  if String.eqb s "PENDING" then Some PENDING
  else if String.eqb s "CONFIRMED" then Some CONFIRMED
  else if String.eqb s "CANCELLED" then Some CANCELLED
  else if String.eqb s "COMPLETED" then Some COMPLETED
  else None.

(** [orderBy: { startTime: 'asc' }]; among rows with the same start the
    database is free, and the model keeps the order of the table. *)
Fixpoint insertByStartTime (x : Booking.t) (l : list Booking.t) : list Booking.t :=
  match l with
  | [] => [x]
  | y :: t =>
      if Booking.startTime y <=? Booking.startTime x
      then y :: insertByStartTime x t
      else x :: y :: t
  end.

Definition orderByStartTime (rows : list Booking.t) : list Booking.t :=
  foldr insertByStartTime [] rows.

(** The [where] object, as a test on a row; [None] when Prisma rejects
    it (a status outside the enum, an invalid date). *)
Definition whereOf (out : Outside) (userId : string) (query : Query)
    : option (Booking.t -> bool) :=
  let byStatus : option (Booking.t -> bool) :=
    if truthy (status query) then
      match status query with
      | Some s =>
          match statusOfString s with
          | Some st => Some (fun b => BookingStatus_eqb (Booking.status b) st)
          | None => None
          end
      | None => Some (fun _ => true)
      end
    else Some (fun _ => true) in
  let byRange : option (Booking.t -> bool) :=
    if truthy (startDate query) && truthy (endDate query) then
      match startDate query, endDate query with
      | Some s, Some e =>
          match parseDate out s, parseDate out e with
          | Some gte, Some lte =>
              Some (fun b => (gte <=? Booking.startTime b) && (Booking.startTime b <=? lte))
          | _, _ => None
          end
      | _, _ => Some (fun _ => true)
      end
    else Some (fun _ => true) in
  match byStatus, byRange with
  | Some byStatus, Some byRange =>
      Some (fun b => String.eqb (Booking.userId b) userId && byStatus b && byRange b)
  | _, _ => None
  end.

Definition GET (out : Outside) (query : Query) : M Response :=
  if truthy (sessionUserId out) then
    match sessionUserId out with
    | Some userId =>
        emit (BookingFindMany userId) ;;;
        match whereOf out userId query with
        | None =>
            console_error "Error fetching bookings:" userId ;;;
            ret Failed
        | Some test =>
            rows <- gets bookings ;;
            ret (Listed (orderByStartTime (List.filter test rows)))
        end
    | None => ret Unauthorized
    end
  else ret Unauthorized.

End BookingsList.

(** ** [getSlotsGroupedByDate] of [src/lib/availability.ts] *)

Module SlotsByDate.
Import DateFns.

(** [getFullYear], [getMonth] + 1 and [getDate] of a date, from its day
    number since the epoch (proleptic Gregorian calendar). *)
Definition civil (date : Z) : Z * Z * Z :=
  let z := date / millisecondsInDay + 719468 in
  let era := z / 146097 in
  let doe := z - era * 146097 in
  let yoe := (doe - doe / 1460 + doe / 36524 - doe / 146096) / 365 in
  let doy := doe - (365 * yoe + yoe / 4 - yoe / 100) in
  let mp := (5 * doy + 2) / 153 in
  let d := doy - (153 * mp + 2) / 5 + 1 in
  let m := if mp <? 10 then mp + 3 else mp - 9 in
  let y := yoe + era * 400 + (if m <=? 2 then 1 else 0) in
  (y, m, d).

(** [addLeadingZeros(number, targetLength)] on a number that is not
    negative. *)
Definition addLeadingZeros (number : Z) (targetLength : nat) : string :=
  let output := BookingsRoute.Z_to_string number in
  (String.concat "" (repeat "0"%string (targetLength - String.length output)) ++ output)%string.

(** [format(date, 'yyyy-MM-dd')]: the year of the era, so year 0 and the
    years before it are written as 1, 2, ... *)
Definition format_yyyyMMdd (date : Z) : string :=
  let '(signedYear, month, day) := civil date in
  let year := if signedYear >? 0 then signedYear else 1 - signedYear in
  (addLeadingZeros year 4 ++ "-" ++ addLeadingZeros month 2 ++ "-"
   ++ addLeadingZeros day 2)%string.

(** [grouped[dateKey].push(slot)], creating the array when the key is
    new; the object keeps its keys in insertion order. *)
Fixpoint pushSlot (dateKey : string) (slot : TimeSlot.t) (grouped : list (string * list TimeSlot.t))
    : list (string * list TimeSlot.t) :=
  match grouped with
  | [] => [(dateKey, [slot])]
  | (k, slots) :: grouped' =>
      if String.eqb k dateKey then (k, slots ++ [slot]) :: grouped'
      else (k, slots) :: pushSlot dateKey slot grouped'
  end.

(** The loop over the slots, for the key function of the zone. *)
Definition groupSlots (dateKey : TimeSlot.t -> string) (slots : list TimeSlot.t)
    : list (string * list TimeSlot.t) :=
  fold_left (fun grouped slot => pushSlot (dateKey slot) slot grouped) slots [].

(** [getSlotsGroupedByDate]. With a zone name that date-fns-tz does not
    know, [toZonedTime] yields an invalid date and [format] throws on the
    first slot. *)
Definition getSlotsGroupedByDate (env : Env) (out : Outside)
    (eventTypeId : string) (startDate endDate : Z) (timezone : string)
    : M (Outcome (list (string * list TimeSlot.t))) :=
  slots <- Availability.generateAvailableSlots env
             (Availability.mkOptions eventTypeId startDate endDate timezone) ;;
  match slots with
  | Throws e => ret (Throws e)
  | Diverges => ret Diverges
  | Returns slots =>
      match slots, zoneOffset out timezone with
      | [], _ => ret (Returns [])
      | _ :: _, None => ret (Throws (JsError.mk None "Invalid time value"))
      | _ :: _, Some tz =>
          ret (Returns (groupSlots
                 (fun slot => format_yyyyMMdd (toZonedTime (TimeSlot.start slot) tz)) slots))
      end
  end.

End SlotsByDate.

(** ** [GET /api/availability] *)

Module AvailabilityRoute.

(** What [availabilitySchema.safeParse] makes of the four search
    parameters. *)
Inductive Query : Type :=
| Invalid
| Valid (eventTypeId startDate endDate timezone : string).

Record Request : Type := mkRequest { ip : string; query : Query }.

Inductive ResponseBody : Type :=
| ErrorBody (error : string)
| Slots (slots : list (string * list TimeSlot.t)) (timezone : string).

Record Response : Type := mkResponse { status : Z; json : ResponseBody }.

(** [Diverges]: the request is never answered. *)
Definition GET (env : Env) (out : Outside) (request : Request) : M (Outcome Response) :=
  rateLimitResult <- RateLimit.rateLimit env ("availability:" ++ ip request)%string
                       RateLimit.RATE_LIMITS_availability ;;
  if negb (RateLimit.success rateLimitResult)
  then ret (Returns (mkResponse 429 (ErrorBody "Too many requests. Please try again later.")))
  else
  match query request with
  | Invalid => ret (Returns (mkResponse 400 (ErrorBody "Invalid parameters")))
  | Valid eventTypeId startDate endDate timezone =>
      eventType <- BookingsRoute.eventTypeFindUnique eventTypeId ;;
      let notFound :=
        ret (Returns (mkResponse 404 (ErrorBody "Event type not found or not active"))) in
      match eventType with
      | None => notFound
      | Some eventType =>
          if negb (EventType.isActive eventType) then notFound
          else
            slotsByDate <- SlotsByDate.getSlotsGroupedByDate env out eventTypeId
                             (Date_parse env startDate) (Date_parse env endDate) timezone ;;
            match slotsByDate with
            | Returns slotsByDate => ret (Returns (mkResponse 200 (Slots slotsByDate timezone)))
            | Throws e =>
                console_error "Error fetching availability:" (JsError.message e) ;;;
                ret (Returns (mkResponse 500 (ErrorBody "Failed to fetch availability")))
            | Diverges => ret Diverges
            end
      end
  end.

End AvailabilityRoute.

(* ================================================================== *)
(** * Part II: vocabulary of the specification *)
(* ================================================================== *)

Module IntervalSpec.
Import DateFns Availability.

(** A point of the half-open interval of a block. *)
Definition inBlock (t : Z) (b : BusyBlock.t) : Prop :=
  BusyBlock.start b <= t < BusyBlock.end_ b.

(** The invariant of a busy block: it is not empty. *)
Definition wfBlock (b : BusyBlock.t) : Prop := BusyBlock.start b < BusyBlock.end_ b.

(** Block [m] spans block [x]. *)
Definition spans (m x : BusyBlock.t) : Prop :=
  BusyBlock.start m <= BusyBlock.start x /\ BusyBlock.end_ x <= BusyBlock.end_ m.

Definition startLe (a b : BusyBlock.t) : Prop := BusyBlock.start a <= BusyBlock.start b.

Definition startLt (a b : BusyBlock.t) : Prop := BusyBlock.start a < BusyBlock.start b.

(** [a] ends strictly before [b] starts. *)
Definition apart (a b : BusyBlock.t) : Prop := BusyBlock.end_ a < BusyBlock.start b.

(** The slot [[slotStart, slotEnd)], widened by the buffers (in minutes),
    has a point in common with the half-open interval of block [B]. *)
Definition conflicts (slotStart slotEnd bufferBefore bufferAfter : Z) (B : BusyBlock.t) : Prop :=
  exists t, slotStart - bufferBefore * 60000 <= t < slotEnd + bufferAfter * 60000
            /\ inBlock t B.

(** What [mergeStep] does to the open block when [current] touches it. *)
Definition extend (lst current : BusyBlock.t) : BusyBlock.t :=
  if BusyBlock.end_ current >? BusyBlock.end_ lst
  then BusyBlock.set_end lst (BusyBlock.end_ current)
  else lst.

(** The loop of [mergeBusyBlocks] with its accumulator split into the
    finished prefix and the block still open; used only to reason about
    [mergeStep]. *)
Fixpoint coalesce (lst : BusyBlock.t) (rest : list BusyBlock.t) : list BusyBlock.t :=
  match rest with
  | [] => [lst]
  | current :: rest' =>
      if BusyBlock.start current <=? BusyBlock.end_ lst
      then coalesce (extend lst current) rest'
      else lst :: coalesce current rest'
  end.

End IntervalSpec.

Module AvailabilitySpec.
Import Availability.

(** Both times of a working-hours row parse to numbers. *)
Definition parses (wh : WorkingHours.t) : Prop :=
  parseTimeString (WorkingHours.start wh) <> None
  /\ parseTimeString (WorkingHours.end_ wh) <> None.

End AvailabilitySpec.

Module EffectSpec.

(** Between [w] and [w'] nothing but the connected accounts and the trace
    has changed. *)
Definition onlyAccountsChange (w w' : World) : Prop :=
  users w' = users w /\ calendars w' = calendars w /\ eventTypes w' = eventTypes w
  /\ eventTypeCalendars w' = eventTypeCalendars w /\ bookings w' = bookings w
  /\ rateLimitStore w' = rateLimitStore w.

(** A computation that leaves every table but the connected accounts as
    it found it. *)
Definition frames {A : Type} (m : M A) : Prop :=
  forall w, onlyAccountsChange w (snd (m w)).


End EffectSpec.

Module BusySpec.
Import GoogleCalendar.

(** The row [prisma.connectedAccount.findUnique] finds. *)
Definition accountRow (accountId : string) (w : World) : option ConnectedAccount.t :=
  find (fun a => String.eqb (ConnectedAccount.id a) accountId) (connectedAccounts w).








(** Between [w] and [w'] only rows of account [accountId] were rewritten,
    keeping their id and never turning an invalid row valid. *)
Definition touchesOnly (accountId : string) (w w' : World) : Prop :=
  exists f : ConnectedAccount.t -> ConnectedAccount.t,
    (forall x, ConnectedAccount.id (f x) = ConnectedAccount.id x)
    /\ (forall x, ConnectedAccount.isValid (f x) = true -> ConnectedAccount.isValid x = true)
    /\ connectedAccounts w' =
         map (fun x => if String.eqb (ConnectedAccount.id x) accountId then f x else x)
             (connectedAccounts w).



End BusySpec.

Module BookingSpec.
Import BookingsRoute.

(** The idempotent answer: the stored booking, as a success. *)
Definition prior (b : Booking.t) : Response :=
  mkResponse 200 (SuccessBody (Booking.uid b) (Booking.startTime b) (Booking.endTime b)
                    (Booking.meetingUrl b)).

Definition rateLimitKey (request : Request) : string := ("booking:" ++ ip request)%string.

(** The rate limiter lets the request through. *)
Definition allowed (env : Env) (request : Request) (w : World) : Prop :=
  RateLimit.success
    (fst (RateLimit.rateLimit env (rateLimitKey request) RateLimit.RATE_LIMITS_booking w))
  = true.

(** The store when the handler reaches [commit]: after the rate limiter,
    the idempotency lookup and the event-type lookup. *)
Definition commitWorld (env : Env) (request : Request) (data : BookingInput) (w : World) : World :=
  snd (eventTypeFindUnique (eventTypeId data)
    (snd (bookingFindUniqueByKey (deriveIdempotencyKey env data)
      (snd (RateLimit.rateLimit env (rateLimitKey request)
              RateLimit.RATE_LIMITS_booking w))))).

(** The pre-commit check as [commit] runs it on store [w]. *)
Definition preCommitCheck (env : Env) (data : BookingInput) (eventType : EventType.t)
    (w : World) : bool * World :=
  Availability.isSlotAvailable env (eventTypeId data)
    (Date_parse env (startTime data))
    (DateFns.addMinutes (Date_parse env (startTime data)) (EventType.duration eventType)) w.

(** [commit] gets as far as the insert. *)
Definition insertAttempted (env : Env) (data : BookingInput) (eventType : EventType.t)
    (w : World) : Prop :=
  fst (preCommitCheck env data eventType w) = true
  /\ destinationCalendars (eventTypeId data) (snd (preCommitCheck env data eventType w)) <> [].

(** No two stored bookings carry the same idempotency key. *)
Definition uniqueKeys (rows : list Booking.t) : Prop :=
  forall b1 b2 k, In b1 rows -> In b2 rows ->
    Booking.idempotencyKey b1 = Some k -> Booking.idempotencyKey b2 = Some k -> b1 = b2.

(** No stored idempotency key is the empty string: the handler stores the
    supplied key only when it is truthy, and a hash otherwise. *)
Definition storedKeysTruthy (rows : list Booking.t) : Prop :=
  forall b, In b rows -> Booking.idempotencyKey b <> Some EmptyString.

(** The same request sent once per element of [envs], each time under
    that clock and outside world. *)
Fixpoint replay (envs : list Env) (request : Request) : M (list Response) :=
  match envs with
  | [] => ret []
  | env :: envs' =>
      r <- POST env request ;; rs <- replay envs' request ;; ret (r :: rs)
  end.

(** A stored row is the row [b] up to what the calendar update writes. *)
Definition sameBooking (b stored : Booking.t) : Prop :=
  Booking.id stored = Booking.id b /\ Booking.uid stored = Booking.uid b
  /\ Booking.startTime stored = Booking.startTime b
  /\ Booking.endTime stored = Booking.endTime b
  /\ Booking.status stored = Booking.status b
  /\ Booking.idempotencyKey stored = Booking.idempotencyKey b.

(** Every row of [w] is still stored in [w']. *)
Definition keepsRows (w w' : World) : Prop :=
  forall old, In old (bookings w) ->
    exists stored, In stored (bookings w') /\ sameBooking old stored.

End BookingSpec.

(** ** A host, one event type, one booking: the inputs of the examples *)

Module Scenario.

(** 2024-01-15T00:00:00Z, a Monday. *)
Definition monday : Z := 1705276800000.

Definition at_ (hours minutes : Z) : Z := monday + hours * 3600000 + minutes * 60000.

Definition host : User.t := User.mk "host1" (Some "Host"%string) "host@example.com" 0.

(** Thirty-minute meetings every fifteen minutes, Mondays 09:00-17:00. *)
Definition eventType (minimumNotice : Z) (isActive requiresConfirmation : bool) : EventType.t :=
  EventType.mk "evt1" "host1" "Intro call" 30 0 0 minimumNotice 30 15
    [WorkingHours.mk 1 "09:00" "17:00"] true true isActive requiresConfirmation
    GOOGLE_MEET None.

Definition account (isValid : bool) : ConnectedAccount.t :=
  ConnectedAccount.mk "acct1" "host1" (at_ 23 0) isValid.

Definition calendar : Calendar.t := Calendar.mk "cal1" "host1" "acct1" "primary" true.

Definition destination : EventTypeCalendar.t := EventTypeCalendar.mk "evt1" "cal1" true.

(** A booking of the host from 10:00 to 10:30. *)
Definition booking (status : BookingStatus) : Booking.t :=
  Booking.mk "b1" "uid-1" "host1" "evt1" (at_ 10 0) (at_ 10 30) "UTC"
    "Ann" "ann@example.com" None None None None (Some "key-1"%string) status
    None None None.

Definition world (et : EventType.t) (b : Booking.t) : World :=
  mkWorld [host] [account true] [calendar] [et] [destination] [b] ∅ [].

(** Modelled from the spec: the unique indexes of [prisma/schema.prisma],
    which is not among the sources. Section 3 of the specification: no two
    rows with the same host, start and end unless one is cancelled, and no
    two rows with the same idempotency key. *)
Definition uniqueIndexes (rows : list Booking.t) (b : Booking.t) : bool :=
  existsb (fun r =>
    (String.eqb (Booking.userId r) (Booking.userId b)
     && (Booking.startTime r =? Booking.startTime b)
     && (Booking.endTime r =? Booking.endTime b)
     && negb (BookingStatus_eqb (Booking.status r) CANCELLED)
     && negb (BookingStatus_eqb (Booking.status b) CANCELLED))
    || match Booking.idempotencyKey r, Booking.idempotencyKey b with
       | Some k, Some k' => String.eqb k k'
       | _, _ => false
       end) rows.

(** The outside world at clock [now], for a request that asks for the
    start [startTime]: Google answers every call, no calendar is busy. *)
Definition env (now startTime : Z) : Env :=
  mkEnv now "uid-2" "b2" (fun _ => startTime) (fun s => ("h:" ++ s)%string) uniqueIndexes
    (fun _ => Refreshed (Some "token"%string) None)
    (fun _ _ _ _ => Some [])
    (fun _ _ => Some ("gev1"%string, Some "https://meet.example/abc"%string))
    true.

(** The same, but [events.insert] fails and the mails are not sent. *)
Definition envOutage (now startTime : Z) : Env :=
  mkEnv now "uid-2" "b2" (fun _ => startTime) (fun s => ("h:" ++ s)%string) uniqueIndexes
    (fun _ => Refreshed (Some "token"%string) None)
    (fun _ _ _ _ => Some [])
    (fun _ _ => None)
    false.



(** A request for the slot 10:15-10:45. *)
Definition input (idempotencyKey : option string) : BookingsRoute.BookingInput :=
  BookingsRoute.mkInput "evt1" "2024-01-15T10:15:00.000Z" "UTC" "Bob" "bob@example.com"
    None None None None idempotencyKey.

Definition request (idempotencyKey : option string) : BookingsRoute.Request :=
  BookingsRoute.mkRequest "203.0.113.7" (BookingsRoute.Valid (input idempotencyKey)).

(** The whole of that Monday. *)
Definition mondayRange : Availability.GenerateSlotsOptions :=
  Availability.mkOptions "evt1" monday (monday + 86399999) "UTC".

End Scenario.

Module RateLimitSpec.
Import RateLimit.

(** The same key checked once per element of [envs], each time at that
    clock. *)
Fixpoint rateLimitEach (envs : list Env) (key : string) (options : Options)
    : M (list Result) :=
  match envs with
  | [] => ret []
  | env :: envs' =>
      r <- rateLimit env key options ;;
      rs <- rateLimitEach envs' key options ;;
      ret (r :: rs)
  end.

(** A call at the clock of [env] opens a new window for [key]: the key
    has no entry, or its window is over. *)
Definition opensWindow (env : Env) (key : string) (w : World) : Prop :=
  match rateLimitStore w !! key with
  | None => True
  | Some entry => RateLimitEntry.resetAt entry <= now env
  end.

(** The answer to the [n]-th call of a window that ends at [resetAt], for
    [n] from 2 on. *)
Definition answerAt (options : Options) (resetAt n : Z) : Result :=
  if n <=? max options
  then mkResult true (max options - n) resetAt
  else mkResult false 0 resetAt.

(** One request after the other, each under its own clock and outside
    world. *)
Fixpoint serve (calls : list (Env * BookingsRoute.Request)) : M (list BookingsRoute.Response) :=
  match calls with
  | [] => ret []
  | (env, request) :: calls' =>
      r <- BookingsRoute.POST env request ;;
      rs <- serve calls' ;;
      ret (r :: rs)
  end.

End RateLimitSpec.

Module FrameSpec.

(** Between [w] and [w'] the users, calendars, event types, their calendar
    links and the rate-limit counters are the same; bookings, connected
    accounts and the trace may differ. *)
Definition sameCatalogue (w w' : World) : Prop :=
  users w' = users w /\ calendars w' = calendars w /\ eventTypes w' = eventTypes w
  /\ eventTypeCalendars w' = eventTypeCalendars w
  /\ rateLimitStore w' = rateLimitStore w.

(** A computation that writes to no table but bookings and connected
    accounts. *)
Definition steady {A : Type} (m : M A) : Prop :=
  forall w, sameCatalogue w (snd (m w)).

(** Every effect the computation adds to the trace passes the test [p]. *)
Definition emitsOnly {A : Type} (p : Effect -> bool) (m : M A) : Prop :=
  forall w, exists t, trace (snd (m w)) = trace w ++ t /\ forallb p t = true.

(** The same, for the runs whose result satisfies [P]. *)
Definition emitsWhen {A : Type} (P : A -> Prop) (p : Effect -> bool) (m : M A) : Prop :=
  forall w, P (fst (m w)) ->
    exists t, trace (snd (m w)) = trace w ++ t /\ forallb p t = true.

(** What a computation adds to the trace of [w]. *)
Definition emitted {A : Type} (m : M A) (w : World) : list Effect :=
  drop (length (trace w)) (trace (snd (m w))).

(** Effects that reach a person or a calendar, or rewrite a stored
    booking. *)
Definition outward (e : Effect) : bool :=
  match e with
  | SendEmails | GoogleEventsInsert _ | BookingUpdate _ => true
  | _ => false
  end.

Definition inward (e : Effect) : bool := negb (outward e).

(** Effects that write to the bookings table, send mail or write to a
    calendar. *)
Definition mutating (e : Effect) : bool :=
  match e with
  | BookingCreate _ | BookingUpdate _ | SendEmails | GoogleEventsInsert _ => true
  | _ => false
  end.

Definition observing (e : Effect) : bool := negb (mutating e).

End FrameSpec.

Module ClockSpec.
Import Availability.

(** The string [s] is a clock time [h]:[m] of a day, written as the
    schema of the event types requires. *)
Definition clockTime (s : string) (h m : Z) : Prop :=
  Validations.matchesHHmm s = true /\ parseTimeString s = Some (h, m) /\ h < 24 /\ m < 60.

(** Minutes since local midnight. *)
Definition minuteOfDay (date : Z) : Z := DateFns.getHours date * 60 + DateFns.getMinutes date.

End ClockSpec.

Module GroupingSpec.

(** The calendar ids filed under [accountId] in the map [m]. *)
Definition idsOf (accountId : string) (m : list (string * list string)) : list string :=
  match find (fun entry => String.eqb (fst entry) accountId) m with
  | Some entry => snd entry
  | None => []
  end.

(** The Google ids of the calendars of [cals] that belong to [accountId],
    in the order of [cals]. *)
Definition calendarsOf (accountId : string) (cals : list Calendar.t) : list string :=
  map Calendar.googleCalendarId
    (List.filter (fun cal => String.eqb (Calendar.connectedAccountId cal) accountId) cals).

End GroupingSpec.

Module UidSpec.
Import BookingUidRoute.

(** The caller may change the booking: the address of the body can be
    compared, and the caller is the signed-in host or names the
    attendee's address, compared in lower case. *)
Definition authorised (out : Outside) (booking : Booking.t) (email : EmailField) : Prop :=
  match isBooker out booking email with
  | Some booker => isAdmin out booking = true \/ booker = true
  | None => False
  end.

(** The unique indexes accept the row [f booking] next to the rows of
    other bookings. *)
Definition updateAccepted (env : Env) (booking : Booking.t) (f : Booking.t -> Booking.t)
    (w : World) : Prop :=
  uniqueViolation env
    (List.filter (fun r => negb (String.eqb (Booking.uid r) (Booking.uid booking))) (bookings w))
    (f booking) = false.

(** The table after the rows with [uid] have been rewritten by [f]. *)
Definition rewritten (uid : string) (f : Booking.t -> Booking.t) (w : World) : list Booking.t :=
  map (fun r => if String.eqb (Booking.uid r) uid then f r else r) (bookings w).

(** The store of the example with a host session or a guest address. *)
Definition outside (sessionUserId : option string) (deletes patches mails : bool) : Outside :=
  mkOutside sessionUserId (fun s => s) (fun _ => None) (fun _ => Some 0)
    (fun _ _ _ => deletes) (fun _ _ _ => patches) mails.

End UidSpec.

Module ListingSpec.

(** [a] does not start after [b]. *)
Definition startsNoLater (a b : Booking.t) : Prop := Booking.startTime a <= Booking.startTime b.

End ListingSpec.

Module SlotsSpec.

(** The slots filed under [dateKey] in [grouped]. *)
Definition slotsOf (dateKey : string) (grouped : list (string * list TimeSlot.t))
    : list TimeSlot.t :=
  match find (fun entry => String.eqb (fst entry) dateKey) grouped with
  | Some entry => snd entry
  | None => []
  end.

(** The key of a slot in a zone [tz] minutes east of UTC. *)
Definition dateKeyIn (tz : Z) (slot : TimeSlot.t) : string :=
  SlotsByDate.format_yyyyMMdd (DateFns.toZonedTime (TimeSlot.start slot) tz).

End SlotsSpec.

Module ClientSpec.

(** No character of [s] is a comma. *)
Fixpoint noComma (s : string) : bool :=
  match s with
  | EmptyString => true
  | String c s' => negb (Ascii.eqb c ",") && noComma s'
  end.

End ClientSpec.

Module SnapshotSpec.
Import Availability.



End SnapshotSpec.

Module QuerySpec.

(** The effect is a free/busy query sent for [accountId]. *)
Definition isQueryOf (accountId : string) (e : Effect) : bool :=
  match e with
  | GoogleFreeBusyQuery a => String.eqb a accountId
  | _ => false
  end.

(** How many free/busy queries for [accountId] the trace [t] holds. *)
Definition queriesOf (accountId : string) (t : list Effect) : nat :=
  length (List.filter (isQueryOf accountId) t).

(** The effect concerns [accountId]: a read or write of its row, a call
    to Google on its behalf, or the log entry of its failure. *)
Definition concerns (accountId : string) (e : Effect) : bool :=
  match e with
  | ConnectedAccountFindUnique a | ConnectedAccountUpdate a
  | GoogleRefreshAccessToken a | GoogleFreeBusyQuery a => String.eqb a accountId
  | ConsoleError _ a => String.eqb a accountId
  | _ => false
  end.

End QuerySpec.

(* ================================================================== *)
(** * Part III: properties *)
(* ================================================================== *)

Module IntervalFacts.
Import DateFns Availability IntervalSpec.

(** *** The stable sort *)

Lemma insertByStart_perm x l : Permutation (insertByStart x l) (x :: l).
Proof.
  induction l as [|y t IH]; simpl; [reflexivity|].
  destruct (BusyBlock.start y <? BusyBlock.start x); [|reflexivity].
  rewrite IH. apply perm_swap.
Qed.

Lemma sortByStart_perm l : Permutation (sortByStart l) l.
Proof.
  induction l as [|x l IH]; simpl; [reflexivity|].
  rewrite insertByStart_perm. now constructor.
Qed.

Lemma insertByStart_sorted x l :
  StronglySorted startLe l -> StronglySorted startLe (insertByStart x l).
Proof.
  induction 1 as [|y t Hs IH Hall]; simpl.
  - repeat constructor.
  - destruct (Z.ltb_spec (BusyBlock.start y) (BusyBlock.start x)) as [Hlt|Hge].
    + constructor; [exact IH|].
      rewrite insertByStart_perm. constructor; [unfold startLe; lia | exact Hall].
    + constructor; [now constructor|].
      constructor; [exact Hge|].
      eapply Forall_impl; [exact Hall|]. unfold startLe. intros; simpl in *; lia.
Qed.

Lemma sortByStart_sorted l : StronglySorted startLe (sortByStart l).
Proof.
  induction l as [|x l IH]; simpl; [constructor|]. now apply insertByStart_sorted.
Qed.

(** *** The loop, through its recursive form *)

Lemma fold_mergeStep rest : forall pre lst,
  fold_left mergeStep rest (pre ++ [lst]) = pre ++ coalesce lst rest.
Proof.
  induction rest as [|current rest IH]; intros pre lst; simpl; [reflexivity|].
  unfold mergeStep at 2. rewrite last_snoc. unfold extend.
  destruct (BusyBlock.start current <=? BusyBlock.end_ lst).
  - destruct (BusyBlock.end_ current >? BusyBlock.end_ lst).
    + rewrite removelast_last. apply IH.
    + apply IH.
  - rewrite <- app_assoc. simpl.
    change (pre ++ [lst; current]) with (pre ++ [lst] ++ [current]).
    rewrite app_assoc, IH, <- app_assoc. reflexivity.
Qed.

Lemma mergeBusyBlocks_coalesce blocks :
  mergeBusyBlocks blocks =
  match sortByStart blocks with
  | [] => []
  | first :: rest => coalesce first rest
  end.
Proof.
  unfold mergeBusyBlocks. destruct (sortByStart blocks) as [|first rest]; [reflexivity|].
  apply (fold_mergeStep rest [] first).
Qed.

(** *** What the recursive form computes on a sorted input *)

Lemma extend_start lst current : BusyBlock.start (extend lst current) = BusyBlock.start lst.
Proof. unfold extend. now destruct (_ >? _). Qed.

Lemma extend_end lst current :
  BusyBlock.end_ (extend lst current) = Z.max (BusyBlock.end_ lst) (BusyBlock.end_ current).
Proof.
  unfold extend. destruct (Z.gtb_spec (BusyBlock.end_ current) (BusyBlock.end_ lst)); simpl; lia.
Qed.

Lemma startLe_extend lst current rest :
  Forall (startLe lst) rest -> Forall (startLe (extend lst current)) rest.
Proof.
  intros H. eapply Forall_impl; [exact H|]. unfold startLe. intros b. now rewrite extend_start.
Qed.

Lemma coalesce_starts rest : forall lst,
  Forall (startLe lst) rest -> StronglySorted startLe rest ->
  Forall (startLe lst) (coalesce lst rest).
Proof.
  induction rest as [|current rest IH]; intros lst Hle Hs; simpl.
  - constructor; [unfold startLe; lia | constructor].
  - apply Forall_cons in Hle as [Hc Hle]. apply StronglySorted_inv in Hs as [Hs Hcur].
    destruct (BusyBlock.start current <=? BusyBlock.end_ lst).
    + specialize (IH (extend lst current) (startLe_extend _ _ _ Hle) Hs).
      eapply Forall_impl; [exact IH|]. unfold startLe. intros b. now rewrite extend_start.
    + constructor; [unfold startLe; lia|].
      eapply Forall_impl; [exact (IH current Hcur Hs)|].
      unfold startLe in *. intros b Hb. lia.
Qed.

Lemma coalesce_apart rest : forall lst,
  wfBlock lst -> Forall wfBlock rest ->
  Forall (startLe lst) rest -> StronglySorted startLe rest ->
  StronglySorted apart (coalesce lst rest) /\ Forall wfBlock (coalesce lst rest).
Proof.
  induction rest as [|current rest IH]; intros lst Hwf Hwfs Hle Hs; simpl.
  - split; repeat constructor. exact Hwf.
  - apply Forall_cons in Hle as [Hc Hle]. apply Forall_cons in Hwfs as [Hwc Hwfs].
    apply StronglySorted_inv in Hs as [Hs Hcur].
    destruct (Z.leb_spec (BusyBlock.start current) (BusyBlock.end_ lst)) as [Htouch|Hgap].
    + apply IH; auto using startLe_extend.
      unfold wfBlock in *. rewrite extend_start, extend_end. lia.
    + destruct (IH current Hwc Hwfs Hcur Hs) as [Hap Hw]. split.
      * constructor; [exact Hap|].
        eapply Forall_impl; [exact (coalesce_starts rest current Hcur Hs)|].
        unfold startLe, apart. intros b Hb. lia.
      * now constructor.
Qed.

Lemma inBlock_extend t lst current :
  startLe lst current -> BusyBlock.start current <= BusyBlock.end_ lst ->
  inBlock t (extend lst current) <-> inBlock t lst \/ inBlock t current.
Proof.
  unfold startLe, inBlock. rewrite extend_start, extend_end. lia.
Qed.

Lemma coalesce_cover t rest : forall lst,
  Forall (startLe lst) rest -> StronglySorted startLe rest ->
  Exists (inBlock t) (coalesce lst rest) <-> inBlock t lst \/ Exists (inBlock t) rest.
Proof.
  induction rest as [|current rest IH]; intros lst Hle Hs; simpl.
  - rewrite Exists_cons, !Exists_nil. tauto.
  - apply Forall_cons in Hle as [Hc Hle]. apply StronglySorted_inv in Hs as [Hs Hcur].
    destruct (Z.leb_spec (BusyBlock.start current) (BusyBlock.end_ lst)) as [Htouch|Hgap].
    + rewrite (IH _ (startLe_extend _ _ _ Hle) Hs), Exists_cons.
      rewrite (inBlock_extend t lst current Hc Htouch). tauto.
    + rewrite !Exists_cons, (IH _ Hcur Hs). tauto.
Qed.

Lemma coalesce_spans x rest : forall lst,
  Forall (startLe lst) rest -> StronglySorted startLe rest ->
  spans lst x \/ In x rest ->
  exists m, In m (coalesce lst rest) /\ spans m x.
Proof.
  induction rest as [|current rest IH]; intros lst Hle Hs Hx; simpl.
  - destruct Hx as [Hx|[]]. exists lst. split; [now left | exact Hx].
  - apply Forall_cons in Hle as [Hc Hle]. apply StronglySorted_inv in Hs as [Hs Hcur].
    destruct (Z.leb_spec (BusyBlock.start current) (BusyBlock.end_ lst)) as [Htouch|Hgap].
    + apply IH; auto using startLe_extend.
      unfold spans, startLe in *. rewrite extend_start, extend_end.
      destruct Hx as [Hx|[->|Hx]]; [left; lia | left; lia | now right].
    + destruct Hx as [Hx|[<-|Hx]].
      * exists lst. split; [now left | exact Hx].
      * destruct (IH current Hcur Hs) as (m & Hm & Hsp); [left; unfold spans; lia|].
        exists m. split; [now right | exact Hsp].
      * destruct (IH current Hcur Hs) as (m & Hm & Hsp); [now right|].
        exists m. split; [now right | exact Hsp].
Qed.

(** Two positions of a strongly sorted list are related in their order. *)
Lemma StronglySorted_lookup {A} (R : A -> A -> Prop) (l : list A) :
  StronglySorted R l ->
  forall (i j : nat) (a b : A), (i < j)%nat -> l !! i = Some a -> l !! j = Some b -> R a b.
Proof.
  induction 1 as [|x l Hs IH Hall]; intros i j a b Hij Hi Hj; [discriminate|].
  destruct j as [|j]; [lia|]. simpl in Hj. destruct i as [|i]; simpl in Hi.
  - injection Hi as <-. rewrite Forall_forall in Hall. apply Hall.
    apply list_elem_of_lookup. eauto.
  - apply (IH i j); auto. lia.
Qed.

(** *** [mergeBusyBlocks] itself *)

Lemma sortByStart_cases blocks :
  sortByStart blocks = [] /\ blocks = [] \/
  exists first rest, sortByStart blocks = first :: rest /\
    Forall (startLe first) rest /\ StronglySorted startLe rest.
Proof.
  pose proof (sortByStart_sorted blocks) as Hs.
  pose proof (sortByStart_perm blocks) as Hp.
  destruct (sortByStart blocks) as [|first rest].
  - left. split; [reflexivity|]. now apply Permutation_nil.
  - right. exists first, rest. apply StronglySorted_inv in Hs. tauto.
Qed.

Lemma mergeBusyBlocks_apart blocks :
  Forall wfBlock blocks ->
  StronglySorted apart (mergeBusyBlocks blocks) /\ Forall wfBlock (mergeBusyBlocks blocks).
Proof.
  intros Hwf. rewrite mergeBusyBlocks_coalesce.
  rewrite <- (sortByStart_perm blocks) in Hwf.
  destruct (sortByStart_cases blocks) as [[Heq _]|(first & rest & Heq & Hle & Hs)];
    rewrite Heq in *.
  - split; constructor.
  - apply Forall_cons in Hwf as [Hf Hr]. now apply coalesce_apart.
Qed.

Lemma mergeBusyBlocks_cover blocks t :
  Exists (inBlock t) (mergeBusyBlocks blocks) <-> Exists (inBlock t) blocks.
Proof.
  rewrite mergeBusyBlocks_coalesce.
  transitivity (Exists (inBlock t) (sortByStart blocks));
    [|rewrite !Exists_exists; setoid_rewrite (sortByStart_perm blocks); reflexivity].
  destruct (sortByStart_cases blocks) as [[Heq _]|(first & rest & Heq & Hle & Hs)];
    rewrite Heq.
  - reflexivity.
  - rewrite coalesce_cover, Exists_cons by assumption. reflexivity.
Qed.

Lemma mergeBusyBlocks_spans blocks x :
  In x blocks -> exists m, In m (mergeBusyBlocks blocks) /\ spans m x.
Proof.
  intros Hx. rewrite mergeBusyBlocks_coalesce.
  apply (Permutation_in _ (Permutation_sym (sortByStart_perm blocks))) in Hx.
  destruct (sortByStart_cases blocks) as [[Heq _]|(first & rest & Heq & Hle & Hs)];
    rewrite Heq in *.
  - destruct Hx.
  - apply coalesce_spans; auto.
    destruct Hx as [<-|Hx]; [left; unfold spans; lia | now right].
Qed.

Lemma apart_startLt l :
  StronglySorted apart l -> Forall wfBlock l -> StronglySorted startLt l.
Proof.
  induction 1 as [|a l Hs IH Hall]; intros Hwf; [constructor|].
  apply Forall_cons in Hwf as [Ha Hl]. constructor; [auto|].
  eapply Forall_impl; [exact Hall|]. unfold apart, startLt, wfBlock in *. intros b Hb. lia.
Qed.

(** Two blocks of a separated list are the same position or have no
    common point. *)
Lemma apart_disjoint l (i j : nat) a b t :
  StronglySorted apart l -> i <> j -> l !! i = Some a -> l !! j = Some b ->
  ~ (inBlock t a /\ inBlock t b).
Proof.
  intros Hs Hij Hi Hj [Ha Hb]. unfold inBlock in *.
  destruct (Nat.lt_total i j) as [Hlt|[Heq|Hgt]]; [|contradiction|].
  - pose proof (StronglySorted_lookup apart l Hs i j a b Hlt Hi Hj) as H.
    unfold apart in H. lia.
  - pose proof (StronglySorted_lookup apart l Hs j i b a Hgt Hj Hi) as H.
    unfold apart in H. lia.
Qed.

(** Blocks of a separated list that touch are one block. *)
Lemma apart_touch_eq l m1 m2 :
  StronglySorted apart l -> In m1 l -> In m2 l ->
  BusyBlock.start m2 <= BusyBlock.end_ m1 -> BusyBlock.start m1 <= BusyBlock.end_ m2 ->
  m1 = m2.
Proof.
  intros Hs H1 H2 Ha Hb.
  apply list_elem_of_In, list_elem_of_lookup in H1 as [i Hi].
  apply list_elem_of_In, list_elem_of_lookup in H2 as [j Hj].
  destruct (Nat.lt_total i j) as [Hlt|[Heq|Hgt]].
  - pose proof (StronglySorted_lookup apart l Hs i j m1 m2 Hlt Hi Hj) as H.
    unfold apart in H. lia.
  - subst j. congruence.
  - pose proof (StronglySorted_lookup apart l Hs j i m2 m1 Hgt Hj Hi) as H.
    unfold apart in H. lia.
Qed.

(** C3. For blocks that each have [start < end], [mergeBusyBlocks] returns
    a list (1) sorted by start, strictly ascending, (2) whose half-open
    intervals are pairwise disjoint, (3) whose union is the union of the
    input, and (4) in which two input blocks [a], [b], taken in start order
    and with [a.end >= b.start] (adjacency included), lie in one block that
    spans [[min(a.start,b.start), max(a.end,b.end)]]; (5) when these two are
    the whole input the result is exactly that interval. *)
Theorem C3_mergeBusyBlocks_correct (blocks : list BusyBlock.t) :
  Forall wfBlock blocks ->
  StronglySorted startLt (mergeBusyBlocks blocks)
  /\ (forall (i j : nat) a b t, i <> j ->
        mergeBusyBlocks blocks !! i = Some a -> mergeBusyBlocks blocks !! j = Some b ->
        ~ (inBlock t a /\ inBlock t b))
  /\ (forall t, Exists (inBlock t) (mergeBusyBlocks blocks) <-> Exists (inBlock t) blocks)
  /\ (forall a b, In a blocks -> In b blocks ->
        BusyBlock.start a <= BusyBlock.start b -> BusyBlock.start b <= BusyBlock.end_ a ->
        exists m, In m (mergeBusyBlocks blocks)
          /\ BusyBlock.start m <= Z.min (BusyBlock.start a) (BusyBlock.start b)
          /\ Z.max (BusyBlock.end_ a) (BusyBlock.end_ b) <= BusyBlock.end_ m)
  /\ (forall a b, blocks = [a; b] ->
        BusyBlock.start a <= BusyBlock.start b -> BusyBlock.start b <= BusyBlock.end_ a ->
        mergeBusyBlocks blocks =
          [BusyBlock.mk (Z.min (BusyBlock.start a) (BusyBlock.start b))
                        (Z.max (BusyBlock.end_ a) (BusyBlock.end_ b))
                        (BusyBlock.calendarId a)]).
Proof.
  intros Hwf. destruct (mergeBusyBlocks_apart blocks Hwf) as [Hap Hw].
  split; [now apply apart_startLt|].
  split; [intros i j a b t; now apply apart_disjoint|].
  split; [intros t; apply mergeBusyBlocks_cover|].
  split.
  - intros a b Ha Hb Hab Htouch.
    destruct (mergeBusyBlocks_spans blocks a Ha) as (ma & Hma & Hsa).
    destruct (mergeBusyBlocks_spans blocks b Hb) as (mb & Hmb & Hsb).
    rewrite Forall_forall in Hwf.
    pose proof (Hwf a (proj2 (list_elem_of_In _ _) Ha)) as Hwa.
    pose proof (Hwf b (proj2 (list_elem_of_In _ _) Hb)) as Hwb.
    unfold spans, wfBlock in *.
    assert (ma = mb) as <- by (apply (apart_touch_eq _ _ _ Hap Hma Hmb); lia).
    exists ma. split; [exact Hma | lia].
  - intros a b -> Hab Htouch. unfold mergeBusyBlocks. simpl.
    destruct (Z.ltb_spec (BusyBlock.start b) (BusyBlock.start a)); [lia|]. simpl.
    unfold mergeStep. simpl.
    destruct (Z.leb_spec (BusyBlock.start b) (BusyBlock.end_ a)); [|lia].
    rewrite Z.min_l by lia.
    destruct (Z.gtb_spec (BusyBlock.end_ b) (BusyBlock.end_ a)); simpl.
    + unfold BusyBlock.set_end. now rewrite Z.max_r by lia.
    + rewrite Z.max_l by lia. now destruct a.
Qed.

Lemma C3_mergeBusyBlocks_witness :
  let blocks := [BusyBlock.mk 600 660 "cal2"; BusyBlock.mk 540 600 "cal1"] in
  Forall wfBlock blocks
  /\ mergeBusyBlocks blocks = [BusyBlock.mk 540 660 "cal1"]
  /\ StronglySorted startLt (mergeBusyBlocks blocks).
Proof.
  intros blocks.
  assert (Hwf : Forall wfBlock blocks)
    by (repeat constructor; unfold wfBlock; simpl; lia).
  split; [exact Hwf|]. split; [reflexivity|].
  exact (proj1 (C3_mergeBusyBlocks_correct blocks Hwf)).
Defined.

(** *** The overlap test *)

Lemma areIntervalsOverlapping_ordered ls le rs re :
  ls <= le -> rs <= re ->
  areIntervalsOverlapping ls le rs re = true <-> ls < re /\ rs < le.
Proof.
  intros Hl Hr. unfold areIntervalsOverlapping.
  rewrite andb_true_iff, !Z.ltb_lt. lia.
Qed.

Lemma overlap_conflicts slotStart slotEnd bufferBefore bufferAfter B :
  slotStart < slotEnd -> 0 <= bufferBefore -> 0 <= bufferAfter -> wfBlock B ->
  areIntervalsOverlapping (addMinutes slotStart (- bufferBefore)) (addMinutes slotEnd bufferAfter)
    (BusyBlock.start B) (BusyBlock.end_ B) = true
  <-> conflicts slotStart slotEnd bufferBefore bufferAfter B.
Proof.
  intros Hs Hb Ha Hw. unfold wfBlock in Hw.
  unfold addMinutes, millisecondsInMinute, conflicts, inBlock.
  rewrite areIntervalsOverlapping_ordered by lia. split.
  - intros [H1 H2].
    exists (Z.max (slotStart - bufferBefore * 60000) (BusyBlock.start B)). lia.
  - intros (t & Ht & HB). lia.
Qed.

(** C4. For a slot [[slotStart, slotEnd)], non-negative buffers and busy
    blocks with [start < end], [isSlotBusy] is true exactly when the widened
    slot [[slotStart - bufBefore, slotEnd + bufAfter)] has a point in common
    with the half-open interval of some block; with both buffers zero, a
    block that ends at the slot's start or starts at the slot's end does
    not conflict. *)
Theorem C4_isSlotBusy_half_open (slotStart slotEnd : Z) (busyBlocks : list BusyBlock.t)
    (bufferBefore bufferAfter : Z) :
  slotStart < slotEnd -> 0 <= bufferBefore -> 0 <= bufferAfter ->
  Forall wfBlock busyBlocks ->
  (isSlotBusy slotStart slotEnd busyBlocks bufferBefore bufferAfter = true
   <-> exists B, In B busyBlocks /\ conflicts slotStart slotEnd bufferBefore bufferAfter B)
  /\ (forall B, wfBlock B ->
        BusyBlock.end_ B = slotStart \/ BusyBlock.start B = slotEnd ->
        isSlotBusy slotStart slotEnd [B] 0 0 = false).
Proof.
  intros Hs Hb Ha Hwf. split.
  - unfold isSlotBusy. rewrite existsb_exists. rewrite Forall_forall in Hwf.
    split; intros (B & HB & H); exists B; (split; [exact HB|]);
      apply overlap_conflicts in H; auto; apply Hwf; now apply list_elem_of_In.
  - intros B Hw Hadj. unfold isSlotBusy. simpl. rewrite orb_false_r.
    apply not_true_is_false. intros H.
    apply overlap_conflicts in H; [|lia..|exact Hw].
    destruct H as (t & Ht & HB). unfold inBlock, wfBlock in *. lia.
Qed.

(** Outside the invariant: a block with [start = end] has no point, yet the
    strict comparisons of [areIntervalsOverlapping] count it as overlapping
    when it lies inside the widened slot. *)
Remark isSlotBusy_empty_block :
  isSlotBusy 0 600000 [BusyBlock.mk 300000 300000 "cal1"] 0 0 = true
  /\ ~ (exists t, inBlock t (BusyBlock.mk 300000 300000 "cal1")).
Proof.
  split; [reflexivity|]. intros (t & Ht). unfold inBlock in Ht. simpl in Ht. lia.
Qed.

Lemma C4_isSlotBusy_witness :
  let blocks := [BusyBlock.mk 36000000 39600000 "cal1"] in
  (39600000 < 41400000 /\ Forall wfBlock blocks)
  /\ isSlotBusy 39600000 41400000 blocks 0 0 = false
  /\ isSlotBusy 39600000 41400000 blocks 15 0 = true.
Proof.
  intros blocks.
  assert (Hwf : Forall wfBlock blocks)
    by (repeat constructor; unfold wfBlock; simpl; lia).
  assert (Hs : 39600000 < 41400000) by lia.
  split; [now split|].
  split.
  - apply (C4_isSlotBusy_half_open 39600000 41400000 blocks 0 0 Hs
             ltac:(lia) ltac:(lia) Hwf).
    + repeat constructor; unfold wfBlock; simpl; lia.
    + now left.
  - apply (C4_isSlotBusy_half_open 39600000 41400000 blocks 15 0 Hs
             ltac:(lia) ltac:(lia) Hwf).
    exists (BusyBlock.mk 36000000 39600000 "cal1"). split; [now left|].
    exists 39000000. unfold inBlock; simpl; lia.
Defined.

End IntervalFacts.

(** ** Running a computation *)

Lemma bind_run {A B : Type} (m : M A) (k : A -> M B) (w : World) :
  bind m k w = k (fst (m w)) (snd (m w)).
Proof. unfold bind. now destruct (m w). Qed.

(** ** The cases of [src/__tests__/availability.test.ts], on the model *)

Module RepositoryTests.
Import DateFns Availability.

Example parseTimeString_cases :
  parseTimeString "09:00" = Some (9, 0) /\ parseTimeString "17:30" = Some (17, 30)
  /\ parseTimeString "00:00" = Some (0, 0) /\ parseTimeString "23:59" = Some (23, 59).
Proof. repeat split. Qed.

Example merge_empty : mergeBusyBlocks [] = [].
Proof. reflexivity. Qed.

Example merge_overlapping :
  mergeBusyBlocks [BusyBlock.mk (Scenario.at_ 9 0) (Scenario.at_ 10 0) "cal1";
                   BusyBlock.mk (Scenario.at_ 9 30) (Scenario.at_ 11 0) "cal2"]
  = [BusyBlock.mk (Scenario.at_ 9 0) (Scenario.at_ 11 0) "cal1"].
Proof. reflexivity. Qed.

Example merge_adjacent :
  mergeBusyBlocks [BusyBlock.mk (Scenario.at_ 9 0) (Scenario.at_ 10 0) "cal1";
                   BusyBlock.mk (Scenario.at_ 10 0) (Scenario.at_ 11 0) "cal2"]
  = [BusyBlock.mk (Scenario.at_ 9 0) (Scenario.at_ 11 0) "cal1"].
Proof. reflexivity. Qed.

Example merge_separate :
  length (mergeBusyBlocks [BusyBlock.mk (Scenario.at_ 9 0) (Scenario.at_ 10 0) "cal1";
                           BusyBlock.mk (Scenario.at_ 11 0) (Scenario.at_ 12 0) "cal2"])
  = 2%nat.
Proof. reflexivity. Qed.

Example merge_three_calendars :
  mergeBusyBlocks [BusyBlock.mk (Scenario.at_ 9 0) (Scenario.at_ 10 0) "cal1";
                   BusyBlock.mk (Scenario.at_ 9 30) (Scenario.at_ 10 30) "cal2";
                   BusyBlock.mk (Scenario.at_ 10 0) (Scenario.at_ 11 0) "cal3"]
  = [BusyBlock.mk (Scenario.at_ 9 0) (Scenario.at_ 11 0) "cal1"].
Proof. reflexivity. Qed.

Example isSlotBusy_cases :
  let busy := [BusyBlock.mk (Scenario.at_ 10 0) (Scenario.at_ 11 0) "cal1"] in
  isSlotBusy (Scenario.at_ 10 30) (Scenario.at_ 11 0) busy 0 0 = true
  /\ isSlotBusy (Scenario.at_ 11 0) (Scenario.at_ 11 30) busy 0 0 = false
  /\ isSlotBusy (Scenario.at_ 11 0) (Scenario.at_ 11 30) busy 15 0 = true
  /\ isSlotBusy (Scenario.at_ 9 30) (Scenario.at_ 10 0) busy 0 0 = false
  /\ isSlotBusy (Scenario.at_ 9 30) (Scenario.at_ 10 0) busy 0 15 = true.
Proof. repeat split. Qed.

Example candidate_slot_counts :
  let monday := [WorkingHours.mk 1 "09:00" "17:00"] in
  option_map (@length _) (generateDayCandidateSlots Scenario.monday monday 30 15 0)
    = Some 31%nat
  /\ option_map (@length _) (generateDayCandidateSlots Scenario.monday monday 60 60 0)
     = Some 8%nat
  /\ generateDayCandidateSlots (Scenario.monday - 86400000) monday 30 15 0 = Some [].
Proof. repeat split. Qed.

End RepositoryTests.

Module EffectFacts.
Import EffectSpec GoogleCalendar.

Lemma onlyAccountsChange_refl w : onlyAccountsChange w w.
Proof. unfold onlyAccountsChange. tauto. Qed.

Lemma onlyAccountsChange_trans w1 w2 w3 :
  onlyAccountsChange w1 w2 -> onlyAccountsChange w2 w3 -> onlyAccountsChange w1 w3.
Proof. unfold onlyAccountsChange. intuition congruence. Qed.

Lemma frames_ret {A} (a : A) : frames (ret a).
Proof. intros w. apply onlyAccountsChange_refl. Qed.

Lemma frames_gets {A} (f : World -> A) : frames (gets f).
Proof. intros w. apply onlyAccountsChange_refl. Qed.

Lemma frames_emit e : frames (emit e).
Proof. intros w. unfold onlyAccountsChange. simpl. tauto. Qed.

Lemma frames_bind {A B} (m : M A) (k : A -> M B) :
  frames m -> (forall a, frames (k a)) -> frames (bind m k).
Proof.
  intros Hm Hk w. rewrite bind_run.
  eapply onlyAccountsChange_trans; [apply Hm | apply Hk].
Qed.

Lemma frames_updateAccount accountId f : frames (updateAccount accountId f).
Proof.
  intros w. unfold updateAccount. rewrite bind_run.
  unfold onlyAccountsChange. simpl. tauto.
Qed.

Create HintDb frames.

(** Follows the shape of a computation: sequencing, branching, and the
    primitives; lemmas about composite computations come from the hint
    database. *)
Ltac frames_auto :=
  repeat first
    [ apply frames_ret | apply frames_gets | apply frames_emit
    | apply frames_updateAccount
    | solve [auto with frames]
    | apply frames_bind; [|intros ?]
    | match goal with |- frames (match ?x with _ => _ end) => destruct x end ].

Lemma frames_getAuthenticatedClient env accountId :
  frames (getAuthenticatedClient env accountId).
Proof. unfold getAuthenticatedClient. frames_auto. Qed.
#[export] Hint Resolve frames_getAuthenticatedClient : frames.

Lemma frames_getFreeBusy env accountId calendarIds timeMin timeMax :
  frames (getFreeBusy env accountId calendarIds timeMin timeMax).
Proof. unfold getFreeBusy. frames_auto. Qed.
#[export] Hint Resolve frames_getFreeBusy : frames.

Lemma frames_fetchAccount env timeMin timeMax entry :
  frames (fetchAccount env timeMin timeMax entry).
Proof. unfold fetchAccount. frames_auto. Qed.
#[export] Hint Resolve frames_fetchAccount : frames.

Lemma frames_promiseAll {A B} (f : A -> M B) (l : list A) :
  (forall x, frames (f x)) -> frames (promiseAll f l).
Proof.
  intros Hf. induction l as [|x l IH]; simpl; [apply frames_ret|].
  apply frames_bind; [apply Hf|]. intros r.
  apply frames_bind; [exact IH|]. intros rs. apply frames_ret.
Qed.

Lemma frames_getCompositeBusy env userId timeMin timeMax :
  frames (getCompositeBusy env userId timeMin timeMax).
Proof.
  unfold getCompositeBusy.
  apply frames_bind; [apply frames_emit|]. intros _.
  apply frames_bind; [apply frames_gets|]. intros cals.
  apply frames_bind; [|intros; apply frames_ret].
  apply frames_promiseAll. intros entry. apply frames_fetchAccount.
Qed.
#[export] Hint Resolve frames_getCompositeBusy : frames.

Lemma frames_createCalendarEvent env accountId calendarId :
  frames (createCalendarEvent env accountId calendarId).
Proof. unfold createCalendarEvent. frames_auto. Qed.
#[export] Hint Resolve frames_createCalendarEvent : frames.

Lemma frames_isSlotAvailable env eventTypeId startTime endTime :
  frames (Availability.isSlotAvailable env eventTypeId startTime endTime).
Proof.
  unfold Availability.isSlotAvailable, Availability.getEventTypeConfig. frames_auto.
Qed.
#[export] Hint Resolve frames_isSlotAvailable : frames.

End EffectFacts.

Module BusyFacts.
Import EffectSpec EffectFacts GoogleCalendar BusySpec.

(** *** Rewriting the rows of one account *)


Lemma touchesOnly_trans a w1 w2 w3 :
  touchesOnly a w1 w2 -> touchesOnly a w2 w3 -> touchesOnly a w1 w3.
Proof.
  intros (f & Hf & Hv & E1) (g & Hg & Hw & E2).
  exists (fun x => g (f x)). split; [intros x; now rewrite Hg, Hf|].
  split; [intros x Hx; auto|].
  rewrite E2, E1, map_map. apply map_ext. intros x.
  destruct (String.eqb (ConnectedAccount.id x) a) eqn:E.
  - now rewrite Hf, E.
  - now rewrite E.
Qed.


Lemma touchesOnly_updateAccount a f w :
  (forall x, ConnectedAccount.id (f x) = ConnectedAccount.id x) ->
  (forall x, ConnectedAccount.isValid (f x) = true -> ConnectedAccount.isValid x = true) ->
  touchesOnly a w (snd (updateAccount a f w)).
Proof. intros Hf Hv. exists f. auto. Qed.






(** *** One account *)




(** *** All accounts *)

Lemma groupPush_keys a c m k :
  In k (map fst (groupPush a c m)) <-> k = a \/ In k (map fst m).
Proof.
  induction m as [|[b ids] m IH]; simpl; [intuition|].
  destruct (String.eqb b a) eqn:E; simpl.
  - apply String.eqb_eq in E. subst b. intuition.
  - rewrite IH. intuition.
Qed.

Lemma groupPush_NoDup a c m : List.NoDup (map fst m) -> List.NoDup (map fst (groupPush a c m)).
Proof.
  induction m as [|[b ids] m IH]; simpl; intros Hnd.
  - apply NoDup_cons_iff. split; [intros []|exact Hnd].
  - apply NoDup_cons_iff in Hnd as [Hb Hm].
    destruct (String.eqb b a) eqn:E; simpl.
    + apply NoDup_cons_iff. now split.
    + apply NoDup_cons_iff. split; [|auto].
      rewrite groupPush_keys. intros [->|H]; [|contradiction].
      now rewrite String.eqb_refl in E.
Qed.

Lemma calendarsByAccount_NoDup cals : List.NoDup (map fst (calendarsByAccount cals)).
Proof.
  unfold calendarsByAccount.
  assert (H : forall m, List.NoDup (map fst m) ->
            List.NoDup (map fst (fold_left (fun m cal =>
              groupPush (Calendar.connectedAccountId cal) (Calendar.googleCalendarId cal) m)
              cals m))).
  { induction cals as [|cal cals IH]; intros m Hm; simpl; [exact Hm|].
    apply IH. now apply groupPush_NoDup. }
  apply H. apply List.NoDup_nil.
Qed.




Lemma getCompositeBusy_run env userId timeMin timeMax w :
  getCompositeBusy env userId timeMin timeMax w
  = let w0 := set_trace w (trace w ++ [CalendarFindMany userId]) in
    let r := promiseAll (fetchAccount env timeMin timeMax)
               (calendarsByAccount (selectedValidCalendars userId w)) w0 in
    (concat (fst r), snd r).
Proof.
  unfold getCompositeBusy. rewrite !bind_run. reflexivity.
Qed.




End BusyFacts.

Module AvailabilityFacts.
Import DateFns Availability AvailabilitySpec IntervalSpec IntervalFacts.

Lemma getEventTypeConfig_run eventTypeId w :
  getEventTypeConfig eventTypeId w
  = (configOf eventTypeId w, set_trace w (trace w ++ [EventTypeFindUniqueWithUser eventTypeId])).
Proof. reflexivity. Qed.

(** *** The loops meet their exit within the turns the model gives them *)

Lemma slotLoop_step (n : nat) : forall cur wde dur step,
  0 < step ->
  (slotLoopBound cur wde dur step <= n)%nat ->
  slotLoop (S n) cur wde dur step = slotLoop n cur wde dur step.
Proof.
  induction n as [|n IH]; intros cur wde dur step Hpos Hb.
  - unfold slotLoopBound, millisecondsInMinute in Hb. simpl.
    destruct (Z.ltb_spec wde (addMinutes cur dur)) as [Hlt|Hge];
      unfold isAfter; [now apply Z.ltb_lt in Hlt as -> |].
    exfalso.
    assert (0 <= (wde - addMinutes cur dur) / (step * 60000))
      by (apply Z.div_pos; lia).
    lia.
  - change (slotLoop (S (S n)) cur wde dur step) with
      (let slotEnd := addMinutes cur dur in
       if isAfter slotEnd wde then []
       else (cur, slotEnd) :: slotLoop (S n) (addMinutes cur step) wde dur step).
    change (slotLoop (S n) cur wde dur step) with
      (let slotEnd := addMinutes cur dur in
       if isAfter slotEnd wde then []
       else (cur, slotEnd) :: slotLoop n (addMinutes cur step) wde dur step).
    cbv zeta. unfold isAfter.
    destruct (Z.ltb_spec wde (addMinutes cur dur)) as [Hlt|Hge]; [reflexivity|].
    f_equal. apply IH; [exact Hpos|].
    unfold slotLoopBound, addMinutes, millisecondsInMinute in *.
    replace (wde - (cur + step * 60000 + dur * 60000))
      with ((wde - (cur + dur * 60000)) + (-1) * (step * 60000)) by lia.
    rewrite Z.div_add by lia.
    assert (0 <= (wde - (cur + dur * 60000)) / (step * 60000))
      by (apply Z.div_pos; lia).
    lia.
Qed.

Lemma slotLoop_enough (extra : nat) cur wde dur step :
  0 < step ->
  slotLoop (slotLoopBound cur wde dur step + extra) cur wde dur step
  = slotLoop (slotLoopBound cur wde dur step) cur wde dur step.
Proof.
  intros Hpos. induction extra as [|k IH]; [now rewrite Nat.add_0_r|].
  rewrite Nat.add_succ_r, slotLoop_step; [exact IH | exact Hpos | lia].
Qed.

Lemma dayLoop_S (n : nat) cur effEnd minB maxB merged config :
  dayLoop (S n) cur effEnd minB maxB merged config =
  if isBefore cur (endOfDay effEnd) then
    match generateDayCandidateSlots (toZonedTime cur (timezone config))
            (workingHours config) (duration config) (slotInterval config)
            (timezone config) with
    | None => None
    | Some daySlots =>
        match dayLoop n (addDays cur 1) effEnd minB maxB merged config with
        | None => None
        | Some later =>
            Some (map (fun slot => TimeSlot.mk (fst slot) (snd slot) true)
                    (List.filter (keepSlot minB maxB merged config) daySlots) ++ later)
        end
    end
  else Some [].
Proof. reflexivity. Qed.

Lemma dayLoop_step (n : nat) : forall cur effEnd minB maxB merged config,
  (Z.to_nat ((endOfDay effEnd - cur) / millisecondsInDay + 1) <= n)%nat ->
  dayLoop (S n) cur effEnd minB maxB merged config
  = dayLoop n cur effEnd minB maxB merged config.
Proof.
  induction n as [|n IH]; intros cur effEnd minB maxB merged config Hb.
  - simpl. unfold isBefore.
    destruct (Z.ltb_spec cur (endOfDay effEnd)) as [Hlt|Hge]; [|reflexivity].
    exfalso. unfold millisecondsInDay in Hb.
    assert (0 <= (endOfDay effEnd - cur) / 86400000) by (apply Z.div_pos; lia).
    lia.
  - rewrite (dayLoop_S (S n)), (dayLoop_S n cur). unfold isBefore.
    destruct (Z.ltb_spec cur (endOfDay effEnd)) as [Hlt|Hge]; [|reflexivity].
    destruct (generateDayCandidateSlots _ _ _ _ _); [|reflexivity].
    rewrite IH; [reflexivity|].
    unfold addDays, millisecondsInDay in *.
    replace (endOfDay effEnd - (cur + 1 * 86400000))
      with ((endOfDay effEnd - cur) + (-1) * 86400000) by lia.
    rewrite Z.div_add by lia.
    assert (0 <= (endOfDay effEnd - cur) / 86400000) by (apply Z.div_pos; lia).
    lia.
Qed.

Lemma dayLoop_enough (extra : nat) effStart effEnd minB maxB merged config :
  dayLoop (dayLoopBound effStart effEnd + extra) (startOfDay effStart) effEnd
    minB maxB merged config
  = dayLoop (dayLoopBound effStart effEnd) (startOfDay effStart) effEnd
      minB maxB merged config.
Proof.
  induction extra as [|k IH]; [now rewrite Nat.add_0_r|].
  rewrite Nat.add_succ_r, dayLoop_step; [exact IH|].
  unfold dayLoopBound. lia.
Qed.

(** *** What a returned slot has passed *)

Lemma keepSlot_true minB maxB merged config slot :
  keepSlot minB maxB merged config slot = true ->
  minB <= fst slot <= maxB
  /\ isSlotBusy (fst slot) (snd slot) merged (bufferBefore config) (bufferAfter config) = false.
Proof.
  unfold keepSlot, isBefore, isAfter.
  destruct (Z.ltb_spec (fst slot) minB) as [|Hmin]; [discriminate|].
  destruct (Z.ltb_spec maxB (fst slot)) as [|Hmax]; [discriminate|].
  intros Hfree. apply negb_true_iff in Hfree. split; [lia | exact Hfree].
Qed.

Lemma dayLoop_kept (fuel : nat) : forall cur effEnd minB maxB merged config slots slot,
  dayLoop fuel cur effEnd minB maxB merged config = Some slots ->
  In slot slots ->
  exists raw, keepSlot minB maxB merged config raw = true
              /\ slot = TimeSlot.mk (fst raw) (snd raw) true.
Proof.
  induction fuel as [|fuel IH]; intros cur effEnd minB maxB merged config slots slot Hrun Hin.
  - injection Hrun as <-. destruct Hin.
  - simpl in Hrun.
    destruct (isBefore cur (endOfDay effEnd)); [|injection Hrun as <-; destruct Hin].
    destruct (generateDayCandidateSlots _ _ _ _ _) as [daySlots|]; [|discriminate].
    destruct (dayLoop fuel _ _ _ _ _ _) as [later|] eqn:Hlater; [|discriminate].
    injection Hrun as <-. apply in_app_iff in Hin as [Hin|Hin].
    + apply in_map_iff in Hin as (raw & <- & Hraw).
      apply filter_In in Hraw as [_ Hkeep]. now exists raw.
    + eapply IH; eauto.
Qed.


(** *** [generateAvailableSlots] returns *)

Lemma generateDayCandidateSlots_returns date hours duration slotInterval tz :
  0 < slotInterval -> Forall parses hours ->
  exists slots, generateDayCandidateSlots date hours duration slotInterval tz = Some slots.
Proof.
  intros Hpos Hparse. unfold generateDayCandidateSlots.
  destruct (find _ hours) as [dayConfig|] eqn:Hfind; [|eauto].
  apply find_some in Hfind as [Hin _].
  rewrite Forall_forall in Hparse.
  destruct (Hparse dayConfig (proj2 (list_elem_of_In _ _) Hin)) as [Hs He].
  destruct (parseTimeString (WorkingHours.start dayConfig)) as [[sh sm]|]; [|contradiction].
  destruct (parseTimeString (WorkingHours.end_ dayConfig)) as [[eh em]|]; [|contradiction].
  destruct (isAfter _ _); [eauto|].
  destruct (Z.leb_spec slotInterval 0); [lia | eauto].
Qed.

Lemma dayLoop_returns (fuel : nat) : forall cur effEnd minB maxB merged config,
  0 < slotInterval config -> Forall parses (workingHours config) ->
  exists slots, dayLoop fuel cur effEnd minB maxB merged config = Some slots.
Proof.
  induction fuel as [|fuel IH]; intros cur effEnd minB maxB merged config Hpos Hparse;
    [simpl; eauto|].
  rewrite dayLoop_S. destruct (isBefore _ _); [|eauto].
  destruct (generateDayCandidateSlots_returns (toZonedTime cur (timezone config))
              (workingHours config) (duration config) (slotInterval config)
              (timezone config) Hpos Hparse) as [daySlots ->].
  destruct (IH (addDays cur 1) effEnd minB maxB merged config Hpos Hparse) as [later ->].
  eauto.
Qed.

Lemma generateAvailableSlots_returns env options w config :
  configOf (eventTypeId options) w = Some config ->
  0 < slotInterval config -> Forall parses (workingHours config) ->
  exists slots, fst (generateAvailableSlots env options w) = Returns slots.
Proof.
  intros Hcfg Hpos Hparse. unfold generateAvailableSlots.
  rewrite bind_run, getEventTypeConfig_run. cbn [fst snd]. rewrite Hcfg.
  destruct (isAfter _ _); [eexists; reflexivity|].
  rewrite !bind_run.
  match goal with
  | |- context [dayLoop ?n ?c ?e ?a ?b ?m config] =>
      destruct (dayLoop_returns n c e a b m config Hpos Hparse) as [slots ->]
  end.
  eexists. reflexivity.
Qed.



(** C2, at a failing input. Monday 09:40, thirty minutes of notice, the
    host already has a confirmed booking 10:00-10:30. The booking starts
    before the effective window (which opens at 10:10), so the query of
    [generateAvailableSlots] does not fetch it and the slot 10:15-10:45 is
    listed; [isSlotAvailable], at the same clock and on the same store,
    finds the booking and answers false. *)
Theorem C2_listed_slot_fails_precommit :
  let w := Scenario.world (Scenario.eventType 30 true false) (Scenario.booking CONFIRMED) in
  let env := Scenario.env (Scenario.at_ 9 40) (Scenario.at_ 10 15) in
  let slot := TimeSlot.mk (Scenario.at_ 10 15) (Scenario.at_ 10 45) true in
  (exists slots, fst (generateAvailableSlots env Scenario.mondayRange w) = Returns slots
                 /\ In slot slots)
  /\ fst (isSlotAvailable env "evt1" (TimeSlot.start slot) (TimeSlot.end_ slot) w) = false.
Proof.
  intros w env slot. split.
  - eexists. split; [vm_compute; reflexivity|]. now left.
  - vm_compute. reflexivity.
Qed.

(** *** The ledger check of [isSlotAvailable] *)

Lemma overlapsQuery_overlap userId startTime endTime b :
  Booking.userId b = userId ->
  Booking.status b = PENDING \/ Booking.status b = CONFIRMED ->
  (exists t, startTime <= t < endTime /\ Booking.startTime b <= t < Booking.endTime b) ->
  overlapsQuery userId startTime endTime b = true.
Proof.
  intros <- Hst (t & Hslot & Hb). unfold overlapsQuery.
  rewrite String.eqb_refl.
  replace (statusIsActive (Booking.status b)) with true
    by (destruct Hst as [-> | ->]; reflexivity).
  rewrite !andb_true_l, !orb_true_iff, !andb_true_iff.
  rewrite !Z.leb_le, !Z.ltb_lt, !Z.geb_le, !Z.gtb_lt.
  lia.
Qed.




End AvailabilityFacts.

Module BookingFacts.
Import EffectSpec EffectFacts BookingsRoute BookingSpec.

(** *** Up to the commit *)

Lemma rateLimit_world env key options w :
  onlyAccountsChange w (set_rateLimitStore (snd (RateLimit.rateLimit env key options w))
                          (rateLimitStore w))
  /\ connectedAccounts (snd (RateLimit.rateLimit env key options w)) = connectedAccounts w
  /\ trace (snd (RateLimit.rateLimit env key options w)) = trace w ++ [RateLimitCheck key].
Proof.
  unfold RateLimit.rateLimit, bind, emit, gets, ret, onlyAccountsChange.
  cbn [fst snd rateLimitStore set_trace].
  destruct (rateLimitStore w !! key) as [entry|]; [|cbn; tauto].
  destruct (RateLimitEntry.resetAt entry <=? now env); [cbn; tauto|].
  destruct (_ >? _); cbn; tauto.
Qed.

Lemma rateLimit_bookings env key options w :
  bookings (snd (RateLimit.rateLimit env key options w)) = bookings w.
Proof. now destruct (rateLimit_world env key options w) as ((_ & _ & _ & _ & H & _) & _). Qed.

Lemma POST_rate_limited env request w :
  ~ allowed env request w ->
  status (fst (POST env request w)) = 429
  /\ bookings (snd (POST env request w)) = bookings w.
Proof.
  unfold allowed, rateLimitKey, POST. intros H. rewrite bind_run.
  apply not_true_is_false in H. rewrite H. cbn [negb fst snd ret].
  split; [reflexivity | apply rateLimit_bookings].
Qed.

Lemma find_unique_key rows b k :
  uniqueKeys rows -> In b rows -> Booking.idempotencyKey b = Some k ->
  find (hasKey k) rows = Some b.
Proof.
  intros Hu Hin Hk.
  destruct (find (hasKey k) rows) as [b'|] eqn:Hfind.
  - apply find_some in Hfind as [Hin' Hk']. unfold hasKey in Hk'.
    destruct (Booking.idempotencyKey b') as [k'|] eqn:E; [|discriminate].
    apply String.eqb_eq in Hk'. subst k'. f_equal. now apply (Hu b' b k).
  - apply find_none with (x := b) in Hfind; [|exact Hin].
    unfold hasKey in Hfind. rewrite Hk, String.eqb_refl in Hfind. discriminate.
Qed.

Lemma derive_supplied env data k :
  idempotencyKey data = Some k -> k <> EmptyString -> deriveIdempotencyKey env data = k.
Proof.
  intros Hk Hne. unfold deriveIdempotencyKey. rewrite Hk.
  destruct k; [contradiction | reflexivity].
Qed.

Lemma bookingFindUniqueByKey_run key w :
  bookingFindUniqueByKey key w
  = (bookingByKey key w, set_trace w (trace w ++ [BookingFindUniqueByKey key])).
Proof. reflexivity. Qed.

Lemma eventTypeFindUnique_run eventTypeId w :
  eventTypeFindUnique eventTypeId w
  = (eventTypeById eventTypeId w, set_trace w (trace w ++ [EventTypeFindUnique eventTypeId])).
Proof. reflexivity. Qed.

Lemma bookingByKey_bookings key w w' :
  bookings w' = bookings w -> bookingByKey key w' = bookingByKey key w.
Proof. unfold bookingByKey. now intros ->. Qed.

(** The request is let through, its body is valid, and the lookup under
    its key finds [b]: the handler answers with [b] after two effects. *)
Lemma POST_idempotent_hit env request data b w :
  allowed env request w -> body request = Valid data ->
  bookingByKey (deriveIdempotencyKey env data) w = Some b ->
  fst (POST env request w) = prior b
  /\ bookings (snd (POST env request w)) = bookings w
  /\ trace (snd (POST env request w))
     = trace w ++ [RateLimitCheck (rateLimitKey request);
                   BookingFindUniqueByKey (deriveIdempotencyKey env data)].
Proof.
  unfold allowed, POST. intros Hadm Hbody Hfind.
  fold (rateLimitKey request).
  rewrite bind_run, Hadm, Hbody. cbn [negb].
  rewrite bind_run, bookingFindUniqueByKey_run. cbn [fst snd].
  destruct (rateLimit_world env (rateLimitKey request) RateLimit.RATE_LIMITS_booking w)
    as (_ & _ & Ht).
  pose proof (rateLimit_bookings env (rateLimitKey request)
                RateLimit.RATE_LIMITS_booking w) as Hb.
  set (w1 := snd (RateLimit.rateLimit env (rateLimitKey request)
                    RateLimit.RATE_LIMITS_booking w)) in *.
  rewrite (bookingByKey_bookings _ w w1 Hb), Hfind.
  cbn [fst snd ret bookings set_trace trace].
  split; [reflexivity|]. split; [exact Hb|].
  rewrite Ht, <- app_assoc. reflexivity.
Qed.

Lemma commitWorld_bookings env request data w :
  bookings (commitWorld env request data w) = bookings w.
Proof.
  unfold commitWorld. rewrite eventTypeFindUnique_run, bookingFindUniqueByKey_run.
  cbn [fst snd bookings set_trace]. apply rateLimit_bookings.
Qed.

Lemma POST_reaches_commit env request data eventType w :
  allowed env request w -> body request = Valid data ->
  bookingByKey (deriveIdempotencyKey env data) w = None ->
  eventTypeById (eventTypeId data) w = Some eventType ->
  EventType.isActive eventType = true ->
  POST env request w = commit env data eventType (commitWorld env request data w).
Proof.
  unfold allowed, POST, commitWorld. intros Hadm Hbody Hfind Het Hact.
  fold (rateLimitKey request).
  rewrite bind_run, Hadm, Hbody. cbn [negb].
  rewrite bind_run, bookingFindUniqueByKey_run. cbn [fst snd].
  destruct (rateLimit_world env (rateLimitKey request) RateLimit.RATE_LIMITS_booking w)
    as ((_ & _ & Hets & _ & Hb & _) & _ & _).
  cbn [bookings eventTypes set_rateLimitStore] in Hb, Hets.
  set (w1 := snd (RateLimit.rateLimit env (rateLimitKey request)
                    RateLimit.RATE_LIMITS_booking w)) in *.
  rewrite (bookingByKey_bookings _ w w1 Hb), Hfind.
  rewrite bind_run, !eventTypeFindUnique_run. cbn [fst snd].
  replace (eventTypeById (eventTypeId data)
             (set_trace w1 (trace w1 ++ [BookingFindUniqueByKey
                                           (deriveIdempotencyKey env data)])))
    with (eventTypeById (eventTypeId data) w)
    by (unfold eventTypeById; cbn [eventTypes set_trace]; now rewrite Hets).
  rewrite Het, Hact. reflexivity.
Qed.

(** *** The commit path *)

Lemma sameBooking_refl b : sameBooking b b.
Proof. unfold sameBooking. tauto. Qed.

Lemma tryCalendarEvent_bookings env booking calendar account w :
  exists f : Booking.t -> Booking.t,
    (forall b, sameBooking b (f b))
    /\ bookings (snd (tryCalendarEvent env booking calendar account w))
       = map f (bookings w).
Proof.
  unfold tryCalendarEvent. rewrite bind_run.
  destruct (frames_createCalendarEvent env (ConnectedAccount.id account)
              (Calendar.googleCalendarId calendar) w) as (_ & _ & _ & _ & Hb & _).
  set (w1 := snd (GoogleCalendar.createCalendarEvent env _ _ w)) in *.
  destruct (fst (GoogleCalendar.createCalendarEvent env _ _ w)) as [[eventId url]|e].
  - exists (fun b => if String.eqb (Booking.id b) (Booking.id booking)
                     then Booking.set_google b eventId
                            (Calendar.googleCalendarId calendar) url
                     else b).
    split.
    + intros b. destruct (String.eqb _ _); unfold sameBooking; simpl; tauto.
    + unfold bookingUpdateGoogle. rewrite !bind_run.
      cbn [fst snd ret emit bookings set_bookings set_trace]. now rewrite Hb.
  - exists (fun b => b). split; [apply sameBooking_refl|].
    rewrite !bind_run, map_id. exact Hb.
Qed.

Lemma trySendEmails_bookings env booking w :
  bookings (snd (trySendEmails env booking w)) = bookings w.
Proof.
  unfold trySendEmails. rewrite bind_run. now destruct (sendEmails env).
Qed.

Lemma bookingCreate_run env data w :
  bookingCreate env data w
  = let w1 := set_trace w (trace w ++ [BookingCreate (Booking.uid data)]) in
    if uniqueViolation env (bookings w) data
    then (Rejected (JsError.mk (Some "P2002"%string) "Unique constraint failed"), w1)
    else (Fulfilled data, set_bookings w1 (bookings w ++ [data])).
Proof.
  unfold bookingCreate, bind, emit, gets, ret. cbn [bookings set_trace].
  now destruct (uniqueViolation env (bookings w) data).
Qed.

(** What [commit] answers, by the three things that decide it. *)
Lemma commit_cases env data eventType w :
  let check := preCommitCheck env data eventType w in
  let row := newBooking env data eventType in
  let run := commit env data eventType w in
  bookings (snd check) = bookings w
  /\ (fst check = false -> fst run = slotTaken /\ bookings (snd run) = bookings w)
  /\ (fst check = true ->
       destinationCalendars (eventTypeId data) (snd check) = [] ->
       status (fst run) = 500 /\ bookings (snd run) = bookings w)
  /\ (fst check = true ->
       destinationCalendars (eventTypeId data) (snd check) <> [] ->
       uniqueViolation env (bookings w) row = true ->
       fst run = slotTaken /\ bookings (snd run) = bookings w)
  /\ (fst check = true ->
       destinationCalendars (eventTypeId data) (snd check) <> [] ->
       uniqueViolation env (bookings w) row = false ->
       (exists url, fst run = mkResponse 201 (SuccessBody (Booking.uid row)
                                 (Booking.startTime row) (Booking.endTime row) url))
       /\ (exists f : Booking.t -> Booking.t,
             (forall b, sameBooking b (f b))
             /\ bookings (snd run) = map f (bookings w ++ [row]))).
Proof.
  intros check row run.
  destruct (frames_isSlotAvailable env (eventTypeId data)
              (Date_parse env (startTime data))
              (DateFns.addMinutes (Date_parse env (startTime data))
                 (EventType.duration eventType)) w) as (_ & _ & _ & _ & Hb & _).
  fold (preCommitCheck env data eventType w) in Hb. fold check in Hb.
  split; [exact Hb|].
  unfold run, commit. rewrite bind_run.
  fold (preCommitCheck env data eventType w). fold check. fold row.
  clearbody check row. clear run.
  destruct (fst check).
  2: { cbn [negb ret fst snd]. repeat split; try discriminate; auto. }
  cbn [negb]. rewrite bind_run. cbn [gets fst snd].
  destruct (destinationCalendars (eventTypeId data) (snd check))
    as [|[destinationCalendar connectedAccount] others].
  { cbn [ret fst snd]. repeat split; try discriminate; auto; try congruence. }
  rewrite bind_run, bookingCreate_run. cbv zeta. rewrite Hb.
  destruct (uniqueViolation env (bookings w) row).
  - cbn [fst snd]. rewrite !bind_run. cbn.
    repeat split; try discriminate; auto; try congruence.
  - cbn [fst snd]. rewrite !bind_run. cbn [ret fst snd].
    split; [discriminate|]. split; [congruence|]. split; [discriminate|].
    intros _ _ _.
    match goal with
    | |- context [tryCalendarEvent env row destinationCalendar connectedAccount ?w2] =>
        destruct (tryCalendarEvent_bookings env row destinationCalendar
                    connectedAccount w2) as (f & Hf & Hshape);
        set (w3 := snd (tryCalendarEvent env row destinationCalendar connectedAccount w2))
          in *;
        assert (Hw2 : bookings w2 = bookings w ++ [row])
          by reflexivity
    end.
    rewrite trySendEmails_bookings.
    split; [eexists; reflexivity|].
    exists f. split; [exact Hf|]. now rewrite Hshape, Hw2.
Qed.

(** C1. For a request that has passed the rate limiter, validation, the
    idempotency lookup and the event-type check, the answer is 409 exactly
    when the pre-commit [isSlotAvailable] returns false, or when the insert
    is reached and a unique index rejects the row (P2002); and with a 409
    the bookings are as they were before the request. *)
Theorem C1_slot_taken_exactly_two_ways (env : Env) (request : Request)
    (data : BookingInput) (eventType : EventType.t) (w : World) :
  allowed env request w -> body request = Valid data ->
  bookingByKey (deriveIdempotencyKey env data) w = None ->
  eventTypeById (eventTypeId data) w = Some eventType ->
  EventType.isActive eventType = true ->
  let w0 := commitWorld env request data w in
  let row := newBooking env data eventType in
  let run := POST env request w in
  (status (fst run) = 409 <->
     fst (preCommitCheck env data eventType w0) = false
     \/ (insertAttempted env data eventType w0
         /\ uniqueViolation env (bookings w) row = true))
  /\ (status (fst run) = 409 ->
       fst run = slotTaken /\ bookings (snd run) = bookings w).
Proof.
  intros Hadm Hbody Hfind Het Hact w0 row run.
  unfold run. rewrite (POST_reaches_commit env request data eventType w); auto.
  fold w0. unfold insertAttempted.
  destruct (commit_cases env data eventType w0) as (_ & Hno & Hdest & Htaken & Hok).
  fold row in Htaken, Hok.
  replace (bookings w0) with (bookings w) in *
    by (symmetry; apply commitWorld_bookings).
  destruct (fst (preCommitCheck env data eventType w0)).
  2: { destruct (Hno eq_refl) as [-> Hrows]. split; [|auto]. split; auto. }
  destruct (destinationCalendars (eventTypeId data)
              (snd (preCommitCheck env data eventType w0))) as [|d ds] eqn:Hd.
  { destruct (Hdest eq_refl eq_refl) as [H500 _]. rewrite H500.
    split; [|discriminate]. split; [discriminate|].
    intros [?|[[_ ?] _]]; [discriminate | contradiction]. }
  destruct (uniqueViolation env (bookings w) row).
  - destruct (Htaken eq_refl ltac:(discriminate) eq_refl) as [-> Hrows].
    split; [|auto]. split; [|reflexivity]. intros _. right.
    repeat split; discriminate.
  - destruct (Hok eq_refl ltac:(discriminate) eq_refl) as ((url & ->) & _).
    cbn [status fst]. split; [|discriminate]. split; [discriminate|].
    intros [?|[_ ?]]; discriminate.
Qed.

Lemma C1_slot_taken_exactly_two_ways_witness :
  let w := Scenario.world (Scenario.eventType 30 true false) (Scenario.booking CONFIRMED) in
  let env := Scenario.env (Scenario.at_ 9 40) (Scenario.at_ 10 15) in
  let request := Scenario.request None in
  (allowed env request w
   /\ eventTypeById "evt1" w = Some (Scenario.eventType 30 true false))
  /\ status (fst (POST env request w)) = 409
  /\ bookings (snd (POST env request w)) = bookings w.
Proof.
  intros w env request.
  assert (Hadm : allowed env request w) by reflexivity.
  pose proof (C1_slot_taken_exactly_two_ways env request (Scenario.input None)
                (Scenario.eventType 30 true false) w Hadm eq_refl eq_refl eq_refl eq_refl)
    as [Hiff Hrows].
  assert (H409 : status (fst (POST env request w)) = 409).
  { apply Hiff. left. vm_compute. reflexivity. }
  split; [now split|]. split; [exact H409 | exact (proj2 (Hrows H409))].
Defined.

(** C8. Once the insert of a commit has succeeded, the answer is 201 with
    the uid, start and end of the new row, and the row is stored with the
    status it was given (PENDING when the event type requires
    confirmation, CONFIRMED otherwise), together with every row stored
    before: whatever the creation of the calendar event, the token
    refresh it may need, and the two mails do (they are part of [env]). *)
Theorem C8_post_commit_failures_keep_booking (env : Env) (request : Request)
    (data : BookingInput) (eventType : EventType.t) (w : World) :
  allowed env request w -> body request = Valid data ->
  bookingByKey (deriveIdempotencyKey env data) w = None ->
  eventTypeById (eventTypeId data) w = Some eventType ->
  EventType.isActive eventType = true ->
  insertAttempted env data eventType (commitWorld env request data w) ->
  uniqueViolation env (bookings w) (newBooking env data eventType) = false ->
  let row := newBooking env data eventType in
  let run := POST env request w in
  status (fst run) = 201
  /\ (exists url, json (fst run) = SuccessBody (Booking.uid row) (Booking.startTime row)
                                     (Booking.endTime row) url)
  /\ (exists stored, In stored (bookings (snd run))
        /\ Booking.uid stored = Booking.uid row
        /\ Booking.startTime stored = Booking.startTime row
        /\ Booking.endTime stored = Booking.endTime row
        /\ Booking.status stored
           = if EventType.requiresConfirmation eventType then PENDING else CONFIRMED)
  /\ keepsRows w (snd run).
Proof.
  intros Hadm Hbody Hfind Het Hact [Havail Hdest] Huniq row run.
  unfold run. rewrite (POST_reaches_commit env request data eventType w); auto.
  destruct (commit_cases env data eventType (commitWorld env request data w))
    as (_ & _ & _ & _ & Hok).
  rewrite commitWorld_bookings in Hok.
  destruct (Hok Havail Hdest Huniq) as ((url & ->) & (f & Hf & Hshape)).
  split; [reflexivity|]. split; [exists url; reflexivity|]. split.
  - exists (f row). destruct (Hf row) as (_ & Huid & Hst & Hen & Hstatus & _).
    fold row in Hshape. rewrite Hshape. repeat split; auto.
    apply in_map, in_app_iff. right. now left.
  - intros old Hold. exists (f old). split; [|apply Hf].
    fold row in Hshape. rewrite Hshape. apply in_map, in_app_iff. now left.
Qed.

Lemma C8_post_commit_failures_keep_booking_witness :
  let w := Scenario.world (Scenario.eventType 30 true true) (Scenario.booking CANCELLED) in
  let env := Scenario.envOutage (Scenario.at_ 9 40) (Scenario.at_ 10 15) in
  let request := Scenario.request (Some "key-2"%string) in
  (allowed env request w /\ eventsInsert env "acct1" "primary" = None
   /\ sendEmails env = false)
  /\ status (fst (POST env request w)) = 201
  /\ exists stored, In stored (bookings (snd (POST env request w)))
       /\ Booking.uid stored = "uid-2"%string /\ Booking.status stored = PENDING.
Proof.
  intros w env request.
  assert (Hadm : allowed env request w) by reflexivity.
  assert (Hins : insertAttempted env (Scenario.input (Some "key-2"%string))
                   (Scenario.eventType 30 true true)
                   (commitWorld env request (Scenario.input (Some "key-2"%string)) w)).
  { split; [vm_compute; reflexivity | vm_compute; discriminate]. }
  pose proof (C8_post_commit_failures_keep_booking env request
                (Scenario.input (Some "key-2"%string)) (Scenario.eventType 30 true true) w
                Hadm eq_refl eq_refl eq_refl eq_refl Hins eq_refl)
    as (H201 & _ & (stored & Hin & Huid & _ & _ & Hst) & _).
  split; [repeat split|]. split; [exact H201|].
  exists stored. repeat split; assumption.
Defined.

Lemma POST_supplied_key_hit env request data k b w :
  allowed env request w -> body request = Valid data ->
  idempotencyKey data = Some k ->
  uniqueKeys (bookings w) -> storedKeysTruthy (bookings w) ->
  In b (bookings w) -> Booking.idempotencyKey b = Some k ->
  deriveIdempotencyKey env data = k
  /\ fst (POST env request w) = prior b
  /\ bookings (snd (POST env request w)) = bookings w
  /\ trace (snd (POST env request w))
     = trace w ++ [RateLimitCheck (rateLimitKey request); BookingFindUniqueByKey k].
Proof.
  intros Hadm Hbody Hk Hu Ht Hin Hb.
  assert (Hne : k <> EmptyString) by (intros ->; now apply (Ht b Hin)).
  pose proof (derive_supplied env data k Hk Hne) as Hd.
  split; [exact Hd|]. rewrite <- Hd.
  apply (POST_idempotent_hit env request data b w Hadm Hbody).
  rewrite Hd. unfold bookingByKey. now apply find_unique_key.
Qed.

(** C6. A request whose idempotency key is that of a stored booking is
    answered with that booking (uid, start, end, meeting link) and adds no
    row; repeated any number of times, under any clocks, every answer is
    that booking (or the rate limiter's 429) and the bookings stay as they
    were. Without a key the server derives one by hashing the event type
    id, the requested start, the guest email and the clock in
    milliseconds. *)
Theorem C6_idempotent_replay (env : Env) (request : Request) (data : BookingInput)
    (k : string) (b : Booking.t) (w : World) :
  body request = Valid data -> idempotencyKey data = Some k ->
  uniqueKeys (bookings w) -> storedKeysTruthy (bookings w) ->
  In b (bookings w) -> Booking.idempotencyKey b = Some k ->
  (allowed env request w ->
     fst (POST env request w) = prior b
     /\ bookings (snd (POST env request w)) = bookings w)
  /\ (forall envs,
        Forall (fun r => r = prior b \/ status r = 429) (fst (replay envs request w))
        /\ bookings (snd (replay envs request w)) = bookings w)
  /\ (forall data', idempotencyKey data' = None ->
        deriveIdempotencyKey env data'
        = hashString env (eventTypeId data' ++ ":" ++ startTime data' ++ ":"
                          ++ attendeeEmail data' ++ ":" ++ Z_to_string (now env))%string).
Proof.
  intros Hbody Hk Hu Ht Hin Hb. split; [|split].
  - intros Hadm.
    destruct (POST_supplied_key_hit env request data k b w) as (_ & Hr & Hrows & _); auto.
  - intros envs. revert w Hu Ht Hin.
    induction envs as [|env' envs IH]; intros w Hu Ht Hin.
    + simpl. split; [constructor | reflexivity].
    + change (replay (env' :: envs) request)
        with (bind (POST env' request) (fun r =>
                bind (replay envs request) (fun rs => ret (r :: rs)))).
      rewrite !bind_run. cbn [fst snd ret].
      assert (Hstep : (fst (POST env' request w) = prior b
                       \/ status (fst (POST env' request w)) = 429)
                      /\ bookings (snd (POST env' request w)) = bookings w).
      { unfold allowed in *.
        destruct (RateLimit.success (fst (RateLimit.rateLimit env' (rateLimitKey request)
                    RateLimit.RATE_LIMITS_booking w))) eqn:Hadm.
        - destruct (POST_supplied_key_hit env' request data k b w)
            as (_ & Hr & Hrows & _); auto.
        - destruct (POST_rate_limited env' request w) as [H429 Hrows]; auto.
          unfold allowed. rewrite Hadm. discriminate. }
      destruct Hstep as [Hr Hrows].
      destruct (IH (snd (POST env' request w))) as [Hall Hkeep];
        try (rewrite Hrows; assumption).
      split; [constructor; assumption | congruence].
  - intros data' Hnone. unfold deriveIdempotencyKey. now rewrite Hnone.
Qed.

Lemma C6_idempotent_replay_witness :
  let b := Scenario.booking CONFIRMED in
  let w := Scenario.world (Scenario.eventType 30 true false) b in
  let env := Scenario.env (Scenario.at_ 9 40) (Scenario.at_ 10 15) in
  let request := Scenario.request (Some "key-1"%string) in
  (allowed env request w /\ In b (bookings w))
  /\ fst (POST env request w) = prior b
  /\ bookings (snd (replay [env; env; env] request w)) = [b].
Proof.
  intros b w env request.
  assert (Hadm : allowed env request w) by reflexivity.
  assert (Hin : In b (bookings w)) by now left.
  assert (Hu : uniqueKeys (bookings w)).
  { intros b1 b2 k [<-|[]] [<-|[]] _ _. reflexivity. }
  assert (Ht : storedKeysTruthy (bookings w)).
  { intros b1 [<-|[]]. discriminate. }
  pose proof (C6_idempotent_replay env request (Scenario.input (Some "key-1"%string))
                "key-1" b w eq_refl eq_refl Hu Ht Hin eq_refl) as (Hone & Hmany & _).
  split; [now split|]. split.
  - exact (proj1 (Hone Hadm)).
  - exact (proj2 (Hmany [env; env; env])).
Defined.

(** C10. On a key that matches a stored booking the handler answers with
    that booking, status 200, after exactly two effects: the rate-limit
    check and the lookup by key. The event type is not loaded, nothing of
    the availability check runs, no row is written. Nothing is assumed of
    the status of the booking or of the event type: the booking may be
    CANCELLED, the event type inactive or gone. *)
Theorem C10_idempotent_hit_precedes_checks (env : Env) (request : Request)
    (data : BookingInput) (k : string) (b : Booking.t) (w : World) :
  allowed env request w -> body request = Valid data ->
  idempotencyKey data = Some k ->
  uniqueKeys (bookings w) -> storedKeysTruthy (bookings w) ->
  In b (bookings w) -> Booking.idempotencyKey b = Some k ->
  fst (POST env request w) = prior b
  /\ status (fst (POST env request w)) = 200
  /\ trace (snd (POST env request w))
     = trace w ++ [RateLimitCheck (rateLimitKey request); BookingFindUniqueByKey k]
  /\ bookings (snd (POST env request w)) = bookings w.
Proof.
  intros Hadm Hbody Hk Hu Ht Hin Hb.
  destruct (POST_supplied_key_hit env request data k b w) as (_ & Hr & Hrows & Htr); auto.
  rewrite Hr. auto.
Qed.

Lemma C10_idempotent_hit_precedes_checks_witness :
  let b := Scenario.booking CANCELLED in
  let w := Scenario.world (Scenario.eventType 30 false false) b in
  let env := Scenario.env (Scenario.at_ 9 40) (Scenario.at_ 10 15) in
  let request := Scenario.request (Some "key-1"%string) in
  (allowed env request w /\ Booking.status b = CANCELLED
   /\ option_map EventType.isActive (eventTypeById "evt1" w) = Some false)
  /\ fst (POST env request w) = prior b
  /\ bookings (snd (POST env request w)) = [b].
Proof.
  intros b w env request.
  assert (Hadm : allowed env request w) by reflexivity.
  assert (Hu : uniqueKeys (bookings w)).
  { intros b1 b2 k [<-|[]] [<-|[]] _ _. reflexivity. }
  assert (Ht : storedKeysTruthy (bookings w)).
  { intros b1 [<-|[]]. discriminate. }
  pose proof (C10_idempotent_hit_precedes_checks env request
                (Scenario.input (Some "key-1"%string)) "key-1" b w
                Hadm eq_refl eq_refl Hu Ht (or_introl eq_refl) eq_refl)
    as (Hr & _ & _ & Hrows).
  split; [repeat split|]. split; [exact Hr | exact Hrows].
Defined.

(** *** The two properties of stored keys are invariants of the handler *)

Lemma POST_rejects_early env request w :
  allowed env request w ->
  match body request with
  | Malformed | Invalid => True
  | Valid data =>
      bookingByKey (deriveIdempotencyKey env data) w = None
      /\ match eventTypeById (eventTypeId data) w with
         | None => True
         | Some eventType => EventType.isActive eventType = false
         end
  end ->
  bookings (snd (POST env request w)) = bookings w.
Proof.
  unfold allowed, POST. intros Hadm Hcase.
  fold (rateLimitKey request). rewrite bind_run, Hadm. cbn [negb].
  destruct (rateLimit_world env (rateLimitKey request) RateLimit.RATE_LIMITS_booking w)
    as ((_ & _ & Hets & _ & Hb & _) & _ & _).
  cbn [bookings eventTypes set_rateLimitStore] in Hb, Hets.
  set (w1 := snd (RateLimit.rateLimit env (rateLimitKey request)
                    RateLimit.RATE_LIMITS_booking w)) in *.
  destruct (body request) as [| |data]; [rewrite bind_run; exact Hb | exact Hb |].
  destruct Hcase as [Hfind Het].
  rewrite bind_run, bookingFindUniqueByKey_run. cbn [fst snd].
  rewrite (bookingByKey_bookings _ w w1 Hb), Hfind.
  rewrite bind_run, !eventTypeFindUnique_run. cbn [fst snd].
  replace (eventTypeById (eventTypeId data)
             (set_trace w1 (trace w1 ++ [BookingFindUniqueByKey
                                           (deriveIdempotencyKey env data)])))
    with (eventTypeById (eventTypeId data) w)
    by (unfold eventTypeById; cbn [eventTypes set_trace]; now rewrite Hets).
  destruct (eventTypeById (eventTypeId data) w) as [eventType|]; [rewrite Het|]; exact Hb.
Qed.

(** After a request the bookings are as before, or they are the earlier
    rows and the new one, up to what the calendar update writes. *)
Lemma POST_bookings_shape env request w :
  bookings (snd (POST env request w)) = bookings w
  \/ exists data eventType (f : Booking.t -> Booking.t),
       body request = Valid data
       /\ uniqueViolation env (bookings w) (newBooking env data eventType) = false
       /\ (forall b, sameBooking b (f b))
       /\ bookings (snd (POST env request w))
          = map f (bookings w ++ [newBooking env data eventType]).
Proof.
  destruct (RateLimit.success (fst (RateLimit.rateLimit env (rateLimitKey request)
              RateLimit.RATE_LIMITS_booking w))) eqn:Hadm.
  2: { left. apply POST_rate_limited. unfold allowed. rewrite Hadm. discriminate. }
  destruct (body request) as [| |data] eqn:Hbody;
    [left; apply POST_rejects_early; [exact Hadm | now rewrite Hbody].. |].
  destruct (bookingByKey (deriveIdempotencyKey env data) w) as [b|] eqn:Hfind.
  { left. now apply (POST_idempotent_hit env request data b w). }
  destruct (eventTypeById (eventTypeId data) w) as [eventType|] eqn:Het.
  2: { left. apply POST_rejects_early; [exact Hadm|]. now rewrite Hbody, Hfind, Het. }
  destruct (EventType.isActive eventType) eqn:Hact.
  2: { left. apply POST_rejects_early; [exact Hadm|]. now rewrite Hbody, Hfind, Het. }
  rewrite (POST_reaches_commit env request data eventType w); auto.
  destruct (commit_cases env data eventType (commitWorld env request data w))
    as (_ & Hno & Hdest & Htaken & Hok).
  rewrite commitWorld_bookings in *.
  destruct (fst (preCommitCheck env data eventType (commitWorld env request data w))).
  2: { left. now apply Hno. }
  destruct (destinationCalendars (eventTypeId data)
              (snd (preCommitCheck env data eventType (commitWorld env request data w))))
    as [|d ds] eqn:Hd.
  { left. now apply Hdest. }
  destruct (uniqueViolation env (bookings w) (newBooking env data eventType)) eqn:Hu.
  - left. apply Htaken; auto; discriminate.
  - right. destruct (Hok eq_refl ltac:(discriminate) eq_refl) as (_ & f & Hf & Hshape).
    exists data, eventType, f. auto.
Qed.

Lemma derive_truthy env data :
  (forall s, hashString env s <> EmptyString) ->
  deriveIdempotencyKey env data <> EmptyString.
Proof.
  intros Hhash. unfold deriveIdempotencyKey.
  destruct (idempotencyKey data) as [[|c k]|]; simpl; auto; discriminate.
Qed.

Lemma POST_keeps_key_invariants env request w :
  (forall s, hashString env s <> EmptyString) ->
  (forall rows b k r, uniqueViolation env rows b = false ->
     Booking.idempotencyKey b = Some k -> In r rows -> Booking.idempotencyKey r <> Some k) ->
  uniqueKeys (bookings w) -> storedKeysTruthy (bookings w) ->
  uniqueKeys (bookings (snd (POST env request w)))
  /\ storedKeysTruthy (bookings (snd (POST env request w))).
Proof.
  intros Hhash Hindex Hu Ht.
  destruct (POST_bookings_shape env request w)
    as [->|(data & eventType & f & _ & Hfree & Hf & ->)]; [now split|].
  set (row := newBooking env data eventType) in *.
  assert (Hkey : forall b, Booking.idempotencyKey (f b) = Booking.idempotencyKey b)
    by (intros b; now destruct (Hf b) as (_ & _ & _ & _ & _ & H)).
  split.
  - intros b1' b2' k H1 H2 K1 K2.
    apply in_map_iff in H1 as (b1 & <- & H1). apply in_map_iff in H2 as (b2 & <- & H2).
    rewrite Hkey in K1, K2. f_equal.
    apply in_app_iff in H1 as [H1|[<-|[]]]; apply in_app_iff in H2 as [H2|[<-|[]]].
    + now apply (Hu b1 b2 k).
    + now destruct (Hindex _ _ _ b1 Hfree K2 H1).
    + now destruct (Hindex _ _ _ b2 Hfree K1 H2).
    + reflexivity.
  - intros b' H K. apply in_map_iff in H as (b & <- & H). rewrite Hkey in K.
    apply in_app_iff in H as [H|[<-|[]]]; [now apply (Ht b)|].
    injection K as K. now apply (derive_truthy env data Hhash).
Qed.

End BookingFacts.

(** ** More on the interval algebra of [src/lib/availability.ts] *)

Module MergeFacts.
Import DateFns Availability IntervalSpec IntervalFacts.

Lemma isSlotBusy_Exists slotStart slotEnd blocks bufferBefore bufferAfter :
  slotStart < slotEnd -> 0 <= bufferBefore -> 0 <= bufferAfter -> Forall wfBlock blocks ->
  isSlotBusy slotStart slotEnd blocks bufferBefore bufferAfter = true
  <-> exists t, slotStart - bufferBefore * 60000 <= t < slotEnd + bufferAfter * 60000
                /\ Exists (inBlock t) blocks.
Proof.
  intros Hs Hb Ha Hwf. unfold isSlotBusy. rewrite existsb_exists.
  rewrite List.Forall_forall in Hwf. split.
  - intros (B & HB & Hov).
    apply (proj1 (overlap_conflicts _ _ _ _ B Hs Hb Ha (Hwf B HB))) in Hov.
    destruct Hov as (t & Ht & HtB). exists t. split; auto.
    apply List.Exists_exists. eauto.
  - intros (t & Ht & Hex). apply List.Exists_exists in Hex. destruct Hex as (B & HB & HtB).
    exists B. split; auto.
    apply (proj2 (overlap_conflicts _ _ _ _ B Hs Hb Ha (Hwf B HB))).
    exists t. auto.
Qed.

(** X1: merging is invisible to the overlap test.  For a slot that ends
    after it starts, buffers that are not negative and blocks that end
    after they start, [isSlotBusy] answers the same on the merged list as
    on the list it was merged from. *)
Theorem isSlotBusy_mergeBusyBlocks (slotStart slotEnd : Z) (blocks : list BusyBlock.t)
    (bufferBefore bufferAfter : Z) :
  slotStart < slotEnd -> 0 <= bufferBefore -> 0 <= bufferAfter ->
  Forall wfBlock blocks ->
  isSlotBusy slotStart slotEnd (mergeBusyBlocks blocks) bufferBefore bufferAfter
  = isSlotBusy slotStart slotEnd blocks bufferBefore bufferAfter.
Proof.
  intros Hs Hb Ha Hwf.
  apply eq_true_iff_eq.
  rewrite !isSlotBusy_Exists; auto.
  - split; intros (t & Ht & Hex); exists t; split; auto; apply mergeBusyBlocks_cover; auto.
  - apply mergeBusyBlocks_apart; auto.
Qed.

Lemma isSlotBusy_mergeBusyBlocks_witness :
  let blocks := [BusyBlock.mk 600 660 "cal2"; BusyBlock.mk 540 600 "cal1"] in
  (Forall wfBlock blocks /\ (0 < 60000))
  /\ isSlotBusy 0 60000 (mergeBusyBlocks blocks) 0 0 = isSlotBusy 0 60000 blocks 0 0.
Proof.
  split.
  - split; [repeat constructor | lia].
  - apply (isSlotBusy_mergeBusyBlocks 0 60000
             [BusyBlock.mk 600 660 "cal2"; BusyBlock.mk 540 600 "cal1"] 0 0);
      [lia | lia | lia | repeat constructor].
Defined.

Lemma sortByStart_sorted_id l : StronglySorted startLt l -> sortByStart l = l.
Proof.
  induction 1 as [|x t Hs IH Hx]; [reflexivity|].
  unfold sortByStart in *. cbn [foldr]. rewrite IH.
  destruct t as [|y t']; [reflexivity|]. cbn [insertByStart].
  apply Forall_cons in Hx. destruct Hx as [Hxy _]. unfold startLt in Hxy.
  destruct (BusyBlock.start y <? BusyBlock.start x) eqn:E; [|reflexivity].
  apply Z.ltb_lt in E. lia.
Qed.

Lemma coalesce_apart_id rest : forall lst,
  StronglySorted apart (lst :: rest) -> coalesce lst rest = lst :: rest.
Proof.
  induction rest as [|current rest IH]; intros lst Hs; [reflexivity|].
  apply StronglySorted_inv in Hs. destruct Hs as [Hrest Hlst].
  cbn [coalesce].
  apply Forall_cons in Hlst. destruct Hlst as [Hap _]. unfold apart in Hap.
  destruct (BusyBlock.start current <=? BusyBlock.end_ lst) eqn:E.
  - apply Z.leb_le in E. lia.
  - f_equal. apply IH. exact Hrest.
Qed.

(** X2: merging a merged list changes nothing, for blocks that end after
    they start. *)
Theorem mergeBusyBlocks_idempotent (blocks : list BusyBlock.t) :
  Forall wfBlock blocks ->
  mergeBusyBlocks (mergeBusyBlocks blocks) = mergeBusyBlocks blocks.
Proof.
  intros Hwf.
  destruct (mergeBusyBlocks_apart blocks Hwf) as [Hap Hwf'].
  pose proof (apart_startLt _ Hap Hwf') as Hlt.
  rewrite (mergeBusyBlocks_coalesce (mergeBusyBlocks blocks)).
  rewrite sortByStart_sorted_id by exact Hlt.
  destruct (mergeBusyBlocks blocks) as [|first rest]; [reflexivity|].
  apply coalesce_apart_id. exact Hap.
Qed.

Lemma mergeBusyBlocks_idempotent_witness :
  let blocks := [BusyBlock.mk 600 660 "cal2"; BusyBlock.mk 540 600 "cal1"] in
  Forall wfBlock blocks
  /\ mergeBusyBlocks (mergeBusyBlocks blocks) = mergeBusyBlocks blocks.
Proof.
  split.
  - repeat constructor.
  - apply (mergeBusyBlocks_idempotent
             [BusyBlock.mk 600 660 "cal2"; BusyBlock.mk 540 600 "cal1"]).
    repeat constructor.
Defined.

Lemma insertByStart_length x l : length (insertByStart x l) = S (length l).
Proof.
  induction l as [|y t IH]; [reflexivity|]. cbn [insertByStart].
  destruct (BusyBlock.start y <? BusyBlock.start x); cbn [length]; [rewrite IH|]; reflexivity.
Qed.

Lemma sortByStart_length l : length (sortByStart l) = length l.
Proof.
  induction l as [|x t IH]; [reflexivity|].
  unfold sortByStart in *. cbn [foldr]. rewrite insertByStart_length, IH. reflexivity.
Qed.

Lemma coalesce_length rest : forall lst, (length (coalesce lst rest) <= S (length rest))%nat.
Proof.
  induction rest as [|current rest IH]; intros lst; cbn [coalesce length]; [lia|].
  destruct (BusyBlock.start current <=? BusyBlock.end_ lst).
  - specialize (IH (extend lst current)). lia.
  - cbn [length]. specialize (IH current). lia.
Qed.

Lemma coalesce_endpoints rest : forall lst m,
  In m (coalesce lst rest) ->
  (exists a, In a (lst :: rest) /\ BusyBlock.start m = BusyBlock.start a
             /\ BusyBlock.calendarId m = BusyBlock.calendarId a)
  /\ (exists b, In b (lst :: rest) /\ BusyBlock.end_ m = BusyBlock.end_ b).
Proof.
  induction rest as [|current rest IH]; intros lst m Hin; cbn [coalesce] in Hin.
  - destruct Hin as [Heq|[]]. subst m. split; exists lst; cbn; auto.
  - destruct (BusyBlock.start current <=? BusyBlock.end_ lst).
    + destruct (IH _ _ Hin) as [(a & Ha & Hs & Hc) (b & Hb & He)]. split.
      * destruct Ha as [<-|Ha].
        -- exists lst. rewrite extend_start in Hs. split; [cbn; auto|]. split; [exact Hs|].
           rewrite Hc. unfold extend. destruct (_ >? _); reflexivity.
        -- exists a. cbn. auto.
      * destruct Hb as [<-|Hb].
        -- rewrite extend_end in He.
           destruct (Z.max_spec (BusyBlock.end_ lst) (BusyBlock.end_ current)) as [[_ Hm]|[_ Hm]];
             rewrite Hm in He; [exists current | exists lst]; cbn; auto.
        -- exists b. cbn. auto.
    + destruct Hin as [Heq|Hin].
      * subst m. split; exists lst; (split; [left; reflexivity | auto]).
      * destruct (IH _ _ Hin) as [(a & Ha & Hs & Hc) (b & Hb & He)].
        split; [exists a | exists b]; (split; [right; assumption | auto]).
Qed.

(** X3: merging never lengthens the list and invents no end point: every
    merged block starts where a given block starts, carries that block's
    calendar, and ends where a given block ends. *)
Theorem mergeBusyBlocks_conservative (blocks : list BusyBlock.t) :
  (length (mergeBusyBlocks blocks) <= length blocks)%nat
  /\ forall m, In m (mergeBusyBlocks blocks) ->
       (exists a, In a blocks /\ BusyBlock.start m = BusyBlock.start a
                  /\ BusyBlock.calendarId m = BusyBlock.calendarId a)
       /\ (exists b, In b blocks /\ BusyBlock.end_ m = BusyBlock.end_ b).
Proof.
  rewrite mergeBusyBlocks_coalesce.
  pose proof (sortByStart_length blocks) as Hlen.
  pose proof (sortByStart_perm blocks) as Hperm.
  destruct (sortByStart blocks) as [|first rest]; [cbn; split; [lia | intros m []]|].
  split.
  - pose proof (coalesce_length rest first). cbn [length] in Hlen. lia.
  - intros m Hin. destruct (coalesce_endpoints _ _ _ Hin) as [(a & Ha & Hs) (b & Hb & He)].
    split; [exists a | exists b]; split; auto; eapply Permutation_in; eauto.
Qed.

End MergeFacts.

(** ** The limiter of [src/lib/rate-limit.ts] *)

Module RateLimitFacts.
Import RateLimit RateLimitSpec.

Lemma rateLimit_opens env key options w :
  opensWindow env key w ->
  fst (rateLimit env key options w)
    = mkResult true (max options - 1) (now env + windowMs options)
  /\ rateLimitStore (snd (rateLimit env key options w))
     = <[key := RateLimitEntry.mk 1 (now env + windowMs options)]> (rateLimitStore w).
Proof.
  unfold opensWindow, rateLimit. intros H.
  rewrite !bind_run. cbn.
  destruct (rateLimitStore w !! key) as [entry|] eqn:E; cbn.
  - apply Z.leb_le in H. rewrite H. cbn. auto.
  - auto.
Qed.

Lemma rateLimit_counts env key options w count resetAt :
  rateLimitStore w !! key = Some (RateLimitEntry.mk count resetAt) ->
  now env < resetAt ->
  fst (rateLimit env key options w) = answerAt options resetAt (count + 1)
  /\ rateLimitStore (snd (rateLimit env key options w))
     = <[key := RateLimitEntry.mk (count + 1) resetAt]> (rateLimitStore w).
Proof.
  unfold rateLimit, answerAt. intros E H.
  rewrite !bind_run. cbn. rewrite E. cbn.
  destruct (resetAt <=? now env) eqn:E1; [apply Z.leb_le in E1; lia|].
  rewrite !bind_run. cbn.
  rewrite Z.gtb_ltb.
  destruct (max options <? count + 1) eqn:E2, (count + 1 <=? max options) eqn:E3;
    cbn; auto; lia.
Qed.

Lemma rateLimitEach_counts envs key options resetAt : forall w count,
  rateLimitStore w !! key = Some (RateLimitEntry.mk count resetAt) ->
  Forall (fun env => now env < resetAt) envs ->
  fst (rateLimitEach envs key options w)
  = imap (fun i _ => answerAt options resetAt (count + 1 + Z.of_nat i)) envs.
Proof.
  induction envs as [|env envs IH]; intros w count E Hall; [reflexivity|].
  apply Forall_cons in Hall. destruct Hall as [Hnow Hall].
  destruct (rateLimit_counts env key options w count resetAt E Hnow) as [Hr Hs].
  cbn [rateLimitEach]. rewrite !bind_run. cbn [ret fst snd].
  rewrite Hr. cbn [imap]. f_equal.
  - f_equal. lia.
  - rewrite (IH _ (count + 1)); auto.
    + apply imap_ext. intros i x _. cbn. f_equal. lia.
    + rewrite Hs. apply lookup_insert_eq.
Qed.

(** X4: within one window the calls are counted.  The call that opens the
    window succeeds with [max - 1] remaining; call number [n] of the
    window succeeds with [max - n] remaining while [n <= max] and fails
    with 0 remaining after that; every answer carries the end of the
    window as its reset time. *)
Theorem rateLimit_window (env0 : Env) (envs : list Env) (key : string)
    (options : Options) (w : World) :
  opensWindow env0 key w ->
  Forall (fun env => now env < now env0 + windowMs options) envs ->
  fst (rateLimitEach (env0 :: envs) key options w)
  = mkResult true (max options - 1) (now env0 + windowMs options)
    :: imap (fun i _ => answerAt options (now env0 + windowMs options) (Z.of_nat i + 2)) envs.
Proof.
  intros Hopen Hall.
  destruct (rateLimit_opens env0 key options w Hopen) as [Hr Hs].
  cbn [rateLimitEach]. rewrite !bind_run. cbn [ret fst snd].
  rewrite Hr. f_equal.
  rewrite (rateLimitEach_counts envs key options (now env0 + windowMs options) _ 1); auto.
  - apply imap_ext. intros i x _. cbn. f_equal. lia.
  - rewrite Hs. apply lookup_insert_eq.
Qed.

Lemma rateLimit_window_witness :
  let w := Scenario.world (Scenario.eventType 30 true false) (Scenario.booking CONFIRMED) in
  let clock := fun t => Scenario.env t 0 in
  let options := mkOptions 60000 2 in
  (opensWindow (clock 0) "k" w
   /\ Forall (fun env => now env < now (clock 0) + windowMs options) [clock 10; clock 59999])
  /\ fst (rateLimitEach [clock 0; clock 10; clock 59999] "k" options w)
     = [mkResult true 1 60000; mkResult true 0 60000; mkResult false 0 60000].
Proof.
  intros w clock options.
  assert (Hopen : opensWindow (clock 0) "k" w) by exact I.
  assert (Hall : Forall (fun env => now env < now (clock 0) + windowMs options)
                   [clock 10; clock 59999])
    by (repeat constructor).
  split; [split; assumption|].
  exact (rateLimit_window (clock 0) [clock 10; clock 59999] "k" options w Hopen Hall).
Defined.

End RateLimitFacts.

(** ** Which tables a computation writes, which effects it has *)

Module FrameFacts.
Import EffectSpec EffectFacts FrameSpec GoogleCalendar BookingsRoute.

Lemma sameCatalogue_refl w : sameCatalogue w w.
Proof. unfold sameCatalogue. tauto. Qed.

Lemma sameCatalogue_trans w1 w2 w3 :
  sameCatalogue w1 w2 -> sameCatalogue w2 w3 -> sameCatalogue w1 w3.
Proof. unfold sameCatalogue. intuition congruence. Qed.

Lemma steady_ret {A} (a : A) : steady (ret a).
Proof. intros w. apply sameCatalogue_refl. Qed.

Lemma steady_bind {A B} (m : M A) (k : A -> M B) :
  steady m -> (forall a, steady (k a)) -> steady (bind m k).
Proof.
  intros Hm Hk w. rewrite bind_run.
  eapply sameCatalogue_trans; [apply Hm | apply Hk].
Qed.

Lemma steady_frames {A} (m : M A) : frames m -> steady m.
Proof.
  intros H w. destruct (H w) as (? & ? & ? & ? & ? & ?).
  unfold sameCatalogue. auto.
Qed.

Lemma steady_set_bookings (f : World -> list Booking.t) :
  steady (fun w => (tt, set_bookings w (f w))).
Proof. intros w. unfold sameCatalogue. cbn. tauto. Qed.

Create HintDb steady.

Ltac steady_auto :=
  repeat first
    [ apply steady_ret | apply steady_set_bookings
    | solve [auto with steady]
    | solve [apply steady_frames; frames_auto]
    | apply steady_bind; [|intros ?]
    | match goal with |- steady (match ?x with _ => _ end) => destruct x end ].

Lemma steady_bookingCreate env data : steady (bookingCreate env data).
Proof. unfold bookingCreate. steady_auto. Qed.
#[export] Hint Resolve steady_bookingCreate : steady.

Lemma steady_bookingUpdateGoogle bookingId eventId calId url :
  steady (bookingUpdateGoogle bookingId eventId calId url).
Proof. unfold bookingUpdateGoogle. steady_auto. Qed.
#[export] Hint Resolve steady_bookingUpdateGoogle : steady.

Lemma steady_commit env data eventType : steady (commit env data eventType).
Proof.
  unfold commit, tryCalendarEvent, trySendEmails, console_error. steady_auto.
Qed.
#[export] Hint Resolve steady_commit : steady.

End FrameFacts.

(** ** More on [POST /api/bookings] *)

Module PostFacts.
Import EffectSpec EffectFacts FrameSpec FrameFacts RateLimit RateLimitSpec RateLimitFacts.
Import BookingsRoute BookingSpec BookingFacts.

Lemma commit_status env data eventType w :
  status (fst (commit env data eventType w)) = 409
  \/ status (fst (commit env data eventType w)) = 500
  \/ status (fst (commit env data eventType w)) = 201.
Proof.
  destruct (commit_cases env data eventType w) as (_ & H0 & H1 & H2 & H3).
  destruct (fst (preCommitCheck env data eventType w)) eqn:E.
  - destruct (destinationCalendars (eventTypeId data) (snd (preCommitCheck env data eventType w)))
      as [|d ds] eqn:Ed.
    + right. left. apply H1; auto.
    + destruct (uniqueViolation env (bookings w) (newBooking env data eventType)) eqn:Ev.
      * left. destruct H2 as [-> _]; [reflexivity | discriminate | reflexivity | reflexivity].
      * right. right.
        destruct H3 as [(url & ->) _]; [reflexivity | discriminate | reflexivity | reflexivity].
  - left. destruct H0 as [-> _]; reflexivity.
Qed.

(** The handler after the limiter has let the request through. *)
Lemma POST_after_limiter env request w :
  RateLimit.success (fst (rateLimit env (rateLimitKey request) RATE_LIMITS_booking w)) = true ->
  status (fst (POST env request w)) <> 429
  /\ sameCatalogue (snd (rateLimit env (rateLimitKey request) RATE_LIMITS_booking w))
       (snd (POST env request w)).
Proof.
  intros Hs. unfold POST. rewrite bind_run. fold (rateLimitKey request). rewrite Hs.
  cbn [negb].
  set (w1 := snd (rateLimit env (rateLimitKey request) RATE_LIMITS_booking w)).
  destruct (body request) as [| |data].
  - rewrite bind_run. cbn. split; [discriminate|]. unfold sameCatalogue. cbn. tauto.
  - cbn. split; [discriminate | apply sameCatalogue_refl].
  - rewrite bind_run, bookingFindUniqueByKey_run. cbn [fst snd].
    destruct (bookingByKey (deriveIdempotencyKey env data) w1) as [b|].
    + cbn. split; [discriminate|]. unfold sameCatalogue. cbn. tauto.
    + rewrite bind_run, eventTypeFindUnique_run. cbn [fst snd].
      set (w2 := set_trace (set_trace w1 _) _).
      assert (H12 : sameCatalogue w1 w2) by (unfold sameCatalogue; cbn; tauto).
      destruct (eventTypeById (eventTypeId data) (set_trace w1 _)) as [eventType|].
      * destruct (EventType.isActive eventType); cbn [negb].
        -- split.
           ++ destruct (commit_status env data eventType w2) as [H|[H|H]]; rewrite H; discriminate.
           ++ eapply sameCatalogue_trans; [exact H12 | apply steady_commit].
        -- cbn. split; [discriminate | exact H12].
      * cbn. split; [discriminate | exact H12].
Qed.

Lemma POST_limiter env request w :
  (status (fst (POST env request w)) = 429
   <-> RateLimit.success (fst (rateLimit env (rateLimitKey request) RATE_LIMITS_booking w)) = false)
  /\ rateLimitStore (snd (POST env request w))
     = rateLimitStore (snd (rateLimit env (rateLimitKey request) RATE_LIMITS_booking w)).
Proof.
  destruct (RateLimit.success (fst (rateLimit env (rateLimitKey request) RATE_LIMITS_booking w)))
    eqn:Hs.
  - destruct (POST_after_limiter env request w Hs) as [Hne Hc]. split.
    + split; [tauto | discriminate].
    + destruct Hc as (_ & _ & _ & _ & Hr). exact Hr.
  - unfold POST. rewrite bind_run. fold (rateLimitKey request). rewrite Hs. cbn.
    split; [tauto | reflexivity].
Qed.

Lemma serve_counts calls ip resetAt : forall w count,
  rateLimitStore w !! ("booking:" ++ ip)%string = Some (RateLimitEntry.mk count resetAt) ->
  Forall (fun call => now (fst call) < resetAt /\ BookingsRoute.ip (snd call) = ip) calls ->
  forall (i : nat) r, fst (serve calls w) !! i = Some r ->
    (status r = 429 <-> 10 < count + 1 + Z.of_nat i).
Proof.
  induction calls as [|[env request] calls IH]; intros w count E Hall i r Hi.
  - cbn in Hi. rewrite lookup_nil in Hi. discriminate.
  - apply Forall_cons in Hall. destruct Hall as [[Hnow Hip] Hall]. cbn [fst snd] in Hnow, Hip.
    cbn [serve] in Hi. rewrite !bind_run in Hi. cbn [ret fst snd] in Hi.
    assert (Hkey : rateLimitKey request = ("booking:" ++ ip)%string)
      by (unfold rateLimitKey; rewrite Hip; reflexivity).
    destruct (POST_limiter env request w) as [Hst Hstore]. rewrite Hkey in Hst, Hstore.
    destruct (rateLimit_counts env _ RATE_LIMITS_booking w count resetAt E Hnow) as [Hr Hs].
    destruct i as [|i].
    + cbn in Hi. injection Hi as <-. rewrite Hst, Hr. unfold answerAt. cbn [RateLimit.max RATE_LIMITS_booking].
      destruct (count + 1 <=? 10) eqn:E1; cbn; split; intros; try discriminate; try lia; auto.
    + cbn in Hi.
      assert (E' : rateLimitStore (snd (POST env request w)) !! ("booking:" ++ ip)%string
                   = Some (RateLimitEntry.mk (count + 1) resetAt)).
      { rewrite Hstore, Hs. apply lookup_insert_eq. }
      rewrite (IH _ (count + 1) E' Hall i r Hi). lia.
Qed.

(** X5: ten requests per window and address.  Of the requests that one
    address sends within 60 seconds of the request that opens its window,
    the one at position [i] (from 0) is answered 429 exactly when
    [10 <= i], whatever the requests carry. *)
Theorem POST_ten_per_window (env0 : Env) (request0 : Request)
    (calls : list (Env * Request)) (w : World) :
  opensWindow env0 (rateLimitKey request0) w ->
  Forall (fun call => now (fst call) < now env0 + 60000
                      /\ ip (snd call) = ip request0) calls ->
  forall (i : nat) r, fst (serve ((env0, request0) :: calls) w) !! i = Some r ->
    (status r = 429 <-> (10 <= i)%nat).
Proof.
  intros Hopen Hall i r Hi.
  cbn [serve] in Hi. rewrite !bind_run in Hi. cbn [ret fst snd] in Hi.
  destruct (POST_limiter env0 request0 w) as [Hst Hstore].
  destruct (rateLimit_opens env0 _ RATE_LIMITS_booking w Hopen) as [Hr Hs].
  destruct i as [|i].
  - cbn in Hi. injection Hi as <-. rewrite Hst, Hr. cbn. split; [discriminate | lia].
  - cbn in Hi.
    assert (E : rateLimitStore (snd (POST env0 request0 w)) !! ("booking:" ++ ip request0)%string
                = Some (RateLimitEntry.mk 1 (now env0 + 60000))).
    { rewrite Hstore, Hs. apply lookup_insert_eq. }
    rewrite (serve_counts calls (ip request0) (now env0 + 60000) _ 1 E Hall i r Hi). lia.
Qed.

Lemma POST_ten_per_window_witness :
  let w := Scenario.world (Scenario.eventType 30 true false) (Scenario.booking CONFIRMED) in
  let clock := fun t => Scenario.env (Scenario.at_ 9 40 + t) (Scenario.at_ 10 15) in
  let request := Scenario.request None in
  (opensWindow (clock 0) (rateLimitKey request) w
   /\ Forall (fun call => now (fst call) < now (clock 0) + 60000
                          /\ ip (snd call) = ip request) [(clock 1000, request)])
  /\ forall (i : nat) r,
       fst (serve [(clock 0, request); (clock 1000, request)] w) !! i = Some r ->
       (status r = 429 <-> (10 <= i)%nat).
Proof.
  intros w clock request.
  assert (Hopen : opensWindow (clock 0) (rateLimitKey request) w) by exact I.
  assert (Hall : Forall (fun call => now (fst call) < now (clock 0) + 60000
                                    /\ ip (snd call) = ip request)
                   [(clock 1000, request)])
    by (repeat constructor).
  split; [split; assumption|].
  exact (POST_ten_per_window (clock 0) request [(clock 1000, request)] w Hopen Hall).
Defined.

End PostFacts.

(** ** What a positive answer of [isSlotAvailable] has established *)

Module PrecommitFacts.
Import DateFns Availability EffectSpec EffectFacts AvailabilityFacts.

Lemma isSlotAvailable_true env eventTypeId startTime endTime w :
  fst (isSlotAvailable env eventTypeId startTime endTime w) = true ->
  exists config dayConfig,
    configOf eventTypeId w = Some config
    /\ now env + minimumNotice config * 60000 <= startTime
    /\ startTime <= now env + schedulingWindow config * 86400000
    /\ find (fun wh => WorkingHours.day wh
                       =? getDay (toZonedTime startTime (timezone config)))
            (workingHours config) = Some dayConfig
    /\ String.ltb (format_HHmm (toZonedTime startTime (timezone config)))
                  (WorkingHours.start dayConfig) = false
    /\ String.ltb (WorkingHours.end_ dayConfig)
                  (format_HHmm (toZonedTime endTime (timezone config))) = false
    /\ (forall b, In b (bookings w) ->
          overlapsQuery (userId config) startTime endTime b = false).
Proof.
  unfold isSlotAvailable.
  rewrite bind_run, getEventTypeConfig_run. cbn [fst snd].
  destruct (configOf eventTypeId w) as [config|]; [|discriminate].
  cbv zeta.
  destruct (isBefore _ _) eqn:E1; [discriminate|].
  destruct (isAfter _ _) eqn:E2; [discriminate|].
  destruct (find _ (workingHours config)) as [dayConfig|] eqn:E3; [|discriminate].
  destruct (_ || _) eqn:E4; [discriminate|].
  rewrite !bind_run.
  match goal with
  | |- context [GoogleCalendar.getCompositeBusy env ?u ?a ?z ?w1] =>
      destruct (frames_getCompositeBusy env u a z w1)
        as (_ & _ & _ & _ & Hb & _);
      set (w2 := snd (GoogleCalendar.getCompositeBusy env u a z w1)) in *
  end.
  cbn [fst snd gets emit bookings set_trace]. rewrite Hb. cbn [bookings set_trace].
  destruct (find _ (bookings w)) eqn:Hfind; [discriminate|].
  intros _. exists config, dayConfig.
  apply orb_false_iff in E4. destruct E4 as [E4 E5].
  unfold isBefore, isAfter, addMinutes, addDays, millisecondsInMinute, millisecondsInDay in *.
  apply Z.ltb_ge in E1, E2.
  repeat split; auto.
  intros b Hin. eapply find_none in Hfind; eauto.
Qed.

End PrecommitFacts.

Module CommitFacts.
Import DateFns Availability EffectSpec EffectFacts FrameSpec FrameFacts PrecommitFacts.
Import BookingsRoute BookingSpec BookingFacts PostFacts.

Lemma commit_writes env data eventType w :
  let row := newBooking env data eventType in
  let run := commit env data eventType w in
  (status (fst run) <> 201 /\ bookings (snd run) = bookings w)
  \/ (status (fst run) = 201
      /\ fst (preCommitCheck env data eventType w) = true
      /\ uniqueViolation env (bookings w) row = false
      /\ exists f : Booking.t -> Booking.t,
           (forall b, sameBooking b (f b))
           /\ bookings (snd run) = map f (bookings w ++ [row])).
Proof.
  intros row run.
  destruct (commit_cases env data eventType w) as (_ & H0 & H1 & H2 & H3).
  fold row in H2, H3. fold run in H0, H1, H2, H3.
  destruct (fst (preCommitCheck env data eventType w)) eqn:E.
  - destruct (destinationCalendars (eventTypeId data) (snd (preCommitCheck env data eventType w)))
      as [|d ds] eqn:Ed.
    + left. destruct H1 as [-> ->]; [reflexivity | reflexivity |]. split; [discriminate | reflexivity].
    + destruct (uniqueViolation env (bookings w) row) eqn:Ev.
      * left. destruct H2 as [-> ->]; [reflexivity | discriminate | reflexivity |].
        split; [discriminate | reflexivity].
      * right.
        destruct H3 as [(url & Hr) Hf]; [reflexivity | discriminate | reflexivity |].
        rewrite Hr. repeat split; auto.
  - left. destruct H0 as [-> ->]; [reflexivity|]. split; [discriminate | reflexivity].
Qed.

(** Every path of the handler but the one that stores a row. *)
Lemma POST_cases env request w :
  let run := POST env request w in
  (status (fst run) <> 201 /\ bookings (snd run) = bookings w)
  \/ (exists data eventType,
        allowed env request w /\ body request = Valid data
        /\ bookingByKey (deriveIdempotencyKey env data) w = None
        /\ eventTypeById (eventTypeId data) w = Some eventType
        /\ EventType.isActive eventType = true
        /\ run = commit env data eventType (commitWorld env request data w)
        /\ status (fst run) = 201).
Proof.
  intros run.
  destruct (RateLimit.success
              (fst (RateLimit.rateLimit env (rateLimitKey request)
                      RateLimit.RATE_LIMITS_booking w))) eqn:Hs.
  2: { left. destruct (POST_rate_limited env request w) as [H1 H2].
       - unfold allowed. rewrite Hs. discriminate.
       - unfold run. rewrite H1, H2. split; [discriminate | reflexivity]. }
  assert (Hadm : allowed env request w) by exact Hs.
  destruct (body request) as [| |data] eqn:Hbody.
  - left. split.
    + unfold run, POST. fold (rateLimitKey request). rewrite bind_run, Hs, Hbody.
      cbn [negb]. rewrite bind_run. cbn. discriminate.
    + apply POST_rejects_early; auto. rewrite Hbody. exact I.
  - left. split.
    + unfold run, POST. fold (rateLimitKey request). rewrite bind_run, Hs, Hbody.
      cbn. discriminate.
    + apply POST_rejects_early; auto. rewrite Hbody. exact I.
  - destruct (bookingByKey (deriveIdempotencyKey env data) w) as [b|] eqn:Hkey.
    { left. destruct (POST_idempotent_hit env request data b w Hadm Hbody Hkey) as (H1 & H2 & _).
      unfold run. rewrite H1, H2. split; [discriminate | reflexivity]. }
    assert (Hearly : forall P : Prop,
              match eventTypeById (eventTypeId data) w with
              | None => True
              | Some eventType => EventType.isActive eventType = false
              end ->
              status (fst run) = 404 /\ bookings (snd run) = bookings w).
    { intros _ Hno. split.
      - unfold run, POST. fold (rateLimitKey request). rewrite bind_run, Hs, Hbody.
        cbn [negb].
        rewrite bind_run, bookingFindUniqueByKey_run. cbn [fst snd].
        destruct (rateLimit_world env (rateLimitKey request) RateLimit.RATE_LIMITS_booking w)
          as ((_ & _ & Hets & _ & Hb & _) & _ & _).
        cbn [bookings eventTypes set_rateLimitStore] in Hb, Hets.
        set (w1 := snd (RateLimit.rateLimit env (rateLimitKey request)
                          RateLimit.RATE_LIMITS_booking w)) in *.
        rewrite (bookingByKey_bookings _ w w1 Hb), Hkey.
        rewrite bind_run, !eventTypeFindUnique_run. cbn [fst snd].
        replace (eventTypeById (eventTypeId data)
                   (set_trace w1 (trace w1 ++ [BookingFindUniqueByKey
                                                 (deriveIdempotencyKey env data)])))
          with (eventTypeById (eventTypeId data) w)
          by (unfold eventTypeById; cbn [eventTypes set_trace]; now rewrite Hets).
        destruct (eventTypeById (eventTypeId data) w) as [eventType|]; [|reflexivity].
        rewrite Hno. reflexivity.
      - apply POST_rejects_early; auto. rewrite Hbody. split; assumption. }
    destruct (eventTypeById (eventTypeId data) w) as [eventType|] eqn:Het.
    2: { left. destruct (Hearly True I) as [H1 H2]. rewrite H1, H2.
         split; [discriminate | reflexivity]. }
    destruct (EventType.isActive eventType) eqn:Hact.
    2: { left. destruct (Hearly True eq_refl) as [H1 H2]. rewrite H1, H2.
         split; [discriminate | reflexivity]. }
    pose proof (POST_reaches_commit env request data eventType w Hadm Hbody Hkey Het Hact)
      as Hrun.
    fold run in Hrun.
    destruct (commit_writes env data eventType (commitWorld env request data w))
      as [[H1 H2]|(H1 & _)].
    + left. rewrite Hrun. split; [exact H1|].
      rewrite H2. apply commitWorld_bookings.
    + right. exists data, eventType. rewrite Hrun. repeat split; auto.
Qed.

(** X6: only a stored booking changes the bookings table.  The handler
    never changes users, calendars or event types; unless it answers 201
    the bookings are as before; with 201 there is exactly one row more and
    the rows that were there are still there. *)
Theorem POST_writes (env : Env) (request : Request) (w : World) :
  let run := POST env request w in
  users (snd run) = users w /\ calendars (snd run) = calendars w
  /\ eventTypes (snd run) = eventTypes w
  /\ eventTypeCalendars (snd run) = eventTypeCalendars w
  /\ (status (fst run) <> 201 -> bookings (snd run) = bookings w)
  /\ (status (fst run) = 201 ->
        length (bookings (snd run)) = S (length (bookings w)) /\ keepsRows w (snd run)).
Proof.
  intros run.
  assert (Hcat : users (snd run) = users w /\ calendars (snd run) = calendars w
                 /\ eventTypes (snd run) = eventTypes w
                 /\ eventTypeCalendars (snd run) = eventTypeCalendars w).
  { destruct (rateLimit_world env (rateLimitKey request) RateLimit.RATE_LIMITS_booking w)
      as ((Hu & Hc & He & Hl & _) & _).
    cbn [users calendars eventTypes eventTypeCalendars set_rateLimitStore] in Hu, Hc, He, Hl.
    destruct (RateLimit.success
                (fst (RateLimit.rateLimit env (rateLimitKey request)
                        RateLimit.RATE_LIMITS_booking w))) eqn:Hs.
    - destruct (POST_after_limiter env request w Hs) as [_ (Hu' & Hc' & He' & Hl' & _)].
      unfold run. rewrite Hu', Hc', He', Hl'. auto.
    - unfold run, POST. fold (rateLimitKey request). rewrite bind_run, Hs. cbn. auto. }
  destruct Hcat as (Hu & Hc & He & Hl).
  repeat (split; [assumption|]).
  destruct (POST_cases env request w)
    as [[Hne Hb]|(data & eventType & _ & _ & _ & _ & _ & Hrun & H201)]; subst run.
  - split; [auto | intros; contradiction].
  - split; [intros; contradiction|]. intros _.
    destruct (commit_writes env data eventType (commitWorld env request data w))
      as [[H1 _]|(_ & _ & _ & f & Hf & Hshape)].
    + rewrite <- Hrun in H1. contradiction.
    + rewrite <- Hrun in Hshape. rewrite commitWorld_bookings in Hshape. split.
      * rewrite Hshape, length_map, length_app. cbn. lia.
      * intros old Hold. exists (f old). split; [|apply Hf].
        rewrite Hshape. apply in_map. apply in_or_app. auto.
Qed.

(** X7: a stored booking respects the notice, the window, and the
    bookings already there. *)
Theorem POST_created_booking_is_free (env : Env) (request : Request) (w : World)
    (data : BookingInput) (eventType : EventType.t) :
  body request = Valid data ->
  eventTypeById (eventTypeId data) w = Some eventType ->
  status (fst (POST env request w)) = 201 ->
  let row := newBooking env data eventType in
  now env + EventType.minimumNotice eventType * 60000 <= Booking.startTime row
  /\ Booking.startTime row <= now env + EventType.schedulingWindow eventType * 86400000
  /\ Booking.endTime row = Booking.startTime row + EventType.duration eventType * 60000
  /\ (forall b, In b (bookings w) ->
        Booking.userId b = EventType.userId eventType ->
        Booking.status b = PENDING \/ Booking.status b = CONFIRMED ->
        ~ exists t, Booking.startTime row <= t < Booking.endTime row
                    /\ Booking.startTime b <= t < Booking.endTime b)
  /\ (exists stored, In stored (bookings (snd (POST env request w)))
                     /\ sameBooking row stored).
Proof.
  intros Hbody Het H201 row.
  destruct (POST_cases env request w)
    as [[Hne _]|(data' & eventType' & _ & Hbody' & _ & Het' & _ & Hrun & _)];
    [contradiction|].
  rewrite Hbody in Hbody'. injection Hbody' as <-.
  rewrite Het in Het'. injection Het' as <-.
  destruct (commit_writes env data eventType (commitWorld env request data w))
    as [[H1 _]|(_ & Hcheck & _ & f & Hf & Hshape)].
  { rewrite <- Hrun in H1. contradiction. }
  rewrite <- Hrun in Hshape. rewrite commitWorld_bookings in Hshape.
  unfold preCommitCheck in Hcheck.
  apply isSlotAvailable_true in Hcheck.
  destruct Hcheck as (config & dayConfig & Hcfg & Hmin & Hmax & _ & _ & _ & Hfree).
  rewrite commitWorld_bookings in Hfree.
  assert (Hconfig : userId config = EventType.userId eventType
                    /\ minimumNotice config = EventType.minimumNotice eventType
                    /\ schedulingWindow config = EventType.schedulingWindow eventType).
  { unfold configOf in Hcfg.
    assert (Hets : eventTypes (commitWorld env request data w) = eventTypes w).
    { unfold commitWorld. rewrite eventTypeFindUnique_run, bookingFindUniqueByKey_run.
      cbn [fst snd eventTypes set_trace].
      destruct (rateLimit_world env (rateLimitKey request) RateLimit.RATE_LIMITS_booking w)
        as ((_ & _ & He & _) & _). exact He. }
    rewrite Hets in Hcfg. unfold eventTypeById in Het. rewrite Het in Hcfg.
    destruct (find _ (users _)); [|discriminate].
    injection Hcfg as <-. cbn. auto. }
  destruct Hconfig as (Hu & Hn & Hw). rewrite Hn in Hmin. rewrite Hw in Hmax. rewrite Hu in Hfree.
  split; [exact Hmin|]. split; [exact Hmax|]. split; [reflexivity|]. split.
  - intros b Hin Huser Hst Hov.
    specialize (Hfree b Hin).
    unfold row, newBooking in Hov. cbn [Booking.startTime Booking.endTime] in Hov.
    rewrite (AvailabilityFacts.overlapsQuery_overlap _ _ _ b Huser Hst Hov) in Hfree.
    discriminate.
  - exists (f row). split; [|apply Hf].
    rewrite Hshape. apply in_map. apply in_or_app. right. left. reflexivity.
Qed.

Lemma POST_created_booking_is_free_witness :
  let eventType := Scenario.eventType 30 true true in
  let w := Scenario.world eventType (Scenario.booking CANCELLED) in
  let env := Scenario.env (Scenario.at_ 9 40) (Scenario.at_ 10 15) in
  let data := Scenario.input (Some "key-2"%string) in
  let request := Scenario.request (Some "key-2"%string) in
  status (fst (POST env request w)) = 201
  /\ Booking.startTime (newBooking env data eventType) = Scenario.at_ 10 15
  /\ now env + EventType.minimumNotice eventType * 60000
     <= Booking.startTime (newBooking env data eventType).
Proof.
  intros eventType w env data request.
  assert (H201 : status (fst (POST env request w)) = 201) by (vm_compute; reflexivity).
  split; [exact H201|]. split; [reflexivity|].
  exact (proj1 (POST_created_booking_is_free env request w data eventType
                  eq_refl eq_refl H201)).
Defined.





End CommitFacts.

(** ** Candidate slots and clock strings *)

Module CandidateFacts.
Import DateFns Availability AvailabilitySpec AvailabilityFacts.

Lemma slotLoop_progression (fuel : nat) : forall cur wde dur step,
  0 < step ->
  (slotLoopBound cur wde dur step <= fuel)%nat ->
  slotLoop fuel cur wde dur step
  = map (fun k => (cur + k * (step * 60000), cur + k * (step * 60000) + dur * 60000))
        (seqZ 0 ((wde - (cur + dur * 60000)) / (step * 60000) + 1)).
Proof.
  induction fuel as [|fuel IH]; intros cur wde dur step Hstep Hfuel.
  - unfold slotLoopBound, addMinutes, millisecondsInMinute in Hfuel.
    assert (H : (wde - (cur + dur * 60000)) / (step * 60000) + 1 <= 0) by lia.
    cbn [slotLoop]. unfold seqZ. replace (Z.to_nat _) with 0%nat by lia. reflexivity.
  - cbn [slotLoop]. unfold isAfter, addMinutes, millisecondsInMinute in *.
    destruct (wde <? cur + dur * 60000) eqn:E.
    + apply Z.ltb_lt in E.
      assert (H : (wde - (cur + dur * 60000)) / (step * 60000) < 0)
        by (apply Z.div_lt_upper_bound; lia).
      unfold seqZ. replace (Z.to_nat _) with 0%nat by lia. reflexivity.
    + apply Z.ltb_ge in E.
      assert (Hq : (wde - (cur + dur * 60000)) / (step * 60000)
                   = (wde - (cur + step * 60000 + dur * 60000)) / (step * 60000) + 1).
      { replace (wde - (cur + dur * 60000))
          with ((wde - (cur + step * 60000 + dur * 60000)) + 1 * (step * 60000)) by lia.
        apply Z.div_add. lia. }
      assert (H0 : 0 <= (wde - (cur + dur * 60000)) / (step * 60000))
        by (apply Z.div_pos; lia).
      rewrite IH; auto.
      2: { unfold slotLoopBound, addMinutes, millisecondsInMinute in *.
           revert Hfuel Hq H0.
           generalize ((wde - (cur + dur * 60000)) / (step * 60000)).
           generalize ((wde - (cur + step * 60000 + dur * 60000)) / (step * 60000)).
           intros. lia. }
      rewrite Hq.
      set (n := (wde - (cur + step * 60000 + dur * 60000)) / (step * 60000) + 1) in *.
      assert (Hn : 0 <= n) by (rewrite <- Hq; exact H0).
      clearbody n. clear Hq H0 Hfuel E IH.
      replace (n + 1) with (Z.succ n) by lia.
      rewrite (seqZ_cons 0 (Z.succ n)) by lia. cbn [map]. f_equal.
      * f_equal; lia.
      * replace (Z.pred (Z.succ n)) with n by lia.
        replace (Z.succ 0) with (1 + 0) by lia.
        rewrite <- (fmap_add_seqZ 1 0 n).
        change (map ?f (?g <$> ?l)) with (map f (map g l)).
        rewrite map_map. apply map_ext. intros k. f_equal; lia.
Qed.

Lemma generateDayCandidateSlots_progression (date : Z) (hours : list WorkingHours.t)
    (duration slotInterval tz : Z) (dayConfig : WorkingHours.t) (sh sm eh em : Z) :
  find (fun wh => WorkingHours.day wh =? getDay date) hours = Some dayConfig ->
  parseTimeString (WorkingHours.start dayConfig) = Some (sh, sm) ->
  parseTimeString (WorkingHours.end_ dayConfig) = Some (eh, em) ->
  0 < slotInterval ->
  let first := startOfDay date + (sh * 60 + sm - tz) * 60000 in
  let close := startOfDay date + (eh * 60 + em - tz) * 60000 in
  generateDayCandidateSlots date hours duration slotInterval tz
  = Some (map (fun k => (first + k * (slotInterval * 60000),
                         first + k * (slotInterval * 60000) + duration * 60000))
              (seqZ 0 ((close - (first + duration * 60000)) / (slotInterval * 60000) + 1))).
Proof.
  intros Hfind Hs He Hstep first close.
  unfold generateDayCandidateSlots. rewrite Hfind, Hs, He.
  assert (Hsod : startOfDay date mod millisecondsInDay = 0).
  { unfold startOfDay, millisecondsInDay.
    rewrite Zminus_mod, Z.mod_mod, Z.sub_diag by lia. reflexivity. }
  assert (H1 : forall h m,
            fromZonedTime (setMinutes (setHours (startOfDay date) h) m) tz
            = startOfDay date + (h * 60 + m - tz) * 60000).
  { intros h m. unfold fromZonedTime, setMinutes, setHours, getHours, getMinutes.
    rewrite Hsod.
    unfold millisecondsInDay, millisecondsInHour, millisecondsInMinute in *.
    replace (0 / 3600000) with 0 by reflexivity.
    replace ((startOfDay date + (h - 0) * 3600000) mod 3600000) with 0.
    - replace (0 / 60000) with 0 by reflexivity. lia.
    - symmetry. rewrite Z.add_mod, Z.mod_mul, Z.add_0_r, Z.mod_mod by lia.
      pose proof (Z.mod_divide (startOfDay date) 86400000 ltac:(lia)) as [Hd _].
      destruct (Hd Hsod) as [q Hq]. rewrite Hq.
      replace (q * 86400000) with (q * 24 * 3600000) by lia. apply Z.mod_mul. lia. }
  rewrite !H1. fold first close.
  unfold isAfter, addMinutes, millisecondsInMinute.
  destruct (close <? first + duration * 60000) eqn:E.
  - apply Z.ltb_lt in E.
    assert (H : (close - (first + duration * 60000)) / (slotInterval * 60000) < 0)
      by (apply Z.div_lt_upper_bound; lia).
    unfold seqZ. replace (Z.to_nat _) with 0%nat by lia. reflexivity.
  - replace (slotInterval <=? 0) with false by (symmetry; apply Z.leb_gt; lia).
    f_equal. apply slotLoop_progression; auto.
Qed.

(** X9: the candidate slots of a day are an arithmetic progression.  On a
    day with working hours and a positive interval, the [i]-th candidate
    starts [i] intervals after the opening time and lasts the duration,
    and the candidates are exactly the steps that end by closing time. *)
Theorem candidate_slots_characterised (date : Z) (hours : list WorkingHours.t)
    (duration slotInterval tz : Z) (dayConfig : WorkingHours.t) (sh sm eh em : Z) :
  find (fun wh => WorkingHours.day wh =? getDay date) hours = Some dayConfig ->
  parseTimeString (WorkingHours.start dayConfig) = Some (sh, sm) ->
  parseTimeString (WorkingHours.end_ dayConfig) = Some (eh, em) ->
  0 < slotInterval ->
  let first := startOfDay date + (sh * 60 + sm - tz) * 60000 in
  let close := startOfDay date + (eh * 60 + em - tz) * 60000 in
  exists slots,
    generateDayCandidateSlots date hours duration slotInterval tz = Some slots
    /\ (forall (i : nat) s e, slots !! i = Some (s, e) ->
          s = first + Z.of_nat i * (slotInterval * 60000) /\ e = s + duration * 60000)
    /\ (forall s e, In (s, e) slots <->
          exists k, 0 <= k /\ s = first + k * (slotInterval * 60000)
                    /\ e = s + duration * 60000 /\ e <= close).
Proof.
  intros Hfind Hs He Hstep first close.
  rewrite (generateDayCandidateSlots_progression date hours duration slotInterval tz
             dayConfig sh sm eh em Hfind Hs He Hstep).
  fold first close.
  set (step := slotInterval * 60000).
  set (n := (close - (first + duration * 60000)) / step + 1).
  eexists. split; [reflexivity|]. split.
  - intros i s e Hi.
    change (map ?f ?l) with (f <$> l) in Hi.
    rewrite list_lookup_fmap in Hi.
    destruct (seqZ 0 n !! i) as [k|] eqn:Hk; [|discriminate].
    apply lookup_seqZ in Hk. destruct Hk as [-> _].
    cbn in Hi. injection Hi as <- <-. split; f_equal; lia.
  - intros s e. rewrite in_map_iff. split.
    + intros (k & Hk & Hin). injection Hk as <- <-.
      apply list_elem_of_In, elem_of_seqZ in Hin.
      exists k. repeat split; try lia.
      assert (Hq : k <= (close - (first + duration * 60000)) / step) by (unfold n in Hin; lia).
      assert (Hm : k * step <= close - (first + duration * 60000)).
      { etransitivity; [apply Z.mul_le_mono_nonneg_r; [unfold step; lia | exact Hq]|].
        rewrite Z.mul_comm. apply Z.mul_div_le. unfold step. lia. }
      lia.
    + intros (k & Hk & -> & -> & Hclose). exists k. split; [reflexivity|].
      apply list_elem_of_In, elem_of_seqZ. split; [lia|].
      assert (Hq : k <= (close - (first + duration * 60000)) / step).
      { apply Z.div_le_lower_bound; [unfold step; lia|]. lia. }
      unfold n. lia.
Qed.

Lemma candidate_slots_characterised_witness :
  let hours := [WorkingHours.mk 1 "09:00" "17:00"] in
  (find (fun wh => WorkingHours.day wh =? getDay Scenario.monday) hours
     = Some (WorkingHours.mk 1 "09:00" "17:00")
   /\ parseTimeString "09:00" = Some (9, 0) /\ parseTimeString "17:00" = Some (17, 0))
  /\ exists slots,
       generateDayCandidateSlots Scenario.monday hours 30 15 0 = Some slots
       /\ forall s e, In (s, e) slots <->
            exists k, 0 <= k /\ s = Scenario.at_ 9 0 + k * 900000
                      /\ e = s + 1800000 /\ e <= Scenario.at_ 17 0.
Proof.
  intros hours.
  assert (Hfind : find (fun wh => WorkingHours.day wh =? getDay Scenario.monday) hours
                  = Some (WorkingHours.mk 1 "09:00" "17:00")) by reflexivity.
  assert (Hs : parseTimeString "09:00" = Some (9, 0)) by reflexivity.
  assert (He : parseTimeString "17:00" = Some (17, 0)) by reflexivity.
  split; [repeat split; assumption|].
  destruct (candidate_slots_characterised Scenario.monday hours 30 15 0
              (WorkingHours.mk 1 "09:00" "17:00") 9 0 17 0 Hfind Hs He eq_refl)
    as (slots & Hgen & _ & Hin).
  exists slots. split; [exact Hgen | exact Hin].
Defined.

End CandidateFacts.

Module ClockFacts.
Import DateFns Availability AvailabilitySpec AvailabilityFacts Validations ClockSpec.

Lemma digit_mod n : digit n = digit (n mod 10).
Proof. unfold digit. rewrite Z.mod_mod by lia. reflexivity. Qed.

Lemma ten_cases r :
  0 <= r < 10 ->
  r = 0 \/ r = 1 \/ r = 2 \/ r = 3 \/ r = 4 \/ r = 5 \/ r = 6 \/ r = 7 \/ r = 8 \/ r = 9.
Proof. lia. Qed.

(** Replaces [n mod 10] by each of the ten digits in turn. *)
Ltac each_digit n :=
  let H := fresh "H" in
  pose proof (ten_cases (n mod 10) (Z.mod_pos_bound n 10 eq_refl)) as H;
  revert H; generalize (n mod 10); intros ? H;
  repeat (destruct H as [H|H]); subst.

Lemma digitValue_digit n : digitValue (digit n) = Some (n mod 10).
Proof. rewrite digit_mod. each_digit n; reflexivity. Qed.

Lemma digit_not_colon n : Ascii.eqb (digit n) ":" = false.
Proof. rewrite digit_mod. each_digit n; reflexivity. Qed.

Lemma compare_digit a b :
  Ascii.compare (digit a) (digit b) = (a mod 10 ?= b mod 10).
Proof.
  rewrite (digit_mod a), (digit_mod b). each_digit a; each_digit b; reflexivity.
Qed.

Lemma pad2_value n : 0 <= n < 100 -> Number (pad2 n) = Some n.
Proof.
  intros Hn. unfold Number, pad2. cbn [NumberFrom].
  rewrite !digitValue_digit. cbn [NumberFrom].
  f_equal. 
  rewrite (Z.mod_small (n / 10)) by (split; [apply Z.div_pos | apply Z.div_lt_upper_bound]; lia).
  pose proof (Z.div_mod n 10 ltac:(lia)). lia.
Qed.

Lemma parseTimeString_pad2 h m :
  0 <= h < 100 -> 0 <= m < 100 ->
  parseTimeString (pad2 h ++ ":" ++ pad2 m) = Some (h, m).
Proof.
  intros Hh Hm. unfold parseTimeString.
  assert (Hsplit : splitOn ":" (pad2 h ++ ":" ++ pad2 m) = [pad2 h; pad2 m]).
  { unfold pad2. cbv [String.append]. cbn [splitOn].
    rewrite !digit_not_colon. reflexivity. }
  rewrite Hsplit, !pad2_value by assumption. reflexivity.
Qed.

Lemma getHours_range d : 0 <= getHours d < 24.
Proof.
  unfold getHours, millisecondsInDay, millisecondsInHour.
  pose proof (Z.mod_pos_bound d 86400000 ltac:(lia)).
  split; [apply Z.div_pos | apply Z.div_lt_upper_bound]; lia.
Qed.

Lemma getMinutes_range d : 0 <= getMinutes d < 60.
Proof.
  unfold getMinutes, millisecondsInHour, millisecondsInMinute.
  pose proof (Z.mod_pos_bound d 3600000 ltac:(lia)).
  split; [apply Z.div_pos | apply Z.div_lt_upper_bound]; lia.
Qed.

(** X10: a formatted clock time parses back to the clock fields:
    [parseTimeString] of [format(date, 'HH:mm')] is the hour and the
    minute of the date. *)
Theorem parseTimeString_format_HHmm (date : Z) :
  parseTimeString (format_HHmm date) = Some (getHours date, getMinutes date).
Proof.
  unfold format_HHmm. apply parseTimeString_pad2.
  - pose proof (getHours_range date). lia.
  - pose proof (getMinutes_range date). lia.
Qed.

Lemma compare_pad2 a b r1 r2 :
  0 <= a < 100 -> 0 <= b < 100 ->
  String.compare (pad2 a ++ r1) (pad2 b ++ r2)
  = match a ?= b with
    | Eq => String.compare r1 r2
    | c => c
    end.
Proof.
  intros Ha Hb. unfold pad2. cbv [String.append]. fold String.append. cbn [String.compare].
  rewrite !compare_digit.
  rewrite (Z.mod_small (a / 10)) by (split; [apply Z.div_pos | apply Z.div_lt_upper_bound]; lia).
  rewrite (Z.mod_small (b / 10)) by (split; [apply Z.div_pos | apply Z.div_lt_upper_bound]; lia).
  pose proof (Z.div_mod a 10 ltac:(lia)). pose proof (Z.div_mod b 10 ltac:(lia)).
  pose proof (Z.mod_pos_bound a 10 ltac:(lia)). pose proof (Z.mod_pos_bound b 10 ltac:(lia)).
  destruct (Z.compare_spec (a / 10) (b / 10)) as [E|E|E].
  - destruct (Z.compare_spec (a mod 10) (b mod 10)) as [E'|E'|E'].
    + replace (a ?= b) with Eq by (symmetry; apply Z.compare_eq_iff; lia). reflexivity.
    + replace (a ?= b) with Lt by (symmetry; apply Z.compare_lt_iff; lia). reflexivity.
    + replace (a ?= b) with Gt by (symmetry; apply Z.compare_gt_iff; lia). reflexivity.
  - replace (a ?= b) with Lt by (symmetry; apply Z.compare_lt_iff; lia). reflexivity.
  - replace (a ?= b) with Gt by (symmetry; apply Z.compare_gt_iff; lia). reflexivity.
Qed.

Lemma compare_HHmm h1 m1 h2 m2 :
  0 <= h1 < 100 -> 0 <= m1 < 100 -> 0 <= h2 < 100 -> 0 <= m2 < 100 ->
  String.compare (pad2 h1 ++ ":" ++ pad2 m1) (pad2 h2 ++ ":" ++ pad2 m2)
  = (h1 * 100 + m1 ?= h2 * 100 + m2).
Proof.
  intros Hh1 Hm1 Hh2 Hm2.
  rewrite compare_pad2 by lia.
  assert (Hrest : String.compare (":" ++ pad2 m1) (":" ++ pad2 m2) = (m1 ?= m2)).
  { change (":" ++ pad2 m1)%string with (String ":" (pad2 m1 ++ "")).
    change (":" ++ pad2 m2)%string with (String ":" (pad2 m2 ++ "")).
    cbn [String.compare]. change (Ascii.compare ":" ":") with Eq. cbv iota.
    rewrite compare_pad2 by lia. destruct (m1 ?= m2); reflexivity. }
  rewrite Hrest.
  destruct (Z.compare_spec h1 h2) as [E|E|E].
  - subst h2. destruct (Z.compare_spec m1 m2) as [E'|E'|E']; symmetry.
    + apply Z.compare_eq_iff. lia.
    + apply Z.compare_lt_iff. lia.
    + apply Z.compare_gt_iff. lia.
  - symmetry. apply Z.compare_lt_iff. lia.
  - symmetry. apply Z.compare_gt_iff. lia.
Qed.

Lemma ltb_HHmm h1 m1 h2 m2 :
  0 <= h1 < 100 -> 0 <= m1 < 60 -> 0 <= h2 < 100 -> 0 <= m2 < 60 ->
  String.ltb (pad2 h1 ++ ":" ++ pad2 m1) (pad2 h2 ++ ":" ++ pad2 m2)
  = (h1 * 60 + m1 <? h2 * 60 + m2).
Proof.
  intros Hh1 Hm1 Hh2 Hm2. unfold String.ltb.
  rewrite compare_HHmm by lia.
  destruct (Z.compare_spec (h1 * 100 + m1) (h2 * 100 + m2)) as [E|E|E]; symmetry.
  - apply Z.ltb_ge. lia.
  - apply Z.ltb_lt. lia.
  - apply Z.ltb_ge. lia.
Qed.

(** The strings the schema lets through are the two-digit renderings. *)
Lemma matchesHHmm_pad2 s :
  matchesHHmm s = true ->
  exists h m, 0 <= h < 100 /\ 0 <= m < 100 /\ s = (pad2 h ++ ":" ++ pad2 m)%string.
Proof.
  unfold matchesHHmm.
  destruct s as [|c1 [|c2 [|c3 [|c4 [|c5 [|c6 s]]]]]]; try discriminate.
  rewrite !andb_true_iff. intros ((((H1 & H2) & H3) & H4) & H5).
  apply Ascii.eqb_eq in H3. subst c3.
  assert (Hd : forall c, isDigit c = true -> exists d, 0 <= d < 10 /\ c = digit d).
  { intros c Hc. unfold isDigit, digitValue in Hc.
    destruct ((48 <=? Z.of_N (N_of_ascii c)) && (Z.of_N (N_of_ascii c) <=? 57)) eqn:E;
      [|discriminate].
    apply andb_true_iff in E. destruct E as [E1 E2].
    apply Z.leb_le in E1, E2.
    exists (Z.of_N (N_of_ascii c) - 48). split; [lia|].
    unfold digit. rewrite Z.mod_small by lia.
    replace (48 + Z.to_nat (Z.of_N (N_of_ascii c) - 48))%nat with (nat_of_ascii c).
    - symmetry. apply ascii_nat_embedding.
    - unfold nat_of_ascii. lia. }
  destruct (Hd _ H1) as (d1 & Hd1 & ->). destruct (Hd _ H2) as (d2 & Hd2 & ->).
  destruct (Hd _ H4) as (d4 & Hd4 & ->). destruct (Hd _ H5) as (d5 & Hd5 & ->).
  exists (d1 * 10 + d2), (d4 * 10 + d5). split; [lia|]. split; [lia|].
  unfold pad2. cbv [String.append].
  assert (Hq : forall a b, 0 <= a < 10 -> 0 <= b < 10 ->
            digit ((a * 10 + b) / 10) = digit a /\ digit (a * 10 + b) = digit b).
  { intros a b Ha Hb. split.
    - f_equal. rewrite Z.add_comm, Z.div_add by lia. rewrite Z.div_small by lia. lia.
    - rewrite (digit_mod (a * 10 + b)), (digit_mod b). f_equal.
      rewrite Z.add_comm, Z.mod_add by lia. reflexivity. }
  destruct (Hq d1 d2 Hd1 Hd2) as [-> ->]. destruct (Hq d4 d5 Hd4 Hd5) as [-> ->].
  reflexivity.
Qed.

Lemma clockTime_pad2 s h m :
  clockTime s h m ->
  0 <= h < 24 /\ 0 <= m < 60 /\ s = (pad2 h ++ ":" ++ pad2 m)%string.
Proof.
  intros (Hs & Hp & Hh & Hm).
  destruct (matchesHHmm_pad2 s Hs) as (h' & m' & Hh' & Hm' & ->).
  rewrite parseTimeString_pad2 in Hp by assumption. injection Hp as <- <-.
  repeat split; auto; lia.
Qed.

(** X11: on clock times the string comparison of [isSlotAvailable] is the
    comparison of the clocks. *)
Theorem clock_string_order (date : Z) (s : string) (h m : Z) :
  clockTime s h m ->
  String.ltb (format_HHmm date) s = (minuteOfDay date <? h * 60 + m)
  /\ String.ltb s (format_HHmm date) = (h * 60 + m <? minuteOfDay date).
Proof.
  intros Hc. destruct (clockTime_pad2 s h m Hc) as (Hh & Hm & ->).
  pose proof (getHours_range date). pose proof (getMinutes_range date).
  unfold format_HHmm, minuteOfDay. split; apply ltb_HHmm; lia.
Qed.

Lemma clock_string_order_witness :
  clockTime "09:00" 9 0
  /\ String.ltb (format_HHmm (Scenario.at_ 8 45)) "09:00" = true
  /\ String.ltb "09:00" (format_HHmm (Scenario.at_ 8 45)) = false.
Proof.
  assert (Hc : clockTime "09:00" 9 0) by (repeat split).
  split; [exact Hc|].
  destruct (clock_string_order (Scenario.at_ 8 45) "09:00" 9 0 Hc) as [H1 H2].
  split; [rewrite H1 | rewrite H2]; reflexivity.
Defined.




(** X12: an event type that satisfies the schema never sends the slot
    computation into its unbounded loop. *)
Theorem validated_event_type_returns (env : Env) (options : GenerateSlotsOptions)
    (w : World) (eventType : EventType.t) :
  BookingsRoute.eventTypeById (eventTypeId options) w = Some eventType ->
  (exists user, In user (users w) /\ User.id user = EventType.userId eventType) ->
  eventTypeSchema eventType = true ->
  exists slots, fst (generateAvailableSlots env options w) = Returns slots.
Proof.
  intros Het (user & Hin & Hid) Hschema.
  unfold BookingsRoute.eventTypeById in Het.
  assert (Hcfg : exists config, configOf (eventTypeId options) w = Some config
                   /\ slotInterval config = EventType.slotInterval eventType
                   /\ workingHours config = EventType.workingHours eventType).
  { unfold configOf. rewrite Het.
    destruct (find _ (users w)) as [u|] eqn:Hu.
    - eexists. split; [reflexivity|]. cbn. auto.
    - apply find_none with (x := user) in Hu; [|exact Hin].
      rewrite Hid, String.eqb_refl in Hu. discriminate. }
  destruct Hcfg as (config & Hcfg & Hstep & Hhours).
  unfold eventTypeSchema in Hschema. rewrite !andb_true_iff in Hschema.
  destruct Hschema as ((_ & Hint) & Hwh).
  unfold between in Hint. apply andb_true_iff in Hint. destruct Hint as [Hint _].
  apply Z.leb_le in Hint.
  apply (generateAvailableSlots_returns env options w config Hcfg).
  - rewrite Hstep. lia.
  - rewrite Hhours. apply List.Forall_forall. intros wh Hwhin.
    rewrite forallb_forall in Hwh. specialize (Hwh wh Hwhin).
    unfold workingHoursSchema in Hwh. rewrite !andb_true_iff in Hwh.
    destruct Hwh as ((_ & H1) & H2).
    destruct (matchesHHmm_pad2 _ H1) as (h1 & m1 & ? & ? & E1).
    destruct (matchesHHmm_pad2 _ H2) as (h2 & m2 & ? & ? & E2).
    unfold parses. rewrite E1, E2, !parseTimeString_pad2 by assumption.
    split; discriminate.
Qed.

Lemma validated_event_type_returns_witness :
  let eventType := Scenario.eventType 30 true false in
  let w := Scenario.world eventType (Scenario.booking CONFIRMED) in
  let env := Scenario.env (Scenario.at_ 9 40) (Scenario.at_ 10 15) in
  eventTypeSchema eventType = true
  /\ exists slots, fst (generateAvailableSlots env Scenario.mondayRange w) = Returns slots.
Proof.
  intros eventType w env.
  assert (Hschema : eventTypeSchema eventType = true) by reflexivity.
  split; [exact Hschema|].
  apply (validated_event_type_returns env Scenario.mondayRange w eventType eq_refl).
  - exists Scenario.host. split; [left; reflexivity | reflexivity].
  - exact Hschema.
Defined.

End ClockFacts.

(** ** The fan-out of [getCompositeBusy] *)

Module GroupingFacts.
Import GoogleCalendar GroupingSpec BusyFacts.

Lemma idsOf_groupPush a c m a' :
  idsOf a' (groupPush a c m)
  = if String.eqb a a' then idsOf a' m ++ [c] else idsOf a' m.
Proof.
  induction m as [|[k ids] m IH]; cbn [groupPush].
  - unfold idsOf. cbn. destruct (String.eqb a a'); reflexivity.
  - destruct (String.eqb k a) eqn:Eka.
    + apply String.eqb_eq in Eka. subst k. unfold idsOf. cbn.
      destruct (String.eqb a a'); reflexivity.
    + unfold idsOf in *. cbn [find fst].
      destruct (String.eqb k a') eqn:Eka'.
      * apply String.eqb_eq in Eka'. subst k.
        rewrite String.eqb_sym in Eka. rewrite Eka. reflexivity.
      * exact IH.
Qed.

Lemma groupPush_nonempty a c m :
  Forall (fun entry => snd entry <> []) m ->
  Forall (fun entry => snd entry <> []) (groupPush a c m).
Proof.
  induction 1 as [|[k ids] m Hk Hm IH]; cbn [groupPush].
  - constructor; [|constructor]. cbn. discriminate.
  - destruct (String.eqb k a).
    + constructor; [|exact Hm]. cbn. destruct ids; discriminate.
    + constructor; [exact Hk | exact IH].
Qed.

Lemma calendarsByAccount_snoc cals cal :
  calendarsByAccount (cals ++ [cal])
  = groupPush (Calendar.connectedAccountId cal) (Calendar.googleCalendarId cal)
      (calendarsByAccount cals).
Proof. unfold calendarsByAccount. rewrite fold_left_app. reflexivity. Qed.

Lemma calendarsByAccount_idsOf cals a :
  idsOf a (calendarsByAccount cals) = calendarsOf a cals.
Proof.
  induction cals as [|cal cals IH] using rev_ind; [reflexivity|].
  rewrite calendarsByAccount_snoc, idsOf_groupPush, IH.
  unfold calendarsOf. rewrite List.filter_app, map_app. cbn [List.filter].
  destruct (String.eqb (Calendar.connectedAccountId cal) a); cbn.
  - reflexivity.
  - rewrite app_nil_r. reflexivity.
Qed.

Lemma calendarsByAccount_nonempty cals :
  Forall (fun entry => snd entry <> []) (calendarsByAccount cals).
Proof.
  induction cals as [|cal cals IH] using rev_ind; [constructor|].
  rewrite calendarsByAccount_snoc. apply groupPush_nonempty. exact IH.
Qed.

Lemma idsOf_In m a ids :
  List.NoDup (map fst m) ->
  In (a, ids) m -> idsOf a m = ids.
Proof.
  induction m as [|[k ids'] m IH]; intros Hnd Hin; [destruct Hin|].
  cbn [map fst] in Hnd. apply NoDup_cons_iff in Hnd. destruct Hnd as [Hk Hnd].
  unfold idsOf in *. cbn [find fst].
  destruct Hin as [Heq|Hin].
  - injection Heq as -> ->. rewrite String.eqb_refl. reflexivity.
  - destruct (String.eqb k a) eqn:E.
    + apply String.eqb_eq in E. subst k. exfalso. apply Hk.
      apply in_map_iff. exists (a, ids). auto.
    + apply IH; assumption.
Qed.

Lemma In_idsOf m a :
  idsOf a m <> [] -> In (a, idsOf a m) m.
Proof.
  unfold idsOf. intros H.
  destruct (find _ m) as [[k ids]|] eqn:E; [|contradiction].
  apply find_some in E. destruct E as [Hin Hk]. cbn [fst] in Hk.
  apply String.eqb_eq in Hk. subst k. exact Hin.
Qed.

(** X13: the calendars are filed by account, each account once: a group
    of [calendarsByAccount] holds the ids of all calendars of its account,
    in the order given, and no group is empty. *)
Theorem calendarsByAccount_groups (cals : list Calendar.t) :
  List.NoDup (map fst (calendarsByAccount cals))
  /\ forall a ids,
       In (a, ids) (calendarsByAccount cals) <-> ids = calendarsOf a cals /\ ids <> [].
Proof.
  split; [apply calendarsByAccount_NoDup|].
  intros a ids. split.
  - intros Hin. split.
    + rewrite <- calendarsByAccount_idsOf. symmetry.
      apply idsOf_In; [apply calendarsByAccount_NoDup | exact Hin].
    + pose proof (calendarsByAccount_nonempty cals) as Hne.
      rewrite List.Forall_forall in Hne. apply (Hne (a, ids) Hin).
  - intros [-> Hne]. rewrite <- calendarsByAccount_idsOf in *.
    apply In_idsOf. exact Hne.
Qed.

End GroupingFacts.

(** ** Which effects a computation has *)

Module TraceFacts.
Import EffectSpec EffectFacts FrameSpec GoogleCalendar Availability BookingsRoute.

Lemma emitsOnly_ret {A} p (a : A) : emitsOnly p (ret a).
Proof. intros w. exists []. cbn. rewrite app_nil_r. auto. Qed.

Lemma emitsOnly_gets {A} p (f : World -> A) : emitsOnly p (gets f).
Proof. intros w. exists []. cbn. rewrite app_nil_r. auto. Qed.

Lemma emitsOnly_emit p e : p e = true -> emitsOnly p (emit e).
Proof. intros H w. exists [e]. cbn. rewrite H. auto. Qed.

Lemma emitsOnly_bind {A B} p (m : M A) (k : A -> M B) :
  emitsOnly p m -> (forall a, emitsOnly p (k a)) -> emitsOnly p (bind m k).
Proof.
  intros Hm Hk w. rewrite bind_run.
  destruct (Hm w) as (t1 & E1 & H1).
  destruct (Hk (fst (m w)) (snd (m w))) as (t2 & E2 & H2).
  exists (t1 ++ t2). rewrite E2, E1, <- app_assoc, forallb_app, H1, H2. auto.
Qed.

(** A step that rewrites tables and leaves the trace alone. *)
Lemma emitsOnly_silent {A} p (f : World -> A * World) :
  (forall w, trace (snd (f w)) = trace w) -> emitsOnly p f.
Proof. intros H w. exists []. rewrite H, app_nil_r. auto. Qed.

Lemma emitsOnly_promiseAll {A B} p (f : A -> M B) (l : list A) :
  (forall x, emitsOnly p (f x)) -> emitsOnly p (promiseAll f l).
Proof.
  intros Hf. induction l as [|x l IH]; cbn [promiseAll]; [apply emitsOnly_ret|].
  apply emitsOnly_bind; [apply Hf|]. intros r.
  apply emitsOnly_bind; [exact IH|]. intros rs. apply emitsOnly_ret.
Qed.

Ltac emits_step :=
  first
    [ apply emitsOnly_ret | apply emitsOnly_gets
    | apply emitsOnly_emit; first [reflexivity | solve [auto]]
    | apply emitsOnly_silent; intros ?; reflexivity
    | apply emitsOnly_promiseAll; intros ?
    | apply emitsOnly_bind; [|intros ?]
    | match goal with |- emitsOnly _ (match ?x with _ => _ end) => destruct x end
    | progress cbv zeta ].

Lemma emitsOnly_getCompositeBusy p env userId timeMin timeMax :
  (forall a, p (ConnectedAccountFindUnique a) = true) ->
  (forall a, p (ConnectedAccountUpdate a) = true) ->
  (forall a, p (GoogleRefreshAccessToken a) = true) ->
  (forall a, p (GoogleFreeBusyQuery a) = true) ->
  (forall s1 s2, p (ConsoleError s1 s2) = true) ->
  p (CalendarFindMany userId) = true ->
  emitsOnly p (getCompositeBusy env userId timeMin timeMax).
Proof.
  intros H1 H2 H3 H4 H5 H6.
  unfold getCompositeBusy, fetchAccount, getFreeBusy, getAuthenticatedClient, updateAccount,
    console_error.
  repeat emits_step.
Qed.

Ltac emits_auto :=
  repeat first
    [ apply emitsOnly_getCompositeBusy; intros; reflexivity
    | emits_step ].

Lemma emitsOnly_isSlotAvailable_inward env eventTypeId startTime endTime :
  emitsOnly inward (isSlotAvailable env eventTypeId startTime endTime).
Proof. unfold isSlotAvailable, getEventTypeConfig. emits_auto. Qed.

(** X14: listing the slots observes and refreshes; it writes no booking,
    sends no mail and creates no calendar event. *)
Theorem generateAvailableSlots_observes (env : Env) (options : GenerateSlotsOptions) :
  emitsOnly observing (generateAvailableSlots env options)
  /\ frames (generateAvailableSlots env options).
Proof.
  split.
  - unfold generateAvailableSlots, getEventTypeConfig. emits_auto.
  - unfold generateAvailableSlots, getEventTypeConfig. cbv zeta. frames_auto.
Qed.

End TraceFacts.

Module PostTraceFacts.
Import EffectSpec EffectFacts FrameSpec TraceFacts GoogleCalendar Availability.
Import BookingsRoute BookingSpec.

Lemma emitsWhen_emitsOnly {A} (P : A -> Prop) p (m : M A) :
  emitsOnly p m -> emitsWhen P p m.
Proof. intros H w _. apply H. Qed.

Lemma emitsWhen_never {A} (P : A -> Prop) p (m : M A) :
  (forall w, ~ P (fst (m w))) -> emitsWhen P p m.
Proof. intros H w HP. destruct (H w HP). Qed.

Lemma emitsWhen_bind {A B} (P : B -> Prop) p (m : M A) (k : A -> M B) :
  emitsOnly p m -> (forall a, emitsWhen P p (k a)) -> emitsWhen P p (bind m k).
Proof.
  intros Hm Hk w. rewrite bind_run. intros HP.
  destruct (Hm w) as (t1 & E1 & H1).
  destruct (Hk (fst (m w)) (snd (m w)) HP) as (t2 & E2 & H2).
  exists (t1 ++ t2). rewrite E2, E1, <- app_assoc, forallb_app, H1, H2. auto.
Qed.

Lemma emitted_app {A} (m : M A) w t :
  trace (snd (m w)) = trace w ++ t -> emitted m w = t.
Proof. unfold emitted. intros ->. apply drop_app_length. Qed.

Ltac emitsWhen_auto :=
  repeat first
    [ apply emitsWhen_emitsOnly; solve [emits_auto]
    | apply emitsWhen_bind; [solve [emits_auto] | intros ?]
    | match goal with |- emitsWhen _ _ (match ?x with _ => _ end) => destruct x end
    | progress cbv zeta ].

Lemma commit_inward env data eventType :
  emitsWhen (fun r => status r <> 201) inward (commit env data eventType).
Proof.
  unfold commit, bookingCreate, console_error.
  assert (Hcheck := emitsOnly_isSlotAvailable_inward env (eventTypeId data)
            (Date_parse env (startTime data))
            (DateFns.addMinutes (Date_parse env (startTime data))
               (EventType.duration eventType))).
  cbv zeta.
  apply emitsWhen_bind; [exact Hcheck|]. intros available. clear Hcheck.
  destruct available; cbn [negb]; [|emitsWhen_auto].
  apply emitsWhen_bind; [emits_auto|]. intros destinations.
  destruct destinations as [|[destinationCalendar connectedAccount] others]; [emitsWhen_auto|].
  apply emitsWhen_bind; [emits_auto|]. intros created.
  destruct created as [booking|error].
  - apply emitsWhen_never. intros w H. apply H. rewrite !bind_run. reflexivity.
  - emitsWhen_auto.
Qed.

(** X15: no mail, no calendar event and no rewritten booking without a
    stored booking. *)
Theorem POST_outward_only_with_201 (env : Env) (request : Request) (w : World) :
  status (fst (POST env request w)) <> 201 ->
  forallb inward (emitted (POST env request) w) = true.
Proof.
  intros Hst.
  assert (H : emitsWhen (fun r => status r <> 201) inward (POST env request)).
  { unfold POST, RateLimit.rateLimit, bookingFindUniqueByKey, eventTypeFindUnique,
      console_error.
    apply emitsWhen_bind; [emits_auto|]. intros rateLimitResult.
    destruct (negb (RateLimit.success rateLimitResult)); [emitsWhen_auto|].
    destruct (body request) as [| |data]; [emitsWhen_auto | emitsWhen_auto |].
    apply emitsWhen_bind; [emits_auto|]. intros existingBooking.
    destruct existingBooking as [existingBooking|]; [emitsWhen_auto|].
    apply emitsWhen_bind; [emits_auto|]. intros eventType.
    destruct eventType as [eventType|]; [|emitsWhen_auto].
    destruct (negb (EventType.isActive eventType)); [emitsWhen_auto|].
    apply commit_inward. }
  destruct (H w Hst) as (t & Ht & Hall).
  rewrite (emitted_app _ _ _ Ht). exact Hall.
Qed.

Lemma POST_outward_only_with_201_witness :
  let w := Scenario.world (Scenario.eventType 30 true false) (Scenario.booking CONFIRMED) in
  let env := Scenario.env (Scenario.at_ 9 40) (Scenario.at_ 10 15) in
  let request := Scenario.request None in
  status (fst (POST env request w)) = 409
  /\ forallb inward (emitted (POST env request) w) = true.
Proof.
  intros w env request.
  assert (H409 : status (fst (POST env request w)) = 409) by (vm_compute; reflexivity).
  split; [exact H409|].
  apply (POST_outward_only_with_201 env request w). rewrite H409. discriminate.
Defined.

End PostTraceFacts.

(** ** [DELETE /api/bookings/[uid]] *)

Module CancelFacts.
Import EffectSpec EffectFacts FrameSpec FrameFacts GoogleCalendar GoogleEvents.
Import Availability BookingUidRoute UidSpec.

Lemma frames_deleteCalendarEvent env out a c e : frames (deleteCalendarEvent env out a c e).
Proof. unfold deleteCalendarEvent. frames_auto. Qed.
#[export] Hint Resolve frames_deleteCalendarEvent : frames.

Lemma frames_updateCalendarEvent env out a c e : frames (updateCalendarEvent env out a c e).
Proof. unfold updateCalendarEvent. frames_auto. Qed.
#[export] Hint Resolve frames_updateCalendarEvent : frames.

Lemma frames_tryCalendar message booking call :
  (forall a c e, frames (call a c e)) -> frames (tryCalendar message booking call).
Proof.
  intros Hcall. unfold tryCalendar, console_error.
  destruct (Booking.googleEventId booking) as [googleEventId|]; [|apply frames_ret].
  destruct (Booking.googleCalendarId booking) as [googleCalendarId|]; [|apply frames_ret].
  destruct (_ && _); [|apply frames_ret].
  apply frames_bind; [apply frames_gets|]. intros calendar.
  destruct calendar as [calendar|]; [|apply frames_ret].
  apply frames_bind; [apply Hcall|]. intros r.
  destruct r; [apply frames_ret | apply frames_emit].
Qed.

Lemma frames_trySendCancellation out booking : frames (trySendCancellation out booking).
Proof. unfold trySendCancellation, console_error. frames_auto. Qed.
#[export] Hint Resolve frames_trySendCancellation : frames.

Lemma bookingUpdateByUid_run env booking f w :
  bookingUpdateByUid env booking f w
  = let w1 := set_trace w (trace w ++ [BookingUpdate (Booking.id booking)]) in
    if uniqueViolation env
         (List.filter (fun r => negb (String.eqb (Booking.uid r) (Booking.uid booking)))
            (bookings w)) (f booking)
    then (Rejected (JsError.mk (Some "P2002"%string) "Unique constraint failed"), w1)
    else (Fulfilled tt, set_bookings w1 (rewritten (Booking.uid booking) f w)).
Proof.
  unfold bookingUpdateByUid. rewrite !bind_run. cbn [emit gets fst snd bookings set_trace].
  destruct (uniqueViolation env _ _); reflexivity.
Qed.

Lemma bookingByUid_uid uid w booking :
  bookingByUid uid w = Some booking -> In booking (bookings w) /\ Booking.uid booking = uid.
Proof.
  unfold bookingByUid. intros H. apply find_some in H. destruct H as [Hin Hu].
  apply String.eqb_eq in Hu. auto.
Qed.

(** Every way [DELETE] ends. *)
Lemma DELETE_cases env out uid email w :
  let run := DELETE env out uid email w in
  (status (fst run) <> 200 /\ bookings (snd run) = bookings w)
  \/ (exists booking,
        bookingByUid uid w = Some booking
        /\ included booking w <> None
        /\ Booking.status booking <> CANCELLED
        /\ authorised out booking email
        /\ updateAccepted env booking (fun r => set_status r CANCELLED) w
        /\ fst run = mkResponse 200 Success
        /\ bookings (snd run) = rewritten uid (fun r => set_status r CANCELLED) w).
Proof.
  intros run. unfold run, DELETE. cbv zeta.
  rewrite bind_run. cbn [gets fst snd].
  destruct (bookingByUid uid w) as [booking|] eqn:Hfind.
  2: { left. cbn. split; [discriminate | reflexivity]. }
  destruct (bookingByUid_uid _ _ _ Hfind) as [Hin Huid].
  rewrite bind_run. cbn [gets fst snd].
  destruct (included booking w) as [relations|] eqn:Hinc.
  2: { left. rewrite bind_run. cbn. split; [discriminate | reflexivity]. }
  destruct (BookingStatus_eqb (Booking.status booking) CANCELLED) eqn:Hst.
  { left. cbn. split; [discriminate | reflexivity]. }
  destruct (isBooker out booking email) as [booker|] eqn:Hbooker.
  2: { left. rewrite bind_run. cbn. split; [discriminate | reflexivity]. }
  destruct (negb (isAdmin out booking) && negb booker) eqn:Hauth.
  { left. cbn. split; [discriminate | reflexivity]. }
  rewrite bind_run, bookingUpdateByUid_run. cbv zeta.
  destruct (uniqueViolation env _ _) eqn:Hviol.
  { left. cbn [fst snd]. rewrite bind_run. cbn. split; [discriminate | reflexivity]. }
  right. exists booking. cbn [fst snd]. rewrite !bind_run. cbn [ret fst snd].
  split; [reflexivity|]. split; [rewrite Hinc; discriminate|].
  split; [intros E; rewrite E in Hst; discriminate Hst|].
  split.
  { unfold authorised. rewrite Hbooker. destruct (isAdmin out booking); [left; reflexivity|].
    destruct booker; [right; reflexivity | discriminate]. }
  split; [exact Hviol|]. split; [reflexivity|].
  match goal with
  | |- bookings (snd (trySendCancellation out booking ?w2)) = _ =>
      destruct (frames_trySendCancellation out booking w2) as (_ & _ & _ & _ & -> & _)
  end.
  match goal with
  | |- bookings (snd (tryCalendar ?m booking ?c ?w1)) = _ =>
      destruct (frames_tryCalendar m booking c
                  (frames_deleteCalendarEvent env out) w1) as (_ & _ & _ & _ & -> & _)
  end.
  cbn [bookings set_bookings]. rewrite Huid. reflexivity.
Qed.


Lemma steady_bookingUpdateByUid env booking f : steady (bookingUpdateByUid env booking f).
Proof. unfold bookingUpdateByUid. steady_auto. Qed.
#[export] Hint Resolve steady_bookingUpdateByUid : steady.

Lemma steady_tryCalendar message booking call :
  (forall a c e, frames (call a c e)) -> steady (tryCalendar message booking call).
Proof. intros H. apply steady_frames, frames_tryCalendar, H. Qed.

Lemma steady_DELETE env out uid email : steady (DELETE env out uid email).
Proof.
  unfold DELETE, console_error. cbv zeta.
  repeat first
    [ apply steady_tryCalendar; intros; apply frames_deleteCalendarEvent
    | apply steady_ret | solve [auto with steady]
    | solve [apply steady_frames; frames_auto]
    | apply steady_bind; [|intros ?]
    | match goal with |- steady (match ?x with _ => _ end) => destruct x end ].
Qed.

Lemma DELETE_succeeds env out uid email w booking :
  bookingByUid uid w = Some booking ->
  included booking w <> None ->
  Booking.status booking <> CANCELLED ->
  authorised out booking email ->
  updateAccepted env booking (fun r => set_status r CANCELLED) w ->
  status (fst (DELETE env out uid email w)) = 200.
Proof.
  intros Hfind Hinc Hst Hauth Hacc. unfold DELETE. cbv zeta.
  rewrite bind_run. cbn [gets fst snd]. rewrite Hfind.
  rewrite bind_run. cbn [gets fst snd].
  destruct (included booking w) as [relations|]; [|contradiction].
  replace (BookingStatus_eqb (Booking.status booking) CANCELLED) with false
    by (destruct (Booking.status booking); try reflexivity; contradiction).
  unfold authorised in Hauth.
  destruct (isBooker out booking email) as [booker|]; [|contradiction].
  replace (negb (isAdmin out booking) && negb booker) with false
    by (destruct Hauth as [-> | ->]; [reflexivity | symmetry; apply andb_false_r]).
  rewrite bind_run, bookingUpdateByUid_run. cbv zeta.
  unfold updateAccepted in Hacc. rewrite Hacc.
  cbn [fst snd]. rewrite !bind_run. reflexivity.
Qed.

(** X16: what a cancellation takes, and what it writes.  [DELETE] answers
    200 exactly when the booking exists with its event type and host, is
    not cancelled yet, the caller is the host or the attendee, and the
    update is accepted; then the rows of that uid are set to CANCELLED, in
    every other case the bookings are as before, and the other tables are
    never touched. *)
Theorem DELETE_cancels (env : Env) (out : Outside) (uid : string) (email : EmailField)
    (w : World) :
  let run := DELETE env out uid email w in
  (status (fst run) = 200 <->
     exists booking,
       bookingByUid uid w = Some booking
       /\ included booking w <> None
       /\ Booking.status booking <> CANCELLED
       /\ authorised out booking email
       /\ updateAccepted env booking (fun r => set_status r CANCELLED) w)
  /\ (status (fst run) = 200 ->
        bookings (snd run) = rewritten uid (fun r => set_status r CANCELLED) w)
  /\ (status (fst run) <> 200 -> bookings (snd run) = bookings w)
  /\ sameCatalogue w (snd run).
Proof.
  intros run.
  destruct (DELETE_cases env out uid email w)
    as [[Hne Hb]|(booking & Hfind & Hinc & Hst & Hauth & Hacc & Hr & Hb)]; fold run in Hne || fold run in Hr.
  - fold run in Hb. split; [|split; [|split]].
    + split; [intros; contradiction|].
      intros (booking & Hfind & Hinc & Hst & Hauth & Hacc). exfalso. apply Hne.
      apply (DELETE_succeeds env out uid email w booking); assumption.
    + intros; contradiction.
    + intros _. exact Hb.
    + apply steady_DELETE.
  - fold run in Hb. split; [|split; [|split]].
    + split; [|intros _; rewrite Hr; reflexivity].
      intros _. exists booking. auto.
    + intros _. exact Hb.
    + intros H. rewrite Hr in H. contradiction.
    + apply steady_DELETE.
Qed.



(** X18: after a cancellation the booking queries of the availability
    engine see the table without the booking. *)
Theorem DELETE_frees_the_slot (env : Env) (out : Outside) (uid : string)
    (email : EmailField) (w : World) :
  status (fst (DELETE env out uid email w)) = 200 ->
  let w' := snd (DELETE env out uid email w) in
  let others := List.filter (fun r => negb (String.eqb (Booking.uid r) uid)) (bookings w) in
  forall userId startTime endTime,
    find (overlapsQuery userId startTime endTime) (bookings w')
      = find (overlapsQuery userId startTime endTime) others
    /\ existingBookingsIn userId startTime endTime w'
       = List.filter (fun b =>
           String.eqb (Booking.userId b) userId && statusIsActive (Booking.status b)
           && (startTime <=? Booking.startTime b) && (Booking.endTime b <=? endTime)) others.
Proof.
  intros H200 w' others userId startTime endTime.
  destruct (DELETE_cases env out uid email w)
    as [[Hne _]|(booking & _ & _ & _ & _ & _ & _ & Hb)]; [contradiction|].
  fold w' in Hb. unfold existingBookingsIn. rewrite Hb. unfold rewritten, others.
  clear. induction (bookings w) as [|r rows [IH1 IH2]]; [split; reflexivity|].
  cbn [map List.filter find].
  destruct (String.eqb (Booking.uid r) uid) eqn:E; cbn [negb].
  - unfold overlapsQuery at 1. cbn [set_status Booking.userId Booking.status statusIsActive].
    rewrite andb_false_r. cbn [andb]. split; [exact IH1 | exact IH2].
  - cbn [find List.filter]. rewrite IH1, IH2. split; reflexivity.
Qed.

Lemma DELETE_frees_the_slot_witness :
  let w := Scenario.world (Scenario.eventType 30 true false) (Scenario.booking CONFIRMED) in
  let env := Scenario.env (Scenario.at_ 9 40) (Scenario.at_ 10 15) in
  let guest := outside None true true true in
  let w' := snd (DELETE env guest "uid-1" (EmailString "ann@example.com") w) in
  status (fst (DELETE env guest "uid-1" (EmailString "ann@example.com") w)) = 200
  /\ find (overlapsQuery "host1" (Scenario.at_ 10 15) (Scenario.at_ 10 45)) (bookings w)
     = Some (Scenario.booking CONFIRMED)
  /\ find (overlapsQuery "host1" (Scenario.at_ 10 15) (Scenario.at_ 10 45)) (bookings w')
     = None.
Proof.
  intros w env guest w'.
  assert (H200 : status (fst (DELETE env guest "uid-1" (EmailString "ann@example.com") w))
                 = 200) by (vm_compute; reflexivity).
  split; [exact H200|]. split; [reflexivity|].
  destruct (DELETE_frees_the_slot env guest "uid-1" (EmailString "ann@example.com") w H200
              "host1" (Scenario.at_ 10 15) (Scenario.at_ 10 45)) as [Hfind _].
  fold w' in Hfind. rewrite Hfind. reflexivity.
Defined.

End CancelFacts.

(** ** [PATCH /api/bookings/[uid]] *)

Module RescheduleFacts.
Import DateFns EffectSpec EffectFacts FrameSpec FrameFacts GoogleCalendar GoogleEvents.
Import Availability AvailabilityFacts PrecommitFacts BookingUidRoute UidSpec CancelFacts.

Lemma steady_PATCH env out uid body : steady (PATCH env out uid body).
Proof.
  unfold PATCH, console_error. cbv zeta.
  repeat first
    [ apply steady_tryCalendar; intros; apply frames_updateCalendarEvent
    | apply steady_ret | solve [auto with steady]
    | solve [apply steady_frames; frames_auto]
    | apply steady_bind; [|intros ?]
    | match goal with |- steady (match ?x with _ => _ end) => destruct x end ].
Qed.

Lemma isActive_status st :
  negb (BookingStatus_eqb st CONFIRMED) && negb (BookingStatus_eqb st PENDING) = false
  <-> st = CONFIRMED \/ st = PENDING.
Proof. destruct st; cbn; split; intros H; auto; try discriminate; destruct H; discriminate. Qed.

(** Every way [PATCH] ends. *)
Lemma PATCH_cases env out uid body w :
  let run := PATCH env out uid body w in
  (status (fst run) <> 200 /\ bookings (snd run) = bookings w)
  \/ (exists newStartTime timezone email booking eventType user,
        body = Valid newStartTime timezone email
        /\ bookingByUid uid w = Some booking
        /\ included booking w = Some (eventType, user)
        /\ (Booking.status booking = CONFIRMED \/ Booking.status booking = PENDING)
        /\ authorised out booking email
        /\ fst (isSlotAvailable env (Booking.eventTypeId booking)
                  (Date_parse env newStartTime)
                  (addMinutes (Date_parse env newStartTime) (EventType.duration eventType)) w)
           = true
        /\ updateAccepted env booking
             (fun r => set_times r (Date_parse env newStartTime)
                         (addMinutes (Date_parse env newStartTime)
                            (EventType.duration eventType)) timezone) w
        /\ fst run = mkResponse 200
                       (Rescheduled uid (Date_parse env newStartTime)
                          (addMinutes (Date_parse env newStartTime)
                             (EventType.duration eventType)))
        /\ bookings (snd run)
           = rewritten uid
               (fun r => set_times r (Date_parse env newStartTime)
                           (addMinutes (Date_parse env newStartTime)
                              (EventType.duration eventType)) timezone) w).
Proof.
  intros run. unfold run, PATCH. cbv zeta.
  destruct body as [| |newStartTime timezone email].
  { left. rewrite bind_run. cbn. split; [discriminate | reflexivity]. }
  { left. cbn. split; [discriminate | reflexivity]. }
  rewrite bind_run. cbn [gets fst snd].
  destruct (bookingByUid uid w) as [booking|] eqn:Hfind.
  2: { left. cbn. split; [discriminate | reflexivity]. }
  destruct (bookingByUid_uid _ _ _ Hfind) as [Hin Huid].
  rewrite bind_run. cbn [gets fst snd].
  destruct (included booking w) as [[eventType user]|] eqn:Hinc.
  2: { left. rewrite bind_run. cbn. split; [discriminate | reflexivity]. }
  destruct (negb (BookingStatus_eqb (Booking.status booking) CONFIRMED)
            && negb (BookingStatus_eqb (Booking.status booking) PENDING)) eqn:Hst.
  { left. cbn. split; [discriminate | reflexivity]. }
  apply isActive_status in Hst.
  destruct (isBooker out booking email) as [booker|] eqn:Hbooker.
  2: { left. rewrite bind_run. cbn. split; [discriminate | reflexivity]. }
  destruct (negb (isAdmin out booking) && negb booker) eqn:Hauth.
  { left. cbn. split; [discriminate | reflexivity]. }
  rewrite bind_run.
  set (s := Date_parse env newStartTime).
  set (e := addMinutes s (EventType.duration eventType)).
  destruct (frames_isSlotAvailable env (Booking.eventTypeId booking) s e w)
    as (_ & _ & _ & _ & Hb & _).
  set (check := isSlotAvailable env (Booking.eventTypeId booking) s e w) in *.
  destruct (fst check) eqn:Hcheck; cbn [negb].
  2: { left. cbn. split; [discriminate | exact Hb]. }
  rewrite bind_run, bookingUpdateByUid_run. cbv zeta. rewrite Hb.
  destruct (uniqueViolation env _ _) eqn:Hviol.
  { left. cbn [fst snd]. rewrite bind_run. cbn. split; [discriminate | exact Hb]. }
  right. exists newStartTime, timezone, email, booking, eventType, user.
  cbn [fst snd]. rewrite !bind_run. cbn [ret fst snd].
  split; [reflexivity|]. split; [reflexivity|]. split; [exact Hinc|].
  split; [exact Hst|].
  split.
  { unfold authorised. rewrite Hbooker. destruct (isAdmin out booking); [left; reflexivity|].
    destruct booker; [right; reflexivity | discriminate]. }
  split; [exact Hcheck|]. split; [exact Hviol|].
  split; [rewrite Huid; reflexivity|].
  match goal with
  | |- bookings (snd (tryCalendar ?m booking ?c ?w1)) = _ =>
      destruct (frames_tryCalendar m booking c
                  (frames_updateCalendarEvent env out) w1) as (_ & _ & _ & _ & -> & _)
  end.
  cbn [bookings set_bookings]. unfold rewritten. rewrite Hb, Huid. reflexivity.
Qed.

Lemma configOf_eventType eventTypeId w eventType config :
  BookingsRoute.eventTypeById eventTypeId w = Some eventType ->
  configOf eventTypeId w = Some config ->
  userId config = EventType.userId eventType
  /\ duration config = EventType.duration eventType
  /\ minimumNotice config = EventType.minimumNotice eventType
  /\ schedulingWindow config = EventType.schedulingWindow eventType.
Proof.
  unfold BookingsRoute.eventTypeById, configOf. intros -> H.
  destruct (find _ (users w)); [|discriminate]. injection H as <-. cbn. auto.
Qed.

(** X19: a rescheduled booking has passed the pre-commit check at its new
    time. *)
Theorem PATCH_reschedules (env : Env) (out : Outside) (uid : string)
    (body : RescheduleBody) (w : World) :
  let run := PATCH env out uid body w in
  sameCatalogue w (snd run)
  /\ (status (fst run) <> 200 -> bookings (snd run) = bookings w)
  /\ (status (fst run) = 200 ->
      exists newStartTime timezone email booking eventType user,
        body = Valid newStartTime timezone email
        /\ bookingByUid uid w = Some booking
        /\ included booking w = Some (eventType, user)
        /\ authorised out booking email
        /\ let s := Date_parse env newStartTime in
           let e := s + EventType.duration eventType * 60000 in
           fst run = mkResponse 200 (Rescheduled uid s e)
           /\ bookings (snd run) = rewritten uid (fun r => set_times r s e timezone) w
           /\ now env + EventType.minimumNotice eventType * 60000 <= s
           /\ s <= now env + EventType.schedulingWindow eventType * 86400000
           /\ forall b, In b (bookings w) ->
                Booking.userId b = EventType.userId eventType ->
                Booking.status b = PENDING \/ Booking.status b = CONFIRMED ->
                ~ exists t, s <= t < e /\ Booking.startTime b <= t < Booking.endTime b).
Proof.
  intros run. split; [apply steady_PATCH|].
  destruct (PATCH_cases env out uid body w)
    as [[Hne Hb]|(newStartTime & timezone & email & booking & eventType & user & Hbody & Hfind
                  & Hinc & Hst & Hauth & Hcheck & Hacc & Hr & Hb)].
  - split; [intros _; exact Hb | intros; contradiction].
  - split; [intros H; unfold run in H; rewrite Hr in H; contradiction|].
    intros _. exists newStartTime, timezone, email, booking, eventType, user.
    do 4 (split; [assumption|]). cbv zeta.
    split; [exact Hr|]. split; [exact Hb|].
    apply isSlotAvailable_true in Hcheck.
    destruct Hcheck as (config & dayConfig & Hcfg & Hmin & Hmax & _ & _ & _ & Hfree).
    assert (Het : BookingsRoute.eventTypeById (Booking.eventTypeId booking) w = Some eventType).
    { unfold included in Hinc.
      destruct (BookingsRoute.eventTypeById (Booking.eventTypeId booking) w); [|discriminate].
      destruct (find _ (users w)); [|discriminate]. now injection Hinc as -> _. }
    destruct (configOf_eventType _ _ _ _ Het Hcfg) as (Hu & _ & Hn & Hw).
    rewrite Hn in Hmin. rewrite Hw in Hmax. rewrite Hu in Hfree.
    split; [exact Hmin|]. split; [exact Hmax|].
    intros b Hin Huser Hactive Hov.
    specialize (Hfree b Hin). unfold addMinutes, millisecondsInMinute in Hfree.
    rewrite (overlapsQuery_overlap _ _ _ b Huser Hactive Hov) in Hfree. discriminate.
Qed.

(** X20: a booking stands in the way of its own move.  Rescheduling an
    active booking to a time that shares an instant with its present time
    is answered 409 and nothing is written, since the pre-commit check
    finds the booking itself. *)
Theorem PATCH_self_conflict (env : Env) (out : Outside) (uid : string)
    (newStartTime timezone : string) (email : EmailField) (w : World)
    (booking : Booking.t) (eventType : EventType.t) (user : User.t) :
  bookingByUid uid w = Some booking ->
  included booking w = Some (eventType, user) ->
  Booking.status booking = CONFIRMED \/ Booking.status booking = PENDING ->
  authorised out booking email ->
  Booking.userId booking = EventType.userId eventType ->
  (exists t, Date_parse env newStartTime <= t
               < Date_parse env newStartTime + EventType.duration eventType * 60000
             /\ Booking.startTime booking <= t < Booking.endTime booking) ->
  fst (PATCH env out uid (Valid newStartTime timezone email) w)
    = mkResponse 409 (ErrorBody "The selected time slot is not available")
  /\ bookings (snd (PATCH env out uid (Valid newStartTime timezone email) w)) = bookings w.
Proof.
  intros Hfind Hinc Hst Hauth Huser Hov.
  destruct (bookingByUid_uid _ _ _ Hfind) as [Hin Huid].
  assert (Het : BookingsRoute.eventTypeById (Booking.eventTypeId booking) w = Some eventType).
  { unfold included in Hinc.
    destruct (BookingsRoute.eventTypeById (Booking.eventTypeId booking) w); [|discriminate].
    destruct (find _ (users w)); [|discriminate]. now injection Hinc as -> _. }
  unfold PATCH. cbv zeta.
  rewrite bind_run. cbn [gets fst snd]. rewrite Hfind.
  rewrite bind_run. cbn [gets fst snd]. rewrite Hinc.
  replace (negb (BookingStatus_eqb (Booking.status booking) CONFIRMED)
           && negb (BookingStatus_eqb (Booking.status booking) PENDING)) with false
    by (symmetry; apply isActive_status; exact Hst).
  unfold authorised in Hauth.
  destruct (isBooker out booking email) as [booker|]; [|contradiction].
  replace (negb (isAdmin out booking) && negb booker) with false
    by (destruct Hauth as [-> | ->]; [reflexivity | symmetry; apply andb_false_r]).
  rewrite bind_run.
  set (s := Date_parse env newStartTime) in *.
  set (e := addMinutes s (EventType.duration eventType)).
  destruct (frames_isSlotAvailable env (Booking.eventTypeId booking) s e w)
    as (_ & _ & _ & _ & Hb & _).
  destruct (fst (isSlotAvailable env (Booking.eventTypeId booking) s e w)) eqn:Hcheck.
  - exfalso. apply isSlotAvailable_true in Hcheck.
    destruct Hcheck as (config & dayConfig & Hcfg & _ & _ & _ & _ & _ & Hfree).
    destruct (configOf_eventType _ _ _ _ Het Hcfg) as (Hu & _).
    specialize (Hfree booking Hin). rewrite Hu in Hfree.
    unfold e, addMinutes, millisecondsInMinute in Hfree.
    rewrite (overlapsQuery_overlap _ _ _ booking Huser) in Hfree; [discriminate| |].
    + destruct Hst; auto.
    + exact Hov.
  - cbn. split; [reflexivity | exact Hb].
Qed.

Lemma PATCH_self_conflict_witness :
  let b := Scenario.booking CONFIRMED in
  let eventType := Scenario.eventType 30 true false in
  let w := Scenario.world eventType b in
  let env := Scenario.env (Scenario.at_ 8 0) (Scenario.at_ 10 15) in
  let host := outside (Some "host1"%string) true true true in
  (bookingByUid "uid-1" w = Some b /\ included b w = Some (eventType, Scenario.host)
   /\ authorised host b EmailMissing)
  /\ fst (PATCH env host "uid-1" (Valid "2024-01-15T10:15:00.000Z" "UTC" EmailMissing) w)
     = mkResponse 409 (ErrorBody "The selected time slot is not available").
Proof.
  intros b eventType w env host.
  assert (Hfind : bookingByUid "uid-1" w = Some b) by reflexivity.
  assert (Hinc : included b w = Some (eventType, Scenario.host)) by reflexivity.
  assert (Hauth : authorised host b EmailMissing) by (left; reflexivity).
  split; [repeat split; assumption|].
  apply (PATCH_self_conflict env host "uid-1" "2024-01-15T10:15:00.000Z" "UTC" EmailMissing
           w b eventType Scenario.host Hfind Hinc (or_introl eq_refl) Hauth eq_refl).
  exists (Scenario.at_ 10 15). vm_compute. repeat split; discriminate.
Defined.

End RescheduleFacts.

(** ** [GET /api/bookings] *)

Module ListingFacts.
Import BookingsList ListingSpec.

Lemma insertByStartTime_perm x l : Permutation (insertByStartTime x l) (x :: l).
Proof.
  induction l as [|y t IH]; [reflexivity|]. cbn [insertByStartTime].
  destruct (Booking.startTime y <=? Booking.startTime x); [|reflexivity].
  rewrite IH. apply perm_swap.
Qed.

Lemma orderByStartTime_perm l : Permutation (orderByStartTime l) l.
Proof.
  induction l as [|x t IH]; [reflexivity|].
  unfold orderByStartTime in *. cbn [foldr].
  rewrite insertByStartTime_perm. now apply perm_skip.
Qed.

Lemma insertByStartTime_sorted x l :
  StronglySorted startsNoLater l -> StronglySorted startsNoLater (insertByStartTime x l).
Proof.
  induction 1 as [|y t Hs IH Hy]; cbn [insertByStartTime].
  - repeat constructor.
  - destruct (Booking.startTime y <=? Booking.startTime x) eqn:E.
    + apply Z.leb_le in E. constructor; [exact IH|].
      apply List.Forall_forall. intros z Hz.
      apply (Permutation_in _ (insertByStartTime_perm x t)) in Hz.
      destruct Hz as [<-|Hz]; [exact E|].
      rewrite List.Forall_forall in Hy. now apply Hy.
    + apply Z.leb_gt in E. constructor; [constructor; assumption|].
      constructor; [unfold startsNoLater; lia|].
      eapply Forall_impl; [exact Hy|]. intros z Hz. unfold startsNoLater in *. lia.
Qed.

Lemma orderByStartTime_sorted l : StronglySorted startsNoLater (orderByStartTime l).
Proof.
  induction l as [|x t IH]; [constructor|].
  unfold orderByStartTime in *. cbn [foldr]. now apply insertByStartTime_sorted.
Qed.

Lemma whereOf_userId out userId query test b :
  whereOf out userId query = Some test -> test b = true -> Booking.userId b = userId.
Proof.
  unfold whereOf. cbv zeta.
  repeat match goal with
         | |- context [match ?x with _ => _ end] => destruct x
         end; intros H; try discriminate; injection H as <-;
    rewrite !andb_true_iff; intros ((Hu & _) & _); now apply String.eqb_eq.
Qed.

(** X21: the list holds the bookings of the signed-in host, and only
    those, in order of start. *)
Theorem GET_lists_own_bookings (out : Outside) (query : Query) (w : World) :
  let run := GET out query w in
  bookings (snd run) = bookings w
  /\ (truthy (sessionUserId out) = false -> fst run = Unauthorized)
  /\ forall l, fst run = Listed l ->
       exists userId test,
         sessionUserId out = Some userId
         /\ whereOf out userId query = Some test
         /\ Permutation l (List.filter test (bookings w))
         /\ Forall (fun b => Booking.userId b = userId) l
         /\ StronglySorted startsNoLater l.
Proof.
  intros run. unfold run, GET.
  destruct (sessionUserId out) as [userId|] eqn:Hs.
  2: { cbn. repeat split; auto. intros; discriminate. }
  destruct (truthy (Some userId)) eqn:Ht.
  2: { cbn. repeat split; auto. intros; discriminate. }
  rewrite bind_run. cbn [emit fst snd].
  destruct (whereOf out userId query) as [test|] eqn:Hw.
  2: { rewrite bind_run. cbn. repeat split; auto; intros; discriminate. }
  rewrite bind_run. cbn [gets ret fst snd bookings set_trace].
  split; [reflexivity|]. split; [intros; discriminate|].
  intros l Hl. injection Hl as <-. exists userId, test.
  split; [reflexivity|]. split; [exact Hw|].
  split; [apply orderByStartTime_perm|]. split; [|apply orderByStartTime_sorted].
  apply List.Forall_forall. intros b Hb.
  apply (Permutation_in _ (orderByStartTime_perm _)) in Hb.
  apply filter_In in Hb. destruct Hb as [_ Hb].
  exact (whereOf_userId _ _ _ _ _ Hw Hb).
Qed.

End ListingFacts.

(** ** [getSlotsGroupedByDate] and [GET /api/availability] *)

Module SlotsFacts.
Import EffectSpec EffectFacts FrameSpec FrameFacts Availability AvailabilityFacts.
Import SlotsByDate SlotsSpec.

Lemma slotsOf_pushSlot k slot grouped k' :
  slotsOf k' (pushSlot k slot grouped)
  = if String.eqb k k' then slotsOf k' grouped ++ [slot] else slotsOf k' grouped.
Proof.
  induction grouped as [|[key slots] grouped IH]; cbn [pushSlot].
  - unfold slotsOf. cbn. destruct (String.eqb k k'); reflexivity.
  - destruct (String.eqb key k) eqn:E.
    + apply String.eqb_eq in E. subst key. unfold slotsOf. cbn.
      destruct (String.eqb k k'); reflexivity.
    + unfold slotsOf in *. cbn [find fst].
      destruct (String.eqb key k') eqn:E'.
      * apply String.eqb_eq in E'. subst key.
        rewrite String.eqb_sym in E. rewrite E. reflexivity.
      * exact IH.
Qed.

Lemma pushSlot_keys k slot grouped key :
  In key (map fst (pushSlot k slot grouped)) <-> key = k \/ In key (map fst grouped).
Proof.
  induction grouped as [|[key' slots] grouped IH]; cbn [pushSlot].
  - cbn. intuition.
  - destruct (String.eqb key' k) eqn:E.
    + apply String.eqb_eq in E. subst key'. cbn. intuition.
    + cbn [map fst In]. rewrite IH. intuition.
Qed.

Lemma pushSlot_NoDup k slot grouped :
  List.NoDup (map fst grouped) -> List.NoDup (map fst (pushSlot k slot grouped)).
Proof.
  induction grouped as [|[key slots] grouped IH]; cbn [pushSlot]; intros Hnd.
  - repeat constructor. intros [].
  - destruct (String.eqb key k) eqn:E; [exact Hnd|].
    cbn [map fst] in *. apply NoDup_cons_iff in Hnd. destruct Hnd as [Hk Hnd].
    apply NoDup_cons_iff. split; [|now apply IH].
    rewrite pushSlot_keys. intros [->|H]; [|contradiction].
    rewrite String.eqb_refl in E. discriminate.
Qed.

Lemma pushSlot_nonempty k slot grouped :
  Forall (fun entry => snd entry <> []) grouped ->
  Forall (fun entry => snd entry <> []) (pushSlot k slot grouped).
Proof.
  induction 1 as [|[key slots] grouped Hk Hm IH]; cbn [pushSlot].
  - constructor; [|constructor]. cbn. discriminate.
  - destruct (String.eqb key k).
    + constructor; [|exact Hm]. cbn. destruct slots; discriminate.
    + constructor; [exact Hk | exact IH].
Qed.

Lemma pushSlot_concat k slot grouped :
  Permutation (concat (map snd (pushSlot k slot grouped)))
              (slot :: concat (map snd grouped)).
Proof.
  induction grouped as [|[key slots] grouped IH]; cbn [pushSlot].
  - reflexivity.
  - destruct (String.eqb key k); cbn [map snd concat].
    + rewrite <- app_assoc. cbn [app].
      rewrite <- Permutation_middle. reflexivity.
    + rewrite IH. rewrite <- Permutation_middle. reflexivity.
Qed.

Lemma groupSlots_snoc dateKey slots slot :
  groupSlots dateKey (slots ++ [slot])
  = pushSlot (dateKey slot) slot (groupSlots dateKey slots).
Proof. unfold groupSlots. rewrite fold_left_app. reflexivity. Qed.

Lemma groupSlots_invariant dateKey slots :
  List.NoDup (map fst (groupSlots dateKey slots))
  /\ Forall (fun entry => snd entry <> []) (groupSlots dateKey slots)
  /\ Permutation (concat (map snd (groupSlots dateKey slots))) slots
  /\ forall k, slotsOf k (groupSlots dateKey slots)
               = List.filter (fun slot => String.eqb (dateKey slot) k) slots.
Proof.
  induction slots as [|slot slots (Hnd & Hne & Hperm & Hof)] using rev_ind.
  - repeat split; try constructor. 
  - rewrite groupSlots_snoc. repeat split.
    + now apply pushSlot_NoDup.
    + now apply pushSlot_nonempty.
    + rewrite pushSlot_concat, Hperm. apply Permutation_cons_append.
    + intros k. rewrite slotsOf_pushSlot, Hof, List.filter_app. cbn [List.filter].
      destruct (String.eqb (dateKey slot) k); [reflexivity | now rewrite app_nil_r].
Qed.

Lemma slotsOf_In grouped k g :
  List.NoDup (map fst grouped) -> In (k, g) grouped -> slotsOf k grouped = g.
Proof.
  induction grouped as [|[key slots] grouped IH]; intros Hnd Hin; [destruct Hin|].
  cbn [map fst] in Hnd. apply NoDup_cons_iff in Hnd. destruct Hnd as [Hk Hnd].
  unfold slotsOf in *. cbn [find fst].
  destruct Hin as [Heq|Hin].
  - injection Heq as -> ->. rewrite String.eqb_refl. reflexivity.
  - destruct (String.eqb key k) eqn:E.
    + apply String.eqb_eq in E. subst key. exfalso. apply Hk.
      apply in_map_iff. exists (k, g). auto.
    + apply IH; assumption.
Qed.

Lemma In_slotsOf grouped k : slotsOf k grouped <> [] -> In (k, slotsOf k grouped) grouped.
Proof.
  unfold slotsOf. intros H.
  destruct (find _ grouped) as [[key slots]|] eqn:E; [|contradiction].
  apply find_some in E. destruct E as [Hin Hk]. cbn [fst] in Hk.
  apply String.eqb_eq in Hk. subst key. exact Hin.
Qed.

(** X22: grouping files every slot once, under its own key, in order. *)
Theorem groupSlots_groups (dateKey : TimeSlot.t -> string) (slots : list TimeSlot.t) :
  List.NoDup (map fst (groupSlots dateKey slots))
  /\ Permutation (concat (map snd (groupSlots dateKey slots))) slots
  /\ forall k g,
       In (k, g) (groupSlots dateKey slots)
       <-> g = List.filter (fun slot => String.eqb (dateKey slot) k) slots /\ g <> [].
Proof.
  destruct (groupSlots_invariant dateKey slots) as (Hnd & Hne & Hperm & Hof).
  split; [exact Hnd|]. split; [exact Hperm|].
  intros k g. split.
  - intros Hin. split.
    + rewrite <- Hof. symmetry. now apply slotsOf_In.
    + rewrite List.Forall_forall in Hne. apply (Hne (k, g) Hin).
  - intros [-> Hg]. rewrite <- Hof in *. now apply In_slotsOf.
Qed.

Lemma frames_generateAvailableSlots env options : frames (generateAvailableSlots env options).
Proof. unfold generateAvailableSlots, getEventTypeConfig. cbv zeta. frames_auto. Qed.
#[export] Hint Resolve frames_generateAvailableSlots : frames.

Lemma frames_getSlotsGroupedByDate env out eventTypeId startDate endDate timezone :
  frames (getSlotsGroupedByDate env out eventTypeId startDate endDate timezone).
Proof. unfold getSlotsGroupedByDate. frames_auto. Qed.
#[export] Hint Resolve frames_getSlotsGroupedByDate : frames.

(** X23: the grouped answer holds the slots of [generateAvailableSlots],
    each under the date of its start in the zone asked for. *)
Theorem getSlotsGroupedByDate_groups (env : Env) (out : Outside)
    (eventTypeId : string) (startDate endDate : Z) (timezone : string) (w : World) :
  let listing := generateAvailableSlots env
                   (mkOptions eventTypeId startDate endDate timezone) w in
  let run := getSlotsGroupedByDate env out eventTypeId startDate endDate timezone w in
  snd run = snd listing
  /\ (forall grouped, fst run = Returns grouped ->
        exists slots,
          fst listing = Returns slots
          /\ Permutation (concat (map snd grouped)) slots
          /\ (slots <> [] ->
                exists tz, zoneOffset out timezone = Some tz
                  /\ forall k g, In (k, g) grouped <->
                       g = List.filter (fun slot => String.eqb (dateKeyIn tz slot) k) slots
                       /\ g <> []))
  /\ (forall slots, fst listing = Returns slots -> slots <> [] ->
        zoneOffset out timezone = None ->
        exists e, fst run = Throws e).
Proof.
  intros listing run. unfold run, getSlotsGroupedByDate. rewrite bind_run. fold listing.
  destruct (fst listing) as [slots|e|] eqn:Hl.
  - destruct slots as [|slot slots].
    + cbn. split; [reflexivity|]. split.
      * intros grouped Hg. injection Hg as <-. exists []. repeat split; auto. contradiction.
      * intros slots Hs. injection Hs as <-. contradiction.
    + destruct (zoneOffset out timezone) as [tz|] eqn:Hz; cbn [ret fst snd].
      * split; [reflexivity|]. split.
        -- intros grouped Hg. injection Hg as <-. exists (slot :: slots).
           destruct (groupSlots_invariant (dateKeyIn tz) (slot :: slots))
             as (Hnd & Hne & Hperm & Hof).
           split; [reflexivity|]. split; [exact Hperm|].
           intros _. exists tz. split; [reflexivity|].
           intros k g. split.
           ++ intros Hin. split.
              ** rewrite <- Hof. symmetry. now apply slotsOf_In.
              ** rewrite List.Forall_forall in Hne. apply (Hne (k, g) Hin).
           ++ intros [-> Hg]. rewrite <- Hof in *. now apply In_slotsOf.
        -- intros; discriminate.
      * split; [reflexivity|]. split; [intros; discriminate|].
        intros. eexists. reflexivity.
  - cbn. split; [reflexivity|]. split; intros; discriminate.
  - cbn. split; [reflexivity|]. split; intros; discriminate.
Qed.

End SlotsFacts.

Module AvailabilityRouteFacts.
Import DateFns EffectSpec EffectFacts FrameSpec FrameFacts Availability AvailabilityFacts.
Import SlotsByDate SlotsSpec SlotsFacts AvailabilityRoute.

Lemma generateAvailableSlots_window env options w config slots slot :
  configOf (eventTypeId options) w = Some config ->
  fst (generateAvailableSlots env options w) = Returns slots ->
  In slot slots ->
  now env + minimumNotice config * 60000 <= TimeSlot.start slot
    <= now env + schedulingWindow config * 86400000.
Proof.
  intros Hcfg Hret Hin. unfold generateAvailableSlots in Hret.
  rewrite bind_run, getEventTypeConfig_run in Hret. cbn [fst snd] in Hret.
  rewrite Hcfg in Hret. cbv zeta in Hret.
  destruct (isAfter _ _).
  - injection Hret as <-. destruct Hin.
  - rewrite !bind_run in Hret.
    destruct (dayLoop _ _ _ _ _ _ _) as [found|] eqn:Hloop; [|discriminate].
    injection Hret as <-.
    destruct (dayLoop_kept _ _ _ _ _ _ _ _ _ Hloop Hin) as (raw & Hkeep & ->).
    apply keepSlot_true in Hkeep as [Hwin _].
    unfold addMinutes, addDays, millisecondsInMinute, millisecondsInDay in Hwin.
    exact Hwin.
Qed.

(** The store the handler passes to [getSlotsGroupedByDate]. *)
Lemma GET_run env out request w :
  let key := ("availability:" ++ ip request)%string in
  let w1 := snd (RateLimit.rateLimit env key RateLimit.RATE_LIMITS_availability w) in
  GET env out request w
  = if negb (RateLimit.success
               (fst (RateLimit.rateLimit env key RateLimit.RATE_LIMITS_availability w)))
    then (Returns (mkResponse 429 (ErrorBody "Too many requests. Please try again later.")), w1)
    else
      match query request with
      | Invalid => (Returns (mkResponse 400 (ErrorBody "Invalid parameters")), w1)
      | Valid eventTypeId startDate endDate timezone =>
          let w2 := set_trace w1 (trace w1 ++ [EventTypeFindUnique eventTypeId]) in
          let notFound :=
            (Returns (mkResponse 404 (ErrorBody "Event type not found or not active")), w2) in
          match BookingsRoute.eventTypeById eventTypeId w with
          | None => notFound
          | Some eventType =>
              if negb (EventType.isActive eventType) then notFound
              else
                let grouped := getSlotsGroupedByDate env out eventTypeId
                                 (Date_parse env startDate) (Date_parse env endDate)
                                 timezone w2 in
                match fst grouped with
                | Returns slotsByDate =>
                    (Returns (mkResponse 200 (Slots slotsByDate timezone)), snd grouped)
                | Throws e =>
                    (Returns (mkResponse 500 (ErrorBody "Failed to fetch availability")),
                     set_trace (snd grouped)
                       (trace (snd grouped)
                        ++ [ConsoleError "Error fetching availability:" (JsError.message e)]))
                | Diverges => (Diverges, snd grouped)
                end
          end
      end.
Proof.
  intros key w1. unfold GET. rewrite bind_run. fold key. fold w1.
  destruct (negb _); [reflexivity|].
  destruct (query request) as [|eventTypeId startDate endDate timezone]; [reflexivity|].
  rewrite bind_run, BookingFacts.eventTypeFindUnique_run. cbn [fst snd]. cbv zeta.
  destruct (BookingFacts.rateLimit_world env key RateLimit.RATE_LIMITS_availability w)
    as ((_ & _ & Hets & _) & _ & _).
  cbn [eventTypes set_rateLimitStore] in Hets. fold w1 in Hets.
  replace (BookingsRoute.eventTypeById eventTypeId w1)
    with (BookingsRoute.eventTypeById eventTypeId w)
    by (unfold BookingsRoute.eventTypeById; now rewrite Hets).
  destruct (BookingsRoute.eventTypeById eventTypeId w) as [eventType|]; [|reflexivity].
  destruct (negb (EventType.isActive eventType)); [reflexivity|].
  rewrite bind_run.
  destruct (fst (getSlotsGroupedByDate _ _ _ _ _ _ _)); reflexivity.
Qed.

Lemma getSlotsGroupedByDate_returns env out eventTypeId startDate endDate timezone w grouped :
  fst (getSlotsGroupedByDate env out eventTypeId startDate endDate timezone w)
    = Returns grouped ->
  exists slots,
    fst (generateAvailableSlots env (mkOptions eventTypeId startDate endDate timezone) w)
      = Returns slots
    /\ Permutation (concat (map snd grouped)) slots.
Proof.
  unfold getSlotsGroupedByDate. rewrite bind_run.
  destruct (fst (generateAvailableSlots _ _ _)) as [slots|e|]; try discriminate.
  destruct slots as [|slot slots].
  - cbn. intros H. injection H as <-. exists []. split; reflexivity.
  - destruct (zoneOffset out timezone) as [tz|]; [|discriminate].
    cbn [ret fst snd]. intros H. injection H as <-.
    exists (slot :: slots). split; [reflexivity|].
    apply (groupSlots_invariant _ (slot :: slots)).
Qed.

(** X24: the availability route lists active event types only, and what
    it lists lies within the notice and the window. *)
Theorem GET_availability_lists (env : Env) (out : Outside) (request : Request) (w : World) :
  let run := GET env out request w in
  bookings (snd run) = bookings w /\ eventTypes (snd run) = eventTypes w
  /\ forall r, fst run = Returns r -> status r = 200 ->
       exists eventTypeId startDate endDate timezone eventType grouped slots,
         query request = Valid eventTypeId startDate endDate timezone
         /\ BookingsRoute.eventTypeById eventTypeId w = Some eventType
         /\ EventType.isActive eventType = true
         /\ json r = Slots grouped timezone
         /\ Permutation (concat (map snd grouped)) slots
         /\ Forall (fun slot =>
               now env + EventType.minimumNotice eventType * 60000 <= TimeSlot.start slot
               <= now env + EventType.schedulingWindow eventType * 86400000) slots.
Proof.
  intros run. unfold run. rewrite GET_run. cbv zeta.
  set (key := ("availability:" ++ ip request)%string).
  destruct (BookingFacts.rateLimit_world env key RateLimit.RATE_LIMITS_availability w)
    as ((_ & _ & Hets & _ & Hb & _) & _ & _).
  cbn [eventTypes bookings set_rateLimitStore] in Hets, Hb.
  set (w1 := snd (RateLimit.rateLimit env key RateLimit.RATE_LIMITS_availability w)) in *.
  destruct (negb _).
  { cbn. repeat split; auto. intros r H. injection H as <-. discriminate. }
  destruct (query request) as [|eventTypeId startDate endDate timezone].
  { cbn. repeat split; auto. intros r H. injection H as <-. discriminate. }
  destruct (BookingsRoute.eventTypeById eventTypeId w) as [eventType|] eqn:Het.
  2: { cbn. repeat split; auto. intros r H. injection H as <-. discriminate. }
  destruct (EventType.isActive eventType) eqn:Hact; cbn [negb].
  2: { cbn. repeat split; auto. intros r H. injection H as <-. discriminate. }
  set (w2 := set_trace w1 _).
  destruct (frames_getSlotsGroupedByDate env out eventTypeId (Date_parse env startDate)
              (Date_parse env endDate) timezone w2) as (_ & _ & Hets' & _ & Hb' & _).
  assert (Hb2 : bookings w2 = bookings w1) by reflexivity.
  assert (Hets2 : eventTypes w2 = eventTypes w1) by reflexivity.
  destruct (fst (getSlotsGroupedByDate _ _ _ _ _ _ _)) as [grouped|e|] eqn:Hg.
  - cbn [fst snd]. split; [congruence|]. split; [congruence|].
    intros r H _. injection H as <-.
    destruct (getSlotsGroupedByDate_returns _ _ _ _ _ _ _ _ Hg) as (slots & Hs & Hperm).
    exists eventTypeId, startDate, endDate, timezone, eventType, grouped, slots.
    repeat (split; [auto; fail|]).
    apply List.Forall_forall. intros slot Hin.
    assert (Het2 : BookingsRoute.eventTypeById eventTypeId w2 = Some eventType)
      by (unfold BookingsRoute.eventTypeById in *; now rewrite Hets2, Hets).
    destruct (configOf eventTypeId w2) as [config|] eqn:Hcfg.
    + destruct (RescheduleFacts.configOf_eventType _ _ _ _ Het2 Hcfg) as (_ & _ & <- & <-).
      apply (generateAvailableSlots_window env
               (mkOptions eventTypeId (Date_parse env startDate) (Date_parse env endDate)
                  timezone) w2 config slots slot Hcfg Hs Hin).
    + exfalso. unfold generateAvailableSlots in Hs.
      rewrite bind_run, getEventTypeConfig_run in Hs.
      cbn [fst snd Availability.eventTypeId] in Hs.
      rewrite Hcfg in Hs. discriminate.
  - cbn [fst snd set_trace bookings eventTypes]. split; [congruence|]. split; [congruence|].
    intros r H. injection H as <-. discriminate.
  - cbn [fst snd]. split; [congruence|]. split; [congruence|]. intros; discriminate.
Qed.

(** X25: for an event type written through the schema the route answers.
    A request that passes the limiter and names an active event type whose
    scheduling fields satisfy the schema gets a response, 200 or, when the
    time zone is unknown, 500; the slot computation does not run on for
    ever. *)
Theorem GET_availability_answers (env : Env) (out : Outside) (request : Request)
    (w : World) (eventTypeId startDate endDate timezone : string)
    (eventType : EventType.t) :
  RateLimit.success
    (fst (RateLimit.rateLimit env ("availability:" ++ ip request)%string
            RateLimit.RATE_LIMITS_availability w)) = true ->
  query request = Valid eventTypeId startDate endDate timezone ->
  BookingsRoute.eventTypeById eventTypeId w = Some eventType ->
  EventType.isActive eventType = true ->
  (exists user, In user (users w) /\ User.id user = EventType.userId eventType) ->
  Validations.eventTypeSchema eventType = true ->
  exists r, fst (GET env out request w) = Returns r
    /\ (status r = 200 \/ status r = 500 /\ zoneOffset out timezone = None).
Proof.
  intros Hs Hq Het Hact Hhost Hschema. rewrite GET_run. cbv zeta.
  rewrite Hs, Hq, Het, Hact. cbn [negb].
  set (key := ("availability:" ++ ip request)%string).
  destruct (BookingFacts.rateLimit_world env key RateLimit.RATE_LIMITS_availability w)
    as ((Hus & _ & Hets & _) & _ & _).
  cbn [users eventTypes set_rateLimitStore] in Hus, Hets.
  set (w1 := snd (RateLimit.rateLimit env key RateLimit.RATE_LIMITS_availability w)) in *.
  set (w2 := set_trace w1 _).
  assert (Hets2 : eventTypes w2 = eventTypes w1) by reflexivity.
  assert (Hus2 : users w2 = users w1) by reflexivity.
  assert (Het2 : BookingsRoute.eventTypeById eventTypeId w2 = Some eventType)
    by (unfold BookingsRoute.eventTypeById in *; now rewrite Hets2, Hets).
  assert (Hhost2 : exists user, In user (users w2)
                     /\ User.id user = EventType.userId eventType)
    by (now rewrite Hus2, Hus).
  assert (Hret : exists slots,
            fst (generateAvailableSlots env
                   (mkOptions eventTypeId (Date_parse env startDate)
                      (Date_parse env endDate) timezone) w2) = Returns slots).
  { unfold BookingsRoute.eventTypeById in Het2.
    destruct Hhost2 as (user & Hin & Hid).
    assert (Hcfg : exists config, configOf eventTypeId w2 = Some config
                     /\ slotInterval config = EventType.slotInterval eventType
                     /\ workingHours config = EventType.workingHours eventType).
    { unfold configOf. rewrite Het2.
      destruct (find _ (users w2)) as [u|] eqn:Hu.
      - eexists. split; [reflexivity|]. cbn. auto.
      - apply find_none with (x := user) in Hu; [|exact Hin].
        rewrite Hid, String.eqb_refl in Hu. discriminate. }
    destruct Hcfg as (config & Hcfg & Hstep & Hhours).
    unfold Validations.eventTypeSchema in Hschema. rewrite !andb_true_iff in Hschema.
    destruct Hschema as ((_ & Hint) & Hwh).
    unfold Validations.between in Hint. apply andb_true_iff in Hint.
    destruct Hint as [Hint _]. apply Z.leb_le in Hint.
    apply (generateAvailableSlots_returns env
             (mkOptions eventTypeId (Date_parse env startDate) (Date_parse env endDate)
                timezone) w2 config Hcfg).
    - rewrite Hstep. lia.
    - rewrite Hhours. apply List.Forall_forall. intros wh Hwhin.
      rewrite forallb_forall in Hwh. specialize (Hwh wh Hwhin).
      unfold Validations.workingHoursSchema in Hwh. rewrite !andb_true_iff in Hwh.
      destruct Hwh as ((_ & H1) & H2).
      destruct (ClockFacts.matchesHHmm_pad2 _ H1) as (h1 & m1 & ? & ? & E1).
      destruct (ClockFacts.matchesHHmm_pad2 _ H2) as (h2 & m2 & ? & ? & E2).
      unfold AvailabilitySpec.parses.
      rewrite E1, E2, !ClockFacts.parseTimeString_pad2 by assumption.
      split; discriminate. }
  destruct Hret as (slots & Hslots).
  unfold getSlotsGroupedByDate. rewrite bind_run, Hslots.
  destruct slots as [|slot slots].
  - cbn [ret fst snd]. eexists. split; [reflexivity|]. left. reflexivity.
  - destruct (zoneOffset out timezone) as [tz|].
    + cbn [ret fst snd]. eexists. split; [reflexivity|]. left. reflexivity.
    + cbn [ret fst snd]. eexists. split; [reflexivity|]. right. split; reflexivity.
Qed.

Lemma GET_availability_answers_witness :
  let eventType := Scenario.eventType 30 true false in
  let w := Scenario.world eventType (Scenario.booking CONFIRMED) in
  let env := Scenario.env (Scenario.at_ 9 40) (Scenario.at_ 10 15) in
  let out := UidSpec.outside None true true true in
  let request := mkRequest "203.0.113.7"
                   (Valid "evt1" "2024-01-15T10:15:00.000Z" "2024-01-15T10:15:00.000Z" "UTC") in
  (Validations.eventTypeSchema eventType = true /\ EventType.isActive eventType = true)
  /\ exists r, fst (GET env out request w) = Returns r
       /\ (status r = 200 \/ status r = 500 /\ zoneOffset out "UTC" = None).
Proof.
  intros eventType w env out request.
  assert (Hschema : Validations.eventTypeSchema eventType = true) by reflexivity.
  split; [split; [exact Hschema | reflexivity]|].
  apply (GET_availability_answers env out request w "evt1" "2024-01-15T10:15:00.000Z"
           "2024-01-15T10:15:00.000Z" "UTC" eventType).
  - vm_compute. reflexivity.
  - reflexivity.
  - reflexivity.
  - reflexivity.
  - exists Scenario.host. split; [left; reflexivity | reflexivity].
  - exact Hschema.
Defined.

End AvailabilityRouteFacts.

(** ** [getClientIP] *)

Module ClientFacts.
Import Availability ClientIP ClientSpec.

Lemma noComma_trimStart s : noComma s = true -> noComma (trimStart s) = true.
Proof.
  induction s as [|c s IH]; [auto|]. cbn [trimStart noComma].
  intros H. destruct (isWhiteSpace c); [|exact H].
  apply andb_true_iff in H. apply IH, H.
Qed.

Lemma noComma_trimEndOpt s t : noComma s = true -> trimEndOpt s = Some t -> noComma t = true.
Proof.
  revert t. induction s as [|c s IH]; intros t H E; [discriminate|].
  cbn [trimEndOpt] in E. cbn [noComma] in H. apply andb_true_iff in H. destruct H as [Hc Hs].
  destruct (trimEndOpt s) as [t'|].
  - injection E as <-. cbn [noComma]. rewrite Hc, (IH t' Hs eq_refl). reflexivity.
  - destruct (isWhiteSpace c); [discriminate|]. injection E as <-. cbn. now rewrite Hc.
Qed.

Lemma noComma_trim s : noComma s = true -> noComma (trim s) = true.
Proof.
  intros H. unfold trim, trimEnd.
  destruct (trimEndOpt (trimStart s)) as [t|] eqn:E; [|reflexivity].
  apply (noComma_trimEndOpt (trimStart s)); [apply noComma_trimStart, H | exact E].
Qed.

Lemma splitOn_hd s :
  exists piece pieces, splitOn "," s = piece :: pieces /\ noComma piece = true.
Proof.
  induction s as [|c s (piece & pieces & E & H)]; cbn [splitOn].
  - exists EmptyString, []. auto.
  - destruct (Ascii.eqb c ",") eqn:Ec.
    + exists EmptyString. eexists. auto.
    + rewrite E. exists (String c piece), pieces. split; [reflexivity|].
      cbn [noComma]. now rewrite Ec, H.
Qed.

Lemma splitOn_token token rest :
  noComma token = true ->
  hd EmptyString (splitOn "," (token ++ "," ++ rest)) = token
  /\ hd EmptyString (splitOn "," token) = token.
Proof.
  induction token as [|c token IH]; intros H.
  - split; reflexivity.
  - cbn [noComma] in H. apply andb_true_iff in H. destruct H as [Hc H].
    apply negb_true_iff in Hc. destruct (IH H) as [IH1 IH2].
    change (String c token ++ "," ++ rest)%string
      with (String c (token ++ "," ++ rest)).
    cbn [splitOn]. rewrite Hc.
    destruct (splitOn_hd (token ++ "," ++ rest)) as (p1 & ps1 & E1 & _).
    destruct (splitOn_hd token) as (p2 & ps2 & E2 & _).
    rewrite E1 in *. rewrite E2 in *. cbn [hd] in *. now subst.
Qed.

Lemma trimEndOpt_fixed s t : trimEndOpt s = Some t -> trimEndOpt t = Some t.
Proof.
  revert t. induction s as [|c s IH]; intros t E; [discriminate|].
  cbn [trimEndOpt] in E. destruct (trimEndOpt s) as [t'|].
  - injection E as <-. cbn [trimEndOpt]. now rewrite (IH t' eq_refl).
  - destruct (isWhiteSpace c) eqn:Ec; [discriminate|]. injection E as <-.
    cbn [trimEndOpt]. now rewrite Ec.
Qed.

Lemma trimStart_head s :
  trimStart s = EmptyString
  \/ exists c s', trimStart s = String c s' /\ isWhiteSpace c = false.
Proof.
  induction s as [|c s IH]; [left; reflexivity|]. cbn [trimStart].
  destruct (isWhiteSpace c) eqn:E; [exact IH|]. right. eauto.
Qed.

Lemma trim_idempotent s : trim (trim s) = trim s.
Proof.
  unfold trim at 2 3.
  destruct (trimStart_head s) as [->|(c & s' & -> & Hc)]; [reflexivity|].
  unfold trimEnd.
  assert (H : exists t, trimEndOpt (String c s') = Some (String c t)).
  { cbn [trimEndOpt]. destruct (trimEndOpt s'); [eauto|]. rewrite Hc. eauto. }
  destruct H as (t & E). rewrite E.
  unfold trim. cbn [trimStart]. rewrite Hc. unfold trimEnd.
  now rewrite (trimEndOpt_fixed _ _ E).
Qed.

(** X26: the first entry of [X-Forwarded-For] is the address.  With a
    non-empty header, and whatever [X-Real-IP] holds, the result has no
    comma and no white space around it, and a header that begins with a
    trimmed token before its first comma gives that token. *)
Theorem getClientIP_first_entry (forwarded : string) (realIP : option string) :
  forwarded <> EmptyString ->
  let ip := getClientIP (mkHeaders (Some forwarded) realIP) in
  noComma ip = true /\ trim ip = ip
  /\ forall token rest,
       forwarded = (token ++ "," ++ rest)%string \/ forwarded = token ->
       noComma token = true -> trim token = token ->
       ip = token.
Proof.
  intros Hne ip. unfold ip, getClientIP. cbn [x_forwarded_for].
  replace (truthy (Some forwarded)) with true
    by (destruct forwarded; [contradiction | reflexivity]).
  split; [|split].
  - destruct (splitOn_hd forwarded) as (piece & pieces & -> & H). cbn [hd].
    now apply noComma_trim.
  - apply trim_idempotent.
  - intros token rest Hf Hc Ht.
    destruct (splitOn_token token rest Hc) as [H1 H2].
    destruct Hf as [-> | ->]; [rewrite H1 | rewrite H2]; exact Ht.
Qed.

Lemma getClientIP_first_entry_witness :
  getClientIP (mkHeaders (Some " 203.0.113.7 , 10.0.0.1"%string) (Some "10.0.0.9"%string))
    = "203.0.113.7"%string
  /\ getClientIP (mkHeaders (Some "198.51.100.4,203.0.113.7"%string) None)
     = "198.51.100.4"%string.
Proof.
  split; [reflexivity|].
  apply (proj2 (proj2 (getClientIP_first_entry "198.51.100.4,203.0.113.7" None
                         ltac:(discriminate))) "198.51.100.4" "203.0.113.7");
    [left; reflexivity | reflexivity | reflexivity].
Defined.

End ClientFacts.

(** ** What a listed slot has passed *)

Module ListingSoundness.
Import DateFns EffectSpec EffectFacts Availability AvailabilitySpec AvailabilityFacts.
Import IntervalSpec IntervalFacts MergeFacts ClockSpec ClockFacts SnapshotSpec.







End ListingSoundness.

(** ** Token refresh and the per-account queries of [src/lib/google-calendar.ts] *)

Module TokenFacts.
Import EffectSpec FrameSpec GoogleCalendar BusySpec PostTraceFacts.

Lemma find_updated a (f : ConnectedAccount.t -> ConnectedAccount.t) rows :
  (forall r, ConnectedAccount.id (f r) = ConnectedAccount.id r) ->
  find (fun r => String.eqb (ConnectedAccount.id r) a)
       (map (fun r => if String.eqb (ConnectedAccount.id r) a then f r else r) rows)
  = option_map f (find (fun r => String.eqb (ConnectedAccount.id r) a) rows).
Proof.
  intros Hf. induction rows as [|r rows IH]; [reflexivity|].
  cbn [map find]. destruct (String.eqb (ConnectedAccount.id r) a) eqn:E.
  - rewrite Hf, E. reflexivity.
  - rewrite E. exact IH.
Qed.

(** X29: a refreshed token is used until a minute before it expires.  A
    successful refresh stores the new expiry, and a later call that is
    still a minute short of it reads the account and does nothing else:
    no second refresh, no write. *)
Theorem refreshed_token_is_reused (env env' : Env) (a : string) (w : World)
    (row : ConnectedAccount.t) (token : string) (expiry_date : option Z) :
  accountRow a w = Some row ->
  ConnectedAccount.expiresAt row < now env + 60000 ->
  refreshAccessToken env a = Refreshed (Some token) expiry_date ->
  token <> EmptyString ->
  now env' + 60000 <= expiryOrDefault env expiry_date ->
  let w1 := snd (getAuthenticatedClient env a w) in
  fst (getAuthenticatedClient env a w) = Fulfilled tt
  /\ accountRow a w1
     = Some (ConnectedAccount.set_expiresAt row (expiryOrDefault env expiry_date))
  /\ fst (getAuthenticatedClient env' a w1) = Fulfilled tt
  /\ connectedAccounts (snd (getAuthenticatedClient env' a w1)) = connectedAccounts w1
  /\ emitted (getAuthenticatedClient env' a) w1 = [ConnectedAccountFindUnique a].
Proof.
  intros Hrow Hexp Href Htok Hnext w1.
  assert (Hfirst : getAuthenticatedClient env a w
                   = (Fulfilled tt,
                      set_connectedAccounts
                        (set_trace w (trace w ++ [ConnectedAccountFindUnique a;
                                                  GoogleRefreshAccessToken a;
                                                  ConnectedAccountUpdate a]))
                        (map (fun r => if String.eqb (ConnectedAccount.id r) a
                                then ConnectedAccount.set_expiresAt r
                                       (expiryOrDefault env expiry_date)
                                else r) (connectedAccounts w)))).
  { unfold getAuthenticatedClient, updateAccount. unfold accountRow in Hrow.
    rewrite !bind_run. cbn [emit gets fst snd connectedAccounts set_trace].
    rewrite Hrow.
    replace (ConnectedAccount.expiresAt row <? now env + 60000) with true
      by (symmetry; apply Z.ltb_lt; exact Hexp).
    rewrite !bind_run. cbn [emit fst snd]. rewrite Href.
    replace (truthy (Some token)) with true by (destruct token; [contradiction | reflexivity]).
    rewrite !bind_run. cbn [emit ret fst snd connectedAccounts set_trace trace].
    rewrite <- !app_assoc. reflexivity. }
  assert (Hrow1 : accountRow a w1
                  = Some (ConnectedAccount.set_expiresAt row (expiryOrDefault env expiry_date))).
  { unfold w1. rewrite Hfirst. unfold accountRow in *.
    cbn [snd connectedAccounts set_connectedAccounts].
    rewrite find_updated by reflexivity. rewrite Hrow. reflexivity. }
  split; [rewrite Hfirst; reflexivity|]. split; [exact Hrow1|].
  assert (Hsecond : getAuthenticatedClient env' a w1
                    = (Fulfilled tt,
                       set_trace w1 (trace w1 ++ [ConnectedAccountFindUnique a]))).
  { unfold getAuthenticatedClient. unfold accountRow in Hrow1.
    rewrite !bind_run. cbn [emit gets fst snd connectedAccounts set_trace].
    rewrite Hrow1. cbn [ConnectedAccount.expiresAt ConnectedAccount.set_expiresAt].
    replace (expiryOrDefault env expiry_date <? now env' + 60000) with false
      by (symmetry; apply Z.ltb_ge; exact Hnext).
    reflexivity. }
  rewrite Hsecond. cbn [fst snd connectedAccounts set_trace].
  split; [reflexivity|]. split; [reflexivity|].
  apply emitted_app. rewrite Hsecond. reflexivity.
Qed.

Lemma refreshed_token_is_reused_witness :
  let row := ConnectedAccount.mk "acct1" "host1" (Scenario.at_ 9 0) true in
  let w := mkWorld [Scenario.host] [row] [Scenario.calendar] [] [] [] ∅ [] in
  let env := Scenario.env (Scenario.at_ 9 40) (Scenario.at_ 10 15) in
  let later := Scenario.env (Scenario.at_ 10 0) (Scenario.at_ 10 15) in
  (accountRow "acct1" w = Some row
   /\ refreshAccessToken env "acct1" = Refreshed (Some "token"%string) None)
  /\ accountRow "acct1" (snd (getAuthenticatedClient env "acct1" w))
     = Some (ConnectedAccount.mk "acct1" "host1" (Scenario.at_ 10 40) true)
  /\ emitted (getAuthenticatedClient later "acct1")
       (snd (getAuthenticatedClient env "acct1" w))
     = [ConnectedAccountFindUnique "acct1"].
Proof.
  intros row w env later.
  assert (Hrow : accountRow "acct1" w = Some row) by reflexivity.
  assert (Href : refreshAccessToken env "acct1" = Refreshed (Some "token"%string) None)
    by reflexivity.
  split; [split; assumption|].
  destruct (refreshed_token_is_reused env later "acct1" w row "token" None Hrow
              eq_refl Href ltac:(discriminate) ltac:(discriminate))
    as (_ & H1 & _ & _ & H2).
  split; [exact H1 | exact H2].
Defined.

Import QuerySpec TraceFacts GroupingFacts BusyFacts.

Lemma fetchAccount_concerns env timeMin timeMax a ids :
  emitsOnly (concerns a) (fetchAccount env timeMin timeMax (a, ids)).
Proof.
  unfold fetchAccount, getFreeBusy, getAuthenticatedClient, updateAccount, console_error.
  cbn [fst snd].
  repeat first
    [ apply emitsOnly_ret | apply emitsOnly_gets
    | apply emitsOnly_emit; cbn [concerns]; apply String.eqb_refl
    | apply emitsOnly_silent; intros ?; reflexivity
    | apply emitsOnly_bind; [|intros ?]
    | match goal with |- emitsOnly _ (match ?x with _ => _ end) => destruct x end ].
Qed.

Lemma queriesOf_none a t :
  forallb (fun e => negb (isQueryOf a e)) t = true -> queriesOf a t = 0%nat.
Proof.
  unfold queriesOf. induction t as [|e t IH]; [reflexivity|].
  cbn [forallb List.filter]. intros H. apply andb_true_iff in H. destruct H as [He Ht].
  apply negb_true_iff in He. rewrite He. now apply IH.
Qed.

Lemma getAuthenticatedClient_no_query env a b :
  emitsOnly (fun e => negb (isQueryOf b e)) (getAuthenticatedClient env a).
Proof. unfold getAuthenticatedClient, updateAccount. repeat emits_step. Qed.

Lemma fetchAccount_one_query env timeMin timeMax a ids w :
  exists t, trace (snd (fetchAccount env timeMin timeMax (a, ids) w)) = trace w ++ t
            /\ forallb (concerns a) t = true /\ (queriesOf a t <= 1)%nat.
Proof.
  destruct (fetchAccount_concerns env timeMin timeMax a ids w) as (t & Ht & Hall).
  exists t. split; [exact Ht|]. split; [exact Hall|].
  revert Ht. unfold fetchAccount, getFreeBusy, console_error. cbn [fst snd].
  rewrite !bind_run.
  destruct (getAuthenticatedClient_no_query env a a w) as (t0 & E0 & H0).
  apply queriesOf_none in H0.
  set (client := getAuthenticatedClient env a w) in *.
  assert (Hsum : forall post, (queriesOf a post <= 1)%nat ->
            trace w ++ t = trace (snd client) ++ post -> (queriesOf a t <= 1)%nat).
  { intros post Hpost E. rewrite E0, <- app_assoc in E. apply app_inv_head in E. subst t.
    unfold queriesOf in *. rewrite List.filter_app, length_app. lia. }
  destruct (fst client) as [[]|e].
  - rewrite !bind_run. cbn [emit fst snd].
    destruct (freebusyQuery env a ids timeMin timeMax) as [calendars|].
    + cbn [ret fst snd]; rewrite ?bind_run; cbn [ret emit fst snd trace set_trace]. intros E. symmetry in E.
      apply (Hsum [GoogleFreeBusyQuery a]); [cbn; rewrite String.eqb_refl; cbn; lia|].
      exact E.
    + cbn [ret fst snd]; rewrite ?bind_run; cbn [ret emit fst snd trace set_trace]. intros E. symmetry in E.
      rewrite <- app_assoc in E. cbn [app] in E.
      apply (Hsum [GoogleFreeBusyQuery a; ConsoleError "Error fetching free/busy for account" a]);
        [cbn; rewrite String.eqb_refl; cbn; lia|].
      exact E.
  - cbn [ret fst snd]; rewrite ?bind_run; cbn [ret emit fst snd trace set_trace]. intros E. symmetry in E.
    apply (Hsum [ConsoleError "Error fetching free/busy for account" a]); [cbn; lia|].
    exact E.
Qed.

Lemma concerns_other a b t :
  a <> b -> forallb (concerns a) t = true -> queriesOf b t = 0%nat.
Proof.
  intros Hab. unfold queriesOf. induction t as [|e t IH]; [reflexivity|].
  cbn [forallb List.filter]. intros H. apply andb_true_iff in H. destruct H as [He Ht].
  destruct (isQueryOf b e) eqn:Eq; [|now apply IH].
  exfalso. destruct e; try discriminate. cbn in He, Eq.
  apply String.eqb_eq in He, Eq. congruence.
Qed.

Lemma promiseAll_queries env timeMin timeMax entries : forall w,
  List.NoDup (map fst entries) ->
  exists t, trace (snd (promiseAll (fetchAccount env timeMin timeMax) entries w))
            = trace w ++ t
    /\ forall b, (queriesOf b t <= 1)%nat
                 /\ (queriesOf b t <> 0%nat -> In b (map fst entries)).
Proof.
  induction entries as [|[a ids] entries IH]; intros w Hnd.
  - exists []. cbn. rewrite app_nil_r. split; [reflexivity|].
    intros b. split; [lia | intros H; exfalso; apply H; reflexivity].
  - cbn [map fst] in Hnd. apply NoDup_cons_iff in Hnd. destruct Hnd as [Ha Hnd].
    cbn [promiseAll]. rewrite !bind_run. cbn [ret fst snd].
    destruct (fetchAccount_one_query env timeMin timeMax a ids w) as (t1 & E1 & Hc1 & Hq1).
    destruct (IH (snd (fetchAccount env timeMin timeMax (a, ids) w)) Hnd) as (t2 & E2 & H2).
    exists (t1 ++ t2). split; [rewrite E2, E1, <- app_assoc; reflexivity|].
    intros b.
    assert (Hsum : queriesOf b (t1 ++ t2) = (queriesOf b t1 + queriesOf b t2)%nat)
      by (unfold queriesOf; rewrite List.filter_app, length_app; reflexivity).
    rewrite Hsum. destruct (H2 b) as [Hle Hin]. cbn [map fst In].
    destruct (String.eqb a b) eqn:Eab.
    + apply String.eqb_eq in Eab. subst b.
      assert (queriesOf a t2 = 0%nat).
      { destruct (queriesOf a t2) eqn:E; [reflexivity|]. exfalso. apply Ha, Hin. lia. }
      split; [lia | auto].
    + apply String.eqb_neq in Eab. rewrite (concerns_other a b t1 Eab Hc1).
      split; [lia|]. intros H. right. apply Hin. lia.
Qed.

Lemma calendarsByAccount_keys cals k :
  In k (map fst (calendarsByAccount cals))
  <-> exists cal, In cal cals /\ Calendar.connectedAccountId cal = k.
Proof.
  induction cals as [|cal cals IH] using rev_ind.
  - cbn. split; [intros [] | intros (cal & [] & _)].
  - rewrite calendarsByAccount_snoc, groupPush_keys, IH. split.
    + intros [->|(c & Hc & Hk)].
      * exists cal. split; [apply in_or_app; right; left; reflexivity | reflexivity].
      * exists c. split; [apply in_or_app; left; exact Hc | exact Hk].
    + intros (c & Hc & Hk). apply in_app_or in Hc. destruct Hc as [Hc|[<-|[]]].
      * right. exists c. auto.
      * left. symmetry. exact Hk.
Qed.

(** X30: one free/busy query per account at most, and only for accounts
    that hold a selected calendar of the host and are valid. *)
Theorem getCompositeBusy_queries (env : Env) (userId : string) (timeMin timeMax : Z)
    (w : World) (accountId : string) :
  let t := emitted (getCompositeBusy env userId timeMin timeMax) w in
  (queriesOf accountId t <= 1)%nat
  /\ (queriesOf accountId t <> 0%nat ->
        exists cal, In cal (selectedValidCalendars userId w)
                    /\ Calendar.connectedAccountId cal = accountId).
Proof.
  intros t.
  pose proof (getCompositeBusy_run env userId timeMin timeMax w) as Hrun. cbv zeta in Hrun.
  set (entries := calendarsByAccount (selectedValidCalendars userId w)) in *.
  set (w0 := set_trace w (trace w ++ [CalendarFindMany userId])) in *.
  destruct (promiseAll_queries env timeMin timeMax entries w0
              (calendarsByAccount_NoDup _)) as (t' & Ht' & Hq).
  assert (Et : t = CalendarFindMany userId :: t').
  { unfold t. apply emitted_app. rewrite Hrun. cbn [snd]. rewrite Ht'.
    unfold w0. cbn [trace set_trace]. rewrite <- app_assoc. reflexivity. }
  rewrite Et. unfold queriesOf. cbn [List.filter isQueryOf].
  fold (queriesOf accountId t'). destruct (Hq accountId) as [Hle Hin].
  split; [exact Hle|]. intros H. apply calendarsByAccount_keys, Hin, H.
Qed.

End TokenFacts.
